(** * Sparse-coding inference solvers (sparsecoding/inference.py)

    A shallow embedding of the inference module: the base class
    [InferenceMethod] with its NaN guard, and the solvers [LCA], [Vanilla],
    [ISTA], [LSM], [PyTorchOptimizer], [IHT], [MP] and [OMP].

    Modelling choices.
    - Tensor entries are elements of a type [R] carrying the elementwise
      operations the module asks of the numeric backend ([Scalar]).  The
      development is parametric in [R]; two instances are given at the end
      of the definitions: exact rationals ([Qc]), and rationals extended
      with the IEEE special values (infinities and NaN).  Rounding is not
      modelled.
    - A tensor is a shape and its row-major storage, as in the backend.
      Operations are written for operands of the documented shapes; the
      backend's shape-mismatch failures are not represented.
    - Eigenvalues, the pseudo-inverse, random numbers, reverse-mode
      gradients and the Adam optimizer are capabilities of the backend
      ([Backend]), not code of this module.
    - [infer] runs in a state-and-exception monad over a world made of the
      solver instance ([self]), the store of tensor objects that the caller
      can reach, and the state of the global random generator.  [coeff_0]
      is passed by reference.  So are [data] and [dictionary] in [ISTA] and
      [PyTorchOptimizer], which update [coeff_0] in place: a warm start
      that is the very tensor passed as data is rewritten while the solver
      still reads it.  The other solvers only read their arguments, and
      take [data] and [dictionary] by value.
    - A tensor object carries the two attributes of autograd that decide
      whether an in-place operation on it is allowed, [requires_grad] and
      [is_leaf].  Autograd is in its default mode (gradients enabled), and
      a tensor that is no leaf does not retain its gradient.
    - A Python string is its characters together with whether it is the
      interned object that a literal denotes: [LCA] compares its mode with
      [is]. *)

From Stdlib Require Import ZArith QArith Qcanon Qround Qcabs List String Lia Lqa Bool
  Sorted.
From stdpp Require Import base option list gmap.

Local Open Scope nat_scope.

(** ** The numeric backend: scalars *)

Class Scalar (R : Type) := {
  zero : R;
  one : R;
  add : R -> R -> R;
  sub : R -> R -> R;
  mul : R -> R -> R;
  div : R -> R -> R;
  absR : R -> R;               (* torch.abs *)
  sign : R -> R;               (* torch.sign *)
  sqrt : R -> R;
  ltb : R -> R -> bool;        (* x < y *)
  isnan : R -> bool;           (* torch.isnan *)
  isfinite : R -> bool;        (* torch.isfinite *)
  of_nat : nat -> R;           (* an integer size used in float arithmetic *)
  ceil : R -> Z;               (* np.ceil(x).astype(int) *)
  scalar_eq_dec :: EqDecision R
}.

(** The facts of exact arithmetic that the arithmetic claims rely on.  They
    hold in any ordered field; IEEE arithmetic satisfies them only on finite
    values and up to rounding. *)
Class IdealArith (R : Type) `{Scalar R} : Prop := {
  ltb_asym : forall x y : R, ltb x y = true -> ltb y x = false;
  ltb_trichotomy : forall x y : R, ltb x y = false -> ltb y x = false -> x = y;
  sub_pos_iff : forall x y : R, ltb zero (sub x y) = ltb y x;
  mul_zero_r : forall x : R, mul x zero = zero;
  div_mul_cancel : forall x : R, x <> zero -> mul (div one x) x = one
}.

(** [x <= y], as the negation of [y < x]. *)
Definition leb {R} `{Scalar R} (x y : R) : bool := negb (ltb y x).

(** ** Tensors *)

Record tensor (R : Type) := mkT { shape : list nat; data : list R }.
Arguments mkT {R} shape data.
Arguments shape {R} t.
Arguments data {R} t.

Section Tensors.
Context {R : Type} `{Scalar R}.

Definition numel (sh : list nat) : nat := fold_right Nat.mul 1 sh.

Definition zeros (sh : list nat) : tensor R := mkT sh (repeat zero (numel sh)).
Definition ones (sh : list nat) : tensor R := mkT sh (repeat one (numel sh)).

Definition dim0 (t : tensor R) : nat := nth 0 (shape t) 0.
Definition dim1 (t : tensor R) : nat := nth 1 (shape t) 0.

(** [t[i, j]] of a matrix. *)
Definition get2 (t : tensor R) (i j : nat) : R :=
  nth (i * dim1 t + j) (data t) zero.

(** The [m] by [n] matrix whose entry [(i, j)] is [f i j]. *)
Definition tabulate2 (m n : nat) (f : nat -> nat -> R) : tensor R :=
  mkT [m; n] (flat_map (fun i => map (f i) (seq 0 n)) (seq 0 m)).

(** Row [i] of a matrix, as a list. *)
Definition row (t : tensor R) (i : nat) : list R :=
  map (get2 t i) (seq 0 (dim1 t)).

Definition tmap (f : R -> R) (t : tensor R) : tensor R :=
  mkT (shape t) (map f (data t)).

Definition tzip (f : R -> R -> R) (a b : tensor R) : tensor R :=
  mkT (shape a) (zip_with f (data a) (data b)).

Definition tadd := tzip add.
Definition tsub := tzip sub.
Definition tmul := tzip mul.
Definition tdiv := tzip div.
Definition tabs := tmap absR.
Definition tsign := tmap sign.
(** [c * t] for a Python or zero-dimensional scalar [c]. *)
Definition smul (c : R) := tmap (mul c).

Definition sum_list (l : list R) : R := fold_left add l zero.

(** [a.t()] *)
Definition transpose (a : tensor R) : tensor R :=
  tabulate2 (dim1 a) (dim0 a) (fun i j => get2 a j i).

(** [torch.mm(a, b)], also written [a @ b] *)
Definition mm (a b : tensor R) : tensor R :=
  tabulate2 (dim0 a) (dim1 b)
    (fun i j => sum_list (map (fun k => mul (get2 a i k) (get2 b k j)) (seq 0 (dim1 a)))).

(** [torch.eye(n)] *)
Definition eye (n : nat) : tensor R :=
  tabulate2 n n (fun i j => if Nat.eqb i j then one else zero).

(** [torch.linalg.norm(t)]: the Frobenius norm. *)
Definition norm (t : tensor R) : R :=
  sqrt (sum_list (map (fun x => mul x x) (data t))).

(** [torch.mean(t)] *)
Definition mean (t : tensor R) : R :=
  div (sum_list (data t)) (of_nat (length (data t))).

(** [x.clamp(min=m)]; a NaN entry stays NaN. *)
Definition clamp_min (m : R) (x : R) : R := if ltb x m then m else x.

(** [torch.isnan(t).any()] *)
Definition any_isnan (t : tensor R) : bool := existsb isnan (data t).

(** [t.unsqueeze(1)] of a matrix. *)
Definition unsqueeze1 (t : tensor R) : tensor R :=
  mkT [dim0 t; 1; dim1 t] (data t).

(** [torch.concat([a, b], dim=1)] of two rank-3 tensors: for each index of
    the first dimension, the block of [a] followed by the block of [b]. *)
Definition concat1 (a b : tensor R) : tensor R :=
  let ka := nth 1 (shape a) 0 in
  let kb := nth 1 (shape b) 0 in
  let n := nth 2 (shape a) 0 in
  mkT [dim0 a; ka + kb; n]
    (flat_map (fun i => take (ka * n) (drop (i * (ka * n)) (data a))
                        ++ take (kb * n) (drop (i * (kb * n)) (data b)))
              (seq 0 (dim0 a))).

(** [torch.squeeze(t)]: every dimension of size one is removed. *)
Definition squeeze (t : tensor R) : tensor R :=
  mkT (filter (fun d => d <> 1) (shape t)) (data t).

(** [t.clone()] copies the storage; on values it is the identity. *)
Definition clone (t : tensor R) : tensor R := t.

(** [data[i:i+1, :]] *)
Definition slice_row (t : tensor R) (i : nat) : tensor R :=
  tabulate2 1 (dim1 t) (fun _ j => get2 t i j).

(** [coefficients[i, :] = coeff] for a one-row [coeff]. *)
Definition set_row (t : tensor R) (i : nat) (coeff : tensor R) : tensor R :=
  tabulate2 (dim0 t) (dim1 t)
    (fun i' j => if Nat.eqb i' i then nth j (data coeff) zero else get2 t i' j).

(** [coeff[0, idxs] = vals] for a one-row [coeff]: the writes happen in
    order, so that the last write to an index wins. *)
Definition index_put0 (coeff : tensor R) (idxs : list nat) (vals : list R) : tensor R :=
  mkT (shape coeff)
      (fold_left (fun d iv => <[fst iv := snd iv]> d) (zip idxs vals) (data coeff)).

(** [t[0, idxs]] *)
Definition gather0 (t : tensor R) (idxs : list nat) : list R :=
  map (get2 t 0) idxs.

(** [dictionary[:, idxs]] *)
Definition gather_cols (t : tensor R) (idxs : list nat) : tensor R :=
  tabulate2 (dim0 t) (length idxs) (fun i j => get2 t i (nth j idxs 0)).

(** [torch.norm(t, p=2, dim=0, keepdim=True)]: the norm of each column. *)
Definition norm_dim0 (t : tensor R) : tensor R :=
  tabulate2 1 (dim1 t)
    (fun _ j => sqrt (sum_list (map (fun i => mul (get2 t i j) (get2 t i j)) (seq 0 (dim0 t))))).

(** [torch.norm(t, p=2, dim=1, keepdim=True)]: the norm of each row. *)
Definition norm_dim1 (t : tensor R) : tensor R :=
  tabulate2 (dim0 t) 1
    (fun i _ => sqrt (sum_list (map (fun x => mul x x) (row t i)))).

(** [torch.sum(t, 1, keepdim=True)] *)
Definition sum_dim1 (t : tensor R) : tensor R :=
  tabulate2 (dim0 t) 1 (fun i _ => sum_list (row t i)).

(** The backend orders NaN above every number, and among equal entries
    the one of lower index first. *)
Definition gt_or_nan (x y : R) : bool :=
  (isnan x && negb (isnan y)) || ltb y x.

(** [torch.argmax(t)]: the index of the first maximal entry. *)
Fixpoint argmax_from (i best : nat) (bv : R) (l : list R) : nat :=
  match l with
  | [] => best
  | x :: l' => if gt_or_nan x bv then argmax_from (S i) i x l'
               else argmax_from (S i) best bv l'
  end.

Definition argmax (l : list R) : nat :=
  match l with
  | [] => 0
  | x :: l' => argmax_from 1 0 x l'
  end.

(** [torch.sort(t, descending=True)] on one row, index part: insertion
    into a list kept in descending order, equal keys in input order. *)
Fixpoint insert_desc (iv : nat * R) (l : list (nat * R)) : list (nat * R) :=
  match l with
  | [] => [iv]
  | jw :: l' => if gt_or_nan (snd iv) (snd jw) then iv :: jw :: l'
                else jw :: insert_desc iv l'
  end.

Definition argsort_desc (l : list R) : list nat :=
  map fst (fold_right insert_desc [] (zip (seq 0 (length l)) l)).

(** Python's [l[0:K]]: a negative stop counts from the end. *)
Definition py_slice_to {A} (K : Z) (l : list A) : list A :=
  if (K <? 0)%Z then take (length l - Z.to_nat (- K)) l
  else take (Z.to_nat K) l.

(** The number of entries of a row that are not zero. *)
Definition count_nonzero (l : list R) : nat :=
  length (filter (fun x => x <> zero) l).

End Tensors.

(** ** The numeric backend: linear algebra, randomness, differentiation *)

(** A gradient-based optimizer, as [torch.optim] provides them: building it
    on a parameter gives its initial state, and [step] maps the state, the
    parameter and its gradient to the updated parameter and state. *)
Record optimizer (R : Type) := mkOptimizer {
  opt_state : Type;
  opt_init : tensor R -> opt_state;
  opt_step : opt_state -> tensor R -> tensor R -> tensor R * opt_state
}.
Arguments opt_state {R} o.
Arguments opt_init {R} o p.
Arguments opt_step {R} o st p g.

Class Backend (R : Type) `{Scalar R} := {
  (** [torch.linalg.eigvalsh]: the eigenvalues of a symmetric matrix, in
      ascending order *)
  eigvalsh : tensor R -> list R;
  (** [torch.linalg.pinv] *)
  pinv : tensor R -> tensor R;
  (** the global random generator, and [torch.rand]: [n] draws from it *)
  rng_state : Type;
  rand : rng_state -> nat -> list R * rng_state;
  (** [loss.backward(upstream)]: the gradient at a point of a loss, seen as
      a function of the coefficients, weighted by [upstream] *)
  backward : (tensor R -> tensor R) -> tensor R -> tensor R -> tensor R;
  (** [torch.optim.Adam] with its default settings *)
  Adam : optimizer R
}.

(** ** Exceptions, the object store and the monad of [infer] *)

Inductive exn :=
| ValueError (msg : string)
| IndexError
| AttributeError
| RuntimeError
| InvalidReference.   (* a reference to no object: not reachable from Python *)

Inductive result (A : Type) :=
| Ok (a : A)
| Raise (e : exn).
Arguments Ok {A} a.
Arguments Raise {A} e.

(** A tensor object: where it lives, its autograd attributes and its
    contents.  A tensor that the user creates is a leaf; the result of an
    operation on a tensor that requires grad requires grad and is no
    leaf. *)
Record obj (R : Type) := mkTensorObj {
  device : nat;
  requires_grad : bool;
  is_leaf : bool;
  value : tensor R
}.
Arguments mkTensorObj {R} device requires_grad is_leaf value.
Arguments device {R} o.
Arguments requires_grad {R} o.
Arguments is_leaf {R} o.
Arguments value {R} o.

(** A leaf, as [torch.tensor] and [torch.zeros] create them. *)
Abbreviation mkObj d g v := (mkTensorObj d g true v).

(** The tensor that an operation returns on the device [dev]: it requires
    grad when an operand does ([g]), and then it is no leaf. *)
Definition computed {R : Type} (dev : nat) (g : bool) (v : tensor R) : obj R :=
  mkTensorObj dev g (negb g) v.

(** An in-place operation on a leaf that requires grad is refused. *)
Definition locked {R : Type} (o : obj R) : bool := is_leaf o && requires_grad o.

Abbreviation loc := nat (only parsing).

Record world (R G S : Type) := mkWorld {
  w_self : S;
  w_heap : gmap loc (obj R);
  w_rng : G
}.
Arguments mkWorld {R G S} w_self w_heap w_rng.
Arguments w_self {R G S} w.
Arguments w_heap {R G S} w.
Arguments w_rng {R G S} w.

Definition M (R G S A : Type) : Type := world R G S -> result (A * world R G S).

Section Monad.
Context {R G S : Type}.

Definition ret {A} (a : A) : M R G S A := fun w => Ok (a, w).

Definition bind {A B} (m : M R G S A) (k : A -> M R G S B) : M R G S B :=
  fun w => match m w with
           | Ok (a, w') => k a w'
           | Raise e => Raise e
           end.

Definition raise {A} (e : exn) : M R G S A := fun _ => Raise e.

(** Reading and writing attributes of [self]. *)
Definition get_self : M R G S S := fun w => Ok (w_self w, w).
Definition set_self (s : S) : M R G S unit :=
  fun w => Ok (tt, mkWorld s (w_heap w) (w_rng w)).

(** A new tensor object. *)
Definition alloc (o : obj R) : M R G S loc :=
  fun w => let l := fresh (dom (w_heap w)) in
           Ok (l, mkWorld (w_self w) (<[l := o]> (w_heap w)) (w_rng w)).

Definition read_obj (l : loc) : M R G S (obj R) :=
  fun w => match w_heap w !! l with
           | Some o => Ok (o, w)
           | None => Raise InvalidReference
           end.

(** The contents of a tensor object. *)
Definition read (l : loc) : M R G S (tensor R) :=
  fun w => match w_heap w !! l with
           | Some o => Ok (value o, w)
           | None => Raise InvalidReference
           end.

(** Whether a tensor object requires grad. *)
Definition grad_of (l : loc) : M R G S bool :=
  fun w => match w_heap w !! l with
           | Some o => Ok (requires_grad o, w)
           | None => Raise InvalidReference
           end.

(** An in-place operation of autograd on a tensor object, as [u -= x]:
    raises [RuntimeError] on a leaf that requires grad; otherwise the
    contents change, and when the operand [x] requires grad ([g]) the
    object does from then on, and is no leaf. *)
Definition update (l : loc) (g : bool) (f : tensor R -> tensor R) : M R G S unit :=
  fun w => match w_heap w !! l with
           | Some o =>
               if locked o then Raise RuntimeError
               else
                 Ok (tt, mkWorld (w_self w)
                           (<[l := mkTensorObj (device o) (requires_grad o || g)
                                     (is_leaf o && negb g) (f (value o))]> (w_heap w))
                           (w_rng w))
           | None => Raise InvalidReference
           end.

(** A write to the storage of a tensor object outside autograd, as
    [optimizer.step()] does it: the attributes stay. *)
Definition write (l : loc) (f : tensor R -> tensor R) : M R G S unit :=
  fun w => match w_heap w !! l with
           | Some o =>
               Ok (tt, mkWorld (w_self w)
                         (<[l := mkTensorObj (device o) (requires_grad o) (is_leaf o)
                                   (f (value o))]> (w_heap w))
                         (w_rng w))
           | None => Raise InvalidReference
           end.

(** [t.requires_grad_(b)]: sets the flag of the object and returns the
    object itself; only a leaf can be told not to require grad. *)
Definition requires_grad_ (l : loc) (b : bool) : M R G S loc :=
  fun w => match w_heap w !! l with
           | Some o =>
               if negb (is_leaf o) && negb b then Raise RuntimeError
               else
                 Ok (l, mkWorld (w_self w)
                          (<[l := mkTensorObj (device o) b (is_leaf o) (value o)]>
                             (w_heap w))
                          (w_rng w))
           | None => Raise InvalidReference
           end.

(** [t.to(device)]: the object itself when it already lives on [device],
    a copy there otherwise. *)
Definition to_device (l : loc) (dev : nat) : M R G S loc :=
  fun w => match w_heap w !! l with
           | Some o =>
               if Nat.eqb (device o) dev then Ok (l, w)
               else alloc (computed dev (requires_grad o) (value o)) w
           | None => Raise InvalidReference
           end.

(** A computation that neither reads nor writes the world. *)
Definition lift {A} (r : result A) : M R G S A :=
  fun w => match r with
           | Ok a => Ok (a, w)
           | Raise e => Raise e
           end.
End Monad.

Notation "'let*' x ':=' m 'in' k" := (bind m (fun x => k))
  (at level 10, x name, m at level 100, k at level 200, only parsing).
Notation "'run' m 'in' k" := (bind m (fun _ => k))
  (at level 10, m at level 100, k at level 200, only parsing).

(** ** Python strings

    [==] and [in] compare the characters of two strings, [is] compares the
    objects.  The literals of a program that look like identifiers are
    interned: equal literals are one object.  A string built at run time
    (read from a file, say) is an object of its own. *)

Record pystr := mkStr {
  chars : string;
  interned : bool
}.

(** The object that a literal denotes. *)
Definition literal (s : string) : pystr := mkStr s true.

(** [s is 'lit'] *)
Definition py_is (s : pystr) (lit : string) : bool :=
  interned s && String.eqb (chars s) lit.

(** ** InferenceMethod *)

Module InferenceMethod.
Section Defs.
Context {R : Type} `{Scalar R}.

Definition nan_message (name : string) : string :=
  ("InferenceMethod error: nan in " ++ name ++ ".")%string.

(** [checknan(data, name)] *)
Definition checknan (data : tensor R) (name : string) : result unit :=
  if any_isnan data then Raise (ValueError (nan_message name))
  else Ok tt.
End Defs.
End InferenceMethod.

(** ** LCA *)

Module LCA.
Section Defs.
Context {R : Type} `{Backend R}.

(** The attributes of an instance.  [n_iter] is a count; [solver] is kept
    as an opaque tag. *)
Record t := mk {
  solver : option string;
  threshold : R;
  coeff_lr : R;
  stop_early : bool;
  epsilon : R;
  n_iter : nat;
  return_all_coefficients : pystr
}.

Definition valid_modes : list string := ["none"; "membrane"; "active"]%string.

Definition invalid_mode_message : string :=
  "Invalid input for return_all_coefficients. Valid inputs are: 'none', 'membrane', 'active'."%string.

Definition __init__ (n_iter : nat) (coeff_lr threshold : R) (stop_early : bool)
    (epsilon : R) (solver : option string) (return_all_coefficients : pystr) : result t :=
  if negb (existsb (String.eqb (chars return_all_coefficients)) valid_modes)
  then Raise (ValueError invalid_mode_message)
  else Ok (mk solver threshold coeff_lr stop_early epsilon n_iter return_all_coefficients).

Definition threshold_nonlinearity (self : t) (u : tensor R) : tensor R :=
  let a := tmap (clamp_min zero) (tmap (fun x => sub x (threshold self)) (tabs u)) in
  let a := tmul (tsign u) a in
  a.

Definition grad (b G u a : tensor R) : tensor R :=
  let du := tsub (tsub b u) (transpose (mm G (transpose a))) in
  du.

(** [self.return_all_coefficients is 'm']: [infer] compares the mode with
    [is], where [__init__] has checked it with [in]. *)
Definition mode_is (self : t) (m : string) : bool :=
  py_is (return_all_coefficients self) m.

(** The loop of [infer], from the state before an iteration, with [n]
    iterations left.  It returns the membrane potentials and the log. *)
Fixpoint loop (self : t) (b G : tensor R) (use_checknan : bool) (n : nat)
    (u coefficients : tensor R) : result (tensor R * tensor R) :=
  match n with
  | 0 => Ok (u, coefficients)
  | S n' =>
      let old_u := clone u in
      let coefficients :=
        if negb (mode_is self "none") then
          if mode_is self "active"
          then concat1 coefficients (unsqueeze1 (clone (threshold_nonlinearity self u)))
          else concat1 coefficients (unsqueeze1 (clone u))
        else coefficients in
      let a := threshold_nonlinearity self u in
      let du := grad b G u a in
      let u := tadd u (smul (coeff_lr self) du) in
      if stop_early self
         && ltb (div (norm (tsub old_u u)) (norm old_u)) (epsilon self)
      then Ok (u, coefficients)
      else
        match (if use_checknan then InferenceMethod.checknan u "coefficients"
               else Ok tt) with
        | Raise e => Raise e
        | Ok _ => loop self b G use_checknan n' u coefficients
        end
  end.

Definition infer (data dictionary : obj R) (coeff_0 : option loc)
    (use_checknan : bool) : M R rng_state t (tensor R) :=
  let* self := get_self in
  let batch_size := dim0 (value data) in
  let n_basis := dim1 (value dictionary) in
  let dev := device dictionary in
  let* u := match coeff_0 with
            | Some c => let* c' := to_device c dev in read c'
            | None => ret (zeros [batch_size; n_basis])
            end in
  let coefficients := zeros [batch_size; 0; n_basis] in
  let b := transpose (mm (transpose (value dictionary)) (transpose (value data))) in
  let G := tsub (mm (transpose (value dictionary)) (value dictionary)) (eye n_basis) in
  let* uc := lift (loop self b G use_checknan (n_iter self) u coefficients) in
  let u := fst uc in
  let coefficients := snd uc in
  let coefficients :=
    if mode_is self "membrane"
    then concat1 coefficients (unsqueeze1 (clone u))
    else
      let final_coefficients := threshold_nonlinearity self u in
      concat1 coefficients (unsqueeze1 (clone final_coefficients)) in
  ret (squeeze coefficients).
End Defs.
Arguments t R : clear implicits.
End LCA.

(** ** Vanilla *)

Module Vanilla.
Section Defs.
Context {R : Type} `{Backend R}.

Record t := mk {
  solver : option string;
  coeff_lr : R;
  sparsity_penalty : R;
  stop_early : bool;
  epsilon : R;
  n_iter : nat;
  return_all_coefficients : bool
}.

Definition __init__ (n_iter : nat) (coeff_lr sparsity_penalty : R) (stop_early : bool)
    (epsilon : R) (solver : option string) (return_all_coefficients : bool) : result t :=
  Ok (mk solver coeff_lr sparsity_penalty stop_early epsilon n_iter return_all_coefficients).

Definition grad (self : t) (residual dictionary a : tensor R) : tensor R :=
  let da := tsub (transpose (mm (transpose dictionary) (transpose residual)))
                 (smul (sparsity_penalty self) (tsign a)) in
  da.

Definition residual_of (data dictionary a : tensor R) : tensor R :=
  tsub data (transpose (mm dictionary (transpose a))).

Fixpoint loop (self : t) (data dictionary : tensor R) (use_checknan : bool) (n : nat)
    (a residual coefficients : tensor R) : result (tensor R * tensor R) :=
  match n with
  | 0 => Ok (a, coefficients)
  | S n' =>
      let coefficients :=
        if return_all_coefficients self
        then concat1 coefficients (unsqueeze1 (clone a))
        else coefficients in
      let old_a := clone a in
      let da := grad self residual dictionary a in
      let a := tadd a (smul (coeff_lr self) da) in
      if stop_early self
         && ltb (div (norm (tsub old_a a)) (norm old_a)) (epsilon self)
      then Ok (a, coefficients)
      else
        let residual := residual_of data dictionary a in
        match (if use_checknan then InferenceMethod.checknan a "coefficients"
               else Ok tt) with
        | Raise e => Raise e
        | Ok _ => loop self data dictionary use_checknan n' a residual coefficients
        end
  end.

(** [torch.rand(shape)]: draws from the global generator, which moves on. *)
Definition torch_rand {S} (sh : list nat) : M R rng_state S (tensor R) :=
  fun w => let xg := rand (w_rng w) (numel sh) in
           Ok (mkT sh (fst xg), mkWorld (w_self w) (w_heap w) (snd xg)).

Definition half : R := div one (add one one).

Definition infer (data dictionary : obj R) (coeff_0 : option loc)
    (use_checknan : bool) : M R rng_state t (tensor R) :=
  let* self := get_self in
  let batch_size := dim0 (value data) in
  let n_basis := dim1 (value dictionary) in
  let dev := device dictionary in
  let* a := match coeff_0 with
            | Some c => let* c' := to_device c dev in read c'
            | None => let* r := torch_rand [batch_size; n_basis] in
                      ret (tmap (fun x => sub x half) r)
            end in
  let coefficients := zeros [batch_size; 0; n_basis] in
  let residual := residual_of (value data) (value dictionary) a in
  let* ac := lift (loop self (value data) (value dictionary) use_checknan
                     (n_iter self) a residual coefficients) in
  let a := fst ac in
  let coefficients := snd ac in
  let coefficients := concat1 coefficients (unsqueeze1 (clone a)) in
  ret (squeeze coefficients).
End Defs.
Arguments t R : clear implicits.
End Vanilla.

(** ** ISTA *)

Module ISTA.
Section Defs.
Context {R : Type} `{Backend R}.

(** [threshold] does not exist before the first call of [infer];
    [coefficients] is [None] until then. *)
Record t := mk {
  solver : option string;
  n_iter : nat;
  sparsity_penalty : R;
  stop_early : bool;
  epsilon : R;
  coefficients : option loc;
  return_all_coefficients : bool;
  threshold : option R
}.

Definition __init__ (n_iter : nat) (sparsity_penalty : R) (stop_early : bool)
    (epsilon : R) (solver : option string) (return_all_coefficients : bool) : result t :=
  Ok (mk solver n_iter sparsity_penalty stop_early epsilon None
         return_all_coefficients None).

Definition set_threshold (self : t) (th : R) : t :=
  mk (solver self) (n_iter self) (sparsity_penalty self) (stop_early self)
     (epsilon self) (coefficients self) (return_all_coefficients self) (Some th).

Definition set_coefficients (self : t) (c : loc) : t :=
  mk (solver self) (n_iter self) (sparsity_penalty self) (stop_early self)
     (epsilon self) (Some c) (return_all_coefficients self) (threshold self).

Definition soft_threshold (th : R) (u : tensor R) : tensor R :=
  let a := tmap (clamp_min zero) (tmap (fun x => sub x th) (tabs u)) in
  let a := tmul (tsign u) a in
  a.

Definition threshold_nonlinearity (self : t) (u : tensor R) : result (tensor R) :=
  match threshold self with
  | None => Raise AttributeError
  | Some th => Ok (soft_threshold th u)
  end.

(** [self.threshold_nonlinearity(u)] for a tensor object [u]: a new tensor. *)
Definition apply_threshold (u : loc) : M R rng_state t (tensor R) :=
  let* self := get_self in
  let* uv := read u in
  lift (threshold_nonlinearity self uv).

(** [self.coefficients = ...] *)
Definition assign_coefficients (c : loc) : M R rng_state t unit :=
  let* self := get_self in
  set_self (set_coefficients self c).

(** The tensor object that [self.coefficients] names. *)
Definition self_coefficients : M R rng_state t loc :=
  let* self := get_self in
  match coefficients self with
  | Some c => ret c
  | None => raise AttributeError
  end.

(** [torch.linalg.eigvalsh(torch.mm(dictionary.T, dictionary))[-1]] *)
Definition lipschitz_constant (dictionary : tensor R) : result R :=
  match last (eigvalsh (mm (transpose dictionary) dictionary)) with
  | Some x => Ok x
  | None => Raise IndexError
  end.

Definition stepsize_of (lipschitz : R) : R := div one lipschitz.

Definition residual_of (data dictionary a : tensor R) : tensor R :=
  tsub (transpose (mm dictionary (transpose a))) data.

(** The loop of [infer].  [gs] tells whether the step size requires grad
    (it is computed from the dictionary), [gr] whether the residual
    does. *)
Fixpoint loop (data dictionary : loc) (dev : nat) (stepsize : R) (gs : bool)
    (use_checknan : bool) (n : nat) (u : loc) (residual : tensor R) (gr : bool)
    (coefficients : tensor R) : M R rng_state t (tensor R) :=
  match n with
  | 0 => ret coefficients
  | S n' =>
      let* self := get_self in
      let* old_u := read u in
      let* coefficients :=
        (if return_all_coefficients self
         then let* a := apply_threshold u in
              ret (concat1 coefficients (unsqueeze1 (clone a)))
         else ret coefficients) in
      (* u -= stepsize * torch.mm(residual, dictionary) *)
      let* d := read_obj dictionary in
      run update u (gs || gr || requires_grad d)
            (fun uv => tsub uv (smul stepsize (mm residual (value d)))) in
      let* a := apply_threshold u in
      let* gu := grad_of u in
      let* al := alloc (computed dev (gu || gs) a) in
      run assign_coefficients al in
      let* uv := read u in
      let a_change := mean (tmap (fun x => div x stepsize) (tabs (tsub old_u uv))) in
      if stop_early self && ltb a_change (epsilon self)
      then ret coefficients
      else
        let* sc := self_coefficients in
        let* sco := read_obj sc in
        let* d := read_obj dictionary in
        let* x := read_obj data in
        let residual := residual_of (value x) (value d) (value sco) in
        let gr := requires_grad d || requires_grad sco || requires_grad x in
        let u := sc in
        run (if use_checknan
             then let* uv := read u in
                  lift (InferenceMethod.checknan uv "coefficients")
             else ret tt) in
        loop data dictionary dev stepsize gs use_checknan n' u residual gr coefficients
  end.

Definition infer (data dictionary : loc) (coeff_0 : option loc)
    (use_checknan : bool) : M R rng_state t (tensor R) :=
  let* x := read_obj data in
  let* d := read_obj dictionary in
  let batch_size := dim0 (value x) in
  let n_basis := dim1 (value d) in
  let dev := device d in
  let* lipschitz := lift (lipschitz_constant (value d)) in
  let stepsize := stepsize_of lipschitz in
  let gs := requires_grad d in
  let* self := get_self in
  run set_self (set_threshold self (mul stepsize (sparsity_penalty self))) in
  let* u := match coeff_0 with
            | Some c => to_device c dev
            | None => alloc (mkObj dev false (zeros [batch_size; n_basis]))
            end in
  let coefficients := zeros [batch_size; 0; n_basis] in
  let* a := apply_threshold u in
  let* gu := grad_of u in
  let* al := alloc (computed dev (gu || gs) a) in
  run assign_coefficients al in
  let* sc := self_coefficients in
  let* sco := read_obj sc in
  let residual := residual_of (value x) (value d) (value sco) in
  let gr := requires_grad d || requires_grad sco || requires_grad x in
  let* coefficients :=
    loop data dictionary dev stepsize gs use_checknan
         (n_iter self) u residual gr coefficients in
  let* sc := self_coefficients in
  let* scv := read sc in
  let coefficients := concat1 coefficients (unsqueeze1 (clone scv)) in
  ret (squeeze coefficients).
End Defs.
Arguments t R : clear implicits.
End ISTA.

(** ** LSM *)

Module LSM.
Section Defs.
Context {R : Type} `{Backend R}.

Record t := mk {
  solver : option string;
  n_iter : nat;
  n_iter_LSM : nat;
  beta : R;
  alpha : R;
  sigma : R;
  sparse_threshold : R;
  return_all_coefficients : bool
}.

Definition __init__ (n_iter n_iter_LSM : nat) (beta alpha sigma sparse_threshold : R)
    (solver : option string) (return_all_coefficients : bool) : result t :=
  Ok (mk solver n_iter n_iter_LSM beta alpha sigma sparse_threshold
         return_all_coefficients).

Definition two : R := add one one.

Definition lsm_Loss (data dictionary coefficients lambdas : tensor R) (sigma : R)
    : tensor R :=
  let mse_loss :=
    smul (div one (mul two (mul sigma sigma)))
         (tmap (fun x => mul x x)
               (norm_dim1 (tsub data (transpose (mm dictionary (transpose coefficients)))))) in
  let sparse_loss := sum_dim1 (tmul lambdas (tabs coefficients)) in
  let loss := tadd mse_loss sparse_loss in
  loss.

(** The inner loop: [n] steps of the optimizer on the loss. *)
Fixpoint inner (loss : tensor R -> tensor R) (batch_size : nat) (n : nat)
    (coefficients : tensor R) (st : opt_state Adam) : tensor R :=
  match n with
  | 0 => coefficients
  | S n' =>
      let g := backward loss coefficients (ones [batch_size; 1]) in
      let ps := opt_step Adam st coefficients g in
      inner loss batch_size n' (fst ps) (snd ps)
  end.

Fixpoint outer (self : t) (data dictionary : tensor R) (batch_size n_basis : nat)
    (n : nat) (coefficients : tensor R) : tensor R :=
  match n with
  | 0 => coefficients
  | S n' =>
      let lambdas :=
        tmap (fun c => div (add (alpha self) one) (add (beta self) (absR c)))
             coefficients in
      let coefficients := zeros [batch_size; n_basis] in
      let st := opt_init Adam coefficients in
      let coefficients :=
        inner (fun c => lsm_Loss data dictionary c lambdas (sigma self))
              batch_size (n_iter self) coefficients st in
      outer self data dictionary batch_size n_basis n' coefficients
  end.

Definition infer (data dictionary : obj R) : M R rng_state t (tensor R) :=
  let* self := get_self in
  let batch_size := dim0 (value data) in
  let n_basis := dim1 (value dictionary) in
  let coefficients := zeros [batch_size; n_basis] in
  let coefficients :=
    outer self (value data) (value dictionary) batch_size n_basis
          (n_iter_LSM self) coefficients in
  let coefficients :=
    tmap (fun c => if ltb (absR c) (sparse_threshold self) then zero else c)
         coefficients in
  ret coefficients.
End Defs.
Arguments t R : clear implicits.
End LSM.

(** ** PyTorchOptimizer *)

Module PyTorchOptimizer.
Section Defs.
Context {R : Type} `{Backend R}.

(** [loss_f] takes the data, the dictionary and the coefficients. *)
Record t := mk {
  solver : option string;
  optimizer_f : optimizer R;
  loss_f : tensor R -> tensor R -> tensor R -> tensor R;
  n_iter : nat
}.

Definition __init__ (optimizer_f : optimizer R)
    (loss_f : tensor R -> tensor R -> tensor R -> tensor R)
    (n_iter : nat) (solver : option string) : result t :=
  Ok (mk solver optimizer_f loss_f n_iter).

Definition non_leaf_message : string := "can't optimize a non-leaf Tensor"%string.

(** The loss of a step, as a function of the coefficients: [loss_f(data,
    dictionary, coefficients)], where an argument that is the tensor of the
    coefficients itself varies with them. *)
Definition loss_of (self : t) (alias_data alias_dict : bool)
    (x d : tensor R) : tensor R -> tensor R :=
  fun c => loss_f self (if alias_data then c else x)
                       (if alias_dict then c else d) c.

(** Each step reads the arguments, differentiates the loss at the parameter
    and lets the optimizer overwrite the parameter in place. *)
Fixpoint loop (opt : optimizer R) (batch_size : nat) (n : nat)
    (data dictionary coefficients : loc) (st : opt_state opt)
    : M R rng_state t unit :=
  match n with
  | 0 => ret tt
  | S n' =>
      let* self := get_self in
      let* x := read data in
      let* d := read dictionary in
      let* c := read coefficients in
      let loss := loss_of self (Nat.eqb data coefficients)
                    (Nat.eqb dictionary coefficients) x d in
      let g := backward loss c (ones [batch_size]) in
      let ps := opt_step opt st c g in
      run write coefficients (fun _ => fst ps) in
      loop opt batch_size n' data dictionary coefficients (snd ps)
  end.

(** The optimizers of [torch.optim] raise [ValueError] on a parameter that
    is no leaf.  The result is [coefficients.detach()], a tensor on the
    storage of [coefficients]: the same location. *)
Definition infer (data dictionary : loc) (coeff_0 : option loc)
    : M R rng_state t loc :=
  let* self := get_self in
  let* x := read_obj data in
  let* d := read_obj dictionary in
  let batch_size := dim0 (value x) in
  let n_basis := dim1 (value d) in
  let dev := device d in
  let* coefficients :=
    match coeff_0 with
    | Some c => requires_grad_ c true
    | None => alloc (mkObj dev true (zeros [batch_size; n_basis]))
    end in
  let* co := read_obj coefficients in
  run (if is_leaf co then ret tt else raise (ValueError non_leaf_message)) in
  let opt := optimizer_f self in
  let st := opt_init opt (value co) in
  run loop opt batch_size (n_iter self) data dictionary coefficients st in
  ret coefficients.
End Defs.
Arguments t R : clear implicits.
End PyTorchOptimizer.

(** ** IHT *)

(** [f] applied [n] times: a [for] loop over [range(n)] whose body does not
    use the index. *)
Fixpoint iterate {A} (n : nat) (f : A -> A) (x : A) : A :=
  match n with
  | 0 => x
  | S n' => iterate n' f (f x)
  end.

Module IHT.
Section Defs.
Context {R : Type} `{Backend R}.

Record t := mk {
  solver : option string;
  n_iter : nat;
  sparsity : R;
  return_all_coefficients : bool
}.

Definition __init__ (sparsity : R) (n_iter : nat) (solver : option string)
    (return_all_coefficients : bool) : result t :=
  Ok (mk solver n_iter sparsity return_all_coefficients).

(** [np.ceil(self.sparsity*n_basis).astype(int)] *)
Definition K (self : t) (n_basis : nat) : Z :=
  ceil (mul (sparsity self) (of_nat n_basis)).

(** One iteration on one sample. *)
Definition step (K : Z) (dictionary y : tensor R) (n_basis : nat) (coeff : tensor R)
    : tensor R :=
  let temp :=
    tadd coeff (mm (tsub y (transpose (mm dictionary (transpose coeff)))) dictionary) in
  let indices := argsort_desc (data (tabs temp)) in
  let coeff := zeros [1; n_basis] in
  let top := py_slice_to K indices in
  index_put0 coeff top (gather0 temp top).

(** The body of the loop over the samples. *)
Definition sample (self : t) (K : Z) (data dictionary : tensor R) (n_basis : nat)
    (coefficients : tensor R) (i : nat) : tensor R :=
  let y := clone (slice_row data i) in
  let coeff := zeros [1; n_basis] in
  let coeff := iterate (n_iter self) (step K dictionary y n_basis) coeff in
  set_row coefficients i coeff.

Definition infer (data dictionary : obj R) : M R rng_state t (tensor R) :=
  let* self := get_self in
  let batch_size := dim0 (value data) in
  let n_basis := dim1 (value dictionary) in
  let K := K self n_basis in
  let coefficients := zeros [batch_size; n_basis] in
  let coefficients :=
    fold_left (sample self K (value data) (value dictionary) n_basis)
              (seq 0 batch_size) coefficients in
  ret coefficients.
End Defs.
Arguments t R : clear implicits.
End IHT.

(** ** MP *)

Module MP.
Section Defs.
Context {R : Type} `{Backend R}.

Record t := mk {
  solver : option string;
  sparsity : R;
  return_all_coefficients : bool
}.

Definition __init__ (sparsity : R) (solver : option string)
    (return_all_coefficients : bool) : result t :=
  Ok (mk solver sparsity return_all_coefficients).

Definition K (self : t) (n_basis : nat) : Z :=
  ceil (mul (sparsity self) (of_nat n_basis)).

(** [dictionary[:, ind:ind+1].t()] *)
Definition atom (dictionary : tensor R) (ind : nat) : tensor R :=
  tabulate2 1 (dim0 dictionary) (fun _ k => get2 dictionary k ind).

(** One greedy step on the pair of the residual [y] and the row [coeff]. *)
Definition step (dictionary dictionary_norms : tensor R) (yc : tensor R * tensor R)
    : tensor R * tensor R :=
  let y := fst yc in
  let coeff := snd yc in
  let dp := mm y dictionary in
  let ind := argmax (data (tdiv (tabs dp) dictionary_norms)) in
  let coeff := index_put0 coeff [ind] [get2 dp 0 ind] in
  let y := tsub y (smul (get2 dp 0 ind) (atom dictionary ind)) in
  (y, coeff).

Definition sample (K : Z) (data dictionary dictionary_norms : tensor R) (n_basis : nat)
    (coefficients : tensor R) (i : nat) : tensor R :=
  let y := clone (slice_row data i) in
  let coeff := zeros [1; n_basis] in
  let yc := iterate (Z.to_nat K) (step dictionary dictionary_norms) (y, coeff) in
  set_row coefficients i (snd yc).

Definition infer (data dictionary : obj R) : M R rng_state t (tensor R) :=
  let* self := get_self in
  let batch_size := dim0 (value data) in
  let n_basis := dim1 (value dictionary) in
  let K := K self n_basis in
  let dictionary_norms := norm_dim0 (value dictionary) in
  let coefficients := zeros [batch_size; n_basis] in
  let coefficients :=
    fold_left (sample K (value data) (value dictionary) dictionary_norms n_basis)
              (seq 0 batch_size) coefficients in
  ret coefficients.
End Defs.
Arguments t R : clear implicits.
End MP.

(** ** OMP *)

Module OMP.
Section Defs.
Context {R : Type} `{Backend R}.

Record t := mk {
  solver : option string;
  sparsity : R;
  return_all_coefficients : bool
}.

Definition __init__ (sparsity : R) (solver : option string)
    (return_all_coefficients : bool) : result t :=
  Ok (mk solver sparsity return_all_coefficients).

Definition K (self : t) (n_basis : nat) : Z :=
  ceil (mul (sparsity self) (of_nat n_basis)).

(** The state of the greedy loop on one sample: the residual, the indices
    of the chosen atoms and the row of coefficients. *)
Record state := mkState {
  y_res : tensor R;
  indices : list nat;
  coeff : tensor R
}.

Definition step (dictionary dictionary_norms y : tensor R) (st : state) : state :=
  let dp := mm (y_res st) dictionary in
  let ind := argmax (data (tdiv (tabs dp) dictionary_norms)) in
  let indices := indices st ++ [ind] in
  (* coeff[0,indices] = squeeze(pinv(dictionary[:,indices]) @ y.t()) *)
  let fit := mm (pinv (gather_cols dictionary indices)) (transpose y) in
  let coeff := index_put0 (coeff st) indices (data (squeeze fit)) in
  let y_res := tsub y (transpose (mm dictionary (transpose coeff))) in
  mkState y_res indices coeff.

Definition init_state (y : tensor R) (n_basis : nat) : state :=
  mkState (clone y) [] (zeros [1; n_basis]).

(** The residuals of one sample after 0, 1, ..., [k] steps. *)
Fixpoint residuals (dictionary dictionary_norms y : tensor R) (k : nat) (st : state)
    : list (tensor R) :=
  y_res st ::
  match k with
  | 0 => []
  | S k' => residuals dictionary dictionary_norms y k'
              (step dictionary dictionary_norms y st)
  end.

Definition sample (K : Z) (data dictionary dictionary_norms : tensor R) (n_basis : nat)
    (coefficients : tensor R) (i : nat) : tensor R :=
  let y := clone (slice_row data i) in
  let st := iterate (Z.to_nat K) (step dictionary dictionary_norms y)
              (init_state y n_basis) in
  set_row coefficients i (coeff st).

Definition infer (data dictionary : obj R) : M R rng_state t (tensor R) :=
  let* self := get_self in
  let batch_size := dim0 (value data) in
  let n_basis := dim1 (value dictionary) in
  let K := K self n_basis in
  let dictionary_norms := norm_dim0 (value dictionary) in
  let coefficients := zeros [batch_size; n_basis] in
  let coefficients :=
    fold_left (sample K (value data) (value dictionary) dictionary_norms n_basis)
              (seq 0 batch_size) coefficients in
  ret coefficients.
End Defs.
Arguments t R : clear implicits.
End OMP.

(** ** Two scalar domains *)

(** *** Exact rationals *)

Module Exact.
Local Open Scope Qc_scope.

Definition lt_bool (x y : Qc) : bool :=
  match x ?= y with
  | Lt => true
  | _ => false
  end.

Definition signum (x : Qc) : Qc :=
  if lt_bool 0 x then 1 else if lt_bool x 0 then - (1) else 0.

(** The root of a square of a rational; elsewhere the roots of numerator
    and denominator rounded down. *)
Definition root (x : Qc) : Qc :=
  Q2Qc (Z.sqrt (Qnum x) # Pos.sqrt (Qden x)).

Definition from_nat (n : nat) : Qc := Q2Qc (inject_Z (Z.of_nat n)).

#[global] Instance scalar : Scalar Qc := {|
  zero := 0;
  one := 1;
  add := Qcplus;
  sub := Qcminus;
  mul := Qcmult;
  div := Qcdiv;
  absR := Qcabs;
  sign := signum;
  sqrt := root;
  ltb := lt_bool;
  isnan := fun _ => false;
  isfinite := fun _ => true;
  of_nat := from_nat;
  ceil := fun x => Qceiling x;
  scalar_eq_dec := Qc_eq_dec
|}.
End Exact.

(** *** Rationals with the IEEE special values

    Arithmetic is exact on the finite values and follows IEEE 754 on the
    infinities and on NaN; there is no negative zero. *)

Module Extended.
Local Open Scope Qc_scope.

Inductive xq :=
| Fin (q : Qc)
| Inf (negative : bool)
| NaN.

Definition is_neg (q : Qc) : bool := Exact.lt_bool q 0.
Definition is_zero (q : Qc) : bool := if Qc_eq_dec q 0 then true else false.

Definition xneg (x : xq) : xq :=
  match x with
  | Fin q => Fin (- q)
  | Inf s => Inf (negb s)
  | NaN => NaN
  end.

Definition xadd (x y : xq) : xq :=
  match x, y with
  | NaN, _ | _, NaN => NaN
  | Fin p, Fin q => Fin (p + q)
  | Inf s, Fin _ | Fin _, Inf s => Inf s
  | Inf s, Inf s' => if Bool.eqb s s' then Inf s else NaN
  end.

Definition xsub (x y : xq) : xq := xadd x (xneg y).

Definition xmul (x y : xq) : xq :=
  match x, y with
  | NaN, _ | _, NaN => NaN
  | Fin p, Fin q => Fin (p * q)
  | Inf s, Fin q | Fin q, Inf s =>
      if is_zero q then NaN else Inf (xorb s (is_neg q))
  | Inf s, Inf s' => Inf (xorb s s')
  end.

Definition xdiv (x y : xq) : xq :=
  match x, y with
  | NaN, _ | _, NaN => NaN
  | Fin p, Fin q =>
      if is_zero q then (if is_zero p then NaN else Inf (is_neg p))
      else Fin (p / q)
  | Fin _, Inf _ => Fin 0
  | Inf s, Fin q => Inf (xorb s (is_neg q))
  | Inf _, Inf _ => NaN
  end.

Definition xabs (x : xq) : xq :=
  match x with
  | Fin q => Fin (Qcabs q)
  | Inf _ => Inf false
  | NaN => NaN
  end.

Definition xltb (x y : xq) : bool :=
  match x, y with
  | NaN, _ | _, NaN => false
  | Fin p, Fin q => Exact.lt_bool p q
  | Fin _, Inf s => negb s
  | Inf s, Fin _ => s
  | Inf s, Inf s' => s && negb s'
  end.

(** [torch.sign] is [(0 < x) - (x < 0)]: zero on NaN. *)
Definition xsign (x : xq) : xq :=
  match x with
  | Fin q => Fin (Exact.signum q)
  | Inf s => Fin (if s then - (1) else 1)
  | NaN => Fin 0
  end.

Definition xsqrt (x : xq) : xq :=
  match x with
  | Fin q => if is_neg q then NaN else Fin (Exact.root q)
  | Inf s => if s then NaN else Inf false
  | NaN => NaN
  end.

Definition xisnan (x : xq) : bool :=
  match x with NaN => true | _ => false end.

Definition xisfinite (x : xq) : bool :=
  match x with Fin _ => true | _ => false end.

(** On a value that is not finite the conversion yields the least 64-bit
    integer. *)
Definition xceil (x : xq) : Z :=
  match x with
  | Fin q => Qceiling q
  | _ => (- 2 ^ 63)%Z
  end.

#[global] Instance xq_eq_dec : EqDecision xq.
Proof.
  intros x y. unfold Decision.
  decide equality; [apply Qc_eq_dec | apply Bool.bool_dec].
Defined.

#[global] Instance scalar : Scalar xq := {|
  zero := Fin 0;
  one := Fin 1;
  add := xadd;
  sub := xsub;
  mul := xmul;
  div := xdiv;
  absR := xabs;
  sign := xsign;
  sqrt := xsqrt;
  ltb := xltb;
  isnan := xisnan;
  isfinite := xisfinite;
  of_nat := fun n => Fin (Exact.from_nat n);
  ceil := xceil;
  scalar_eq_dec := xq_eq_dec
|}.
End Extended.

(** ** A reference backend

    An executable backend over any scalar domain, for running the solvers
    on concrete inputs.  Each capability is exact on the class of inputs
    named with it and makes no promise outside. *)

Module Reference.
Section Defs.
Context {R : Type} `{Scalar R}.

(** Eigenvalues of a diagonal matrix: its diagonal, in ascending order. *)
Definition eigvalsh_diag (m : tensor R) : list R :=
  let d := map (fun i => get2 m i i) (seq 0 (dim0 m)) in
  reverse (map (fun i => nth i d zero) (argsort_desc d)).

(** Pseudo-inverse of a matrix of rank at most one: the transpose divided
    by the sum of the squares of the entries. *)
Definition pinv_rank1 (a : tensor R) : tensor R :=
  let s := sum_list (map (fun x => mul x x) (data a)) in
  if decide (s = zero) then transpose a
  else tmap (fun x => div x s) (transpose a).

(** A linear congruential generator; a draw is the new state over the
    modulus. *)
Definition lcg_modulus : Z := 65537.
Definition lcg (x : Z) : Z := ((75 * x + 74) mod lcg_modulus)%Z.

Fixpoint draws (x : Z) (n : nat) : list R * Z :=
  match n with
  | 0 => ([], x)
  | S n' =>
      let x' := lcg x in
      let r := draws x' n' in
      (div (of_nat (Z.to_nat x')) (of_nat (Z.to_nat lcg_modulus)) :: fst r, snd r)
  end.

(** Gradients by central differences of step one, which are exact on
    losses that are polynomials of degree at most two. *)
Definition backward_cd (loss : tensor R -> tensor R) (c upstream : tensor R)
    : tensor R :=
  mkT (shape c)
      (map (fun i =>
              let cp := mkT (shape c) (alter (fun x => add x one) i (data c)) in
              let cm := mkT (shape c) (alter (fun x => sub x one) i (data c)) in
              div (sum_list (zip_with mul (data upstream)
                                      (data (tsub (loss cp) (loss cm)))))
                  (add one one))
           (seq 0 (length (data c)))).

Fixpoint pow (x : R) (n : nat) : R :=
  match n with
  | 0 => one
  | S n' => mul x (pow x n')
  end.

(** Adam with learning rate 1e-3, betas 0.9 and 0.999, epsilon 1e-8. *)
Record adam_state := mkAdam {
  adam_t : nat;
  adam_m : list R;
  adam_v : list R
}.

Definition ten : R := of_nat 10.
Definition adam_lr : R := div one (pow ten 3).
Definition adam_beta1 : R := div (of_nat 9) ten.
Definition adam_beta2 : R := div (of_nat 999) (pow ten 3).
Definition adam_eps : R := div one (pow ten 8).

Definition adam_init (p : tensor R) : adam_state :=
  mkAdam 0 (repeat zero (length (data p))) (repeat zero (length (data p))).

Definition adam_step (st : adam_state) (p g : tensor R) : tensor R * adam_state :=
  let t := S (adam_t st) in
  let m := zip_with (fun m gi => add (mul adam_beta1 m) (mul (sub one adam_beta1) gi))
                    (adam_m st) (data g) in
  let v := zip_with (fun v gi => add (mul adam_beta2 v)
                                     (mul (sub one adam_beta2) (mul gi gi)))
                    (adam_v st) (data g) in
  let mhat := map (fun x => div x (sub one (pow adam_beta1 t))) m in
  let vhat := map (fun x => div x (sub one (pow adam_beta2 t))) v in
  let upd := zip_with (fun mh vh => div (mul adam_lr mh) (add (sqrt vh) adam_eps))
                      mhat vhat in
  (mkT (shape p) (zip_with sub (data p) upd), mkAdam t m v).

Definition adam : optimizer R := mkOptimizer R adam_state adam_init adam_step.

#[global] Instance backend : Backend R := {|
  eigvalsh := eigvalsh_diag;
  pinv := pinv_rank1;
  rng_state := Z;
  rand := draws;
  backward := backward_cd;
  Adam := adam
|}.
End Defs.
End Reference.

(** ** Specifications of monadic computations *)

Section Hoare.
Context {R G S : Type}.

(** [wp m E Q w]: run from [w], the computation [m] either returns a value
    and a world that satisfy [Q], or raises an exception that satisfies
    [E]. *)
Definition wp {A} (m : M R G S A) (E : exn -> Prop)
    (Q : A -> world R G S -> Prop) (w : world R G S) : Prop :=
  match m w with
  | Ok (a, w') => Q a w'
  | Raise e => E e
  end.

(** What the caller sees of a run: the value returned or the exception. *)
Definition outcome {A} (r : result (A * world R G S)) : result A :=
  match r with
  | Ok (a, _) => Ok a
  | Raise e => Raise e
  end.
End Hoare.

(** ** Value-level readings of the solvers that work on the store

    What [infer] computes, as a function of the configuration and of the
    contents of its arguments.  The properties section proves that the
    runs on the store return these values. *)

Section Values.
Context {R : Type} `{Backend R}.

Definition lca_infer_v (self : LCA.t R) (data dictionary u0 : tensor R)
    (use_checknan : bool) : result (tensor R) :=
  let batch_size := dim0 data in
  let n_basis := dim1 dictionary in
  let b := transpose (mm (transpose dictionary) (transpose data)) in
  let G := tsub (mm (transpose dictionary) dictionary) (eye n_basis) in
  match LCA.loop self b G use_checknan (LCA.n_iter self) u0
          (zeros [batch_size; 0; n_basis]) with
  | Raise e => Raise e
  | Ok uc =>
      Ok (squeeze
            (if LCA.mode_is self "membrane"
             then concat1 (snd uc) (unsqueeze1 (clone (fst uc)))
             else concat1 (snd uc)
                    (unsqueeze1 (clone (LCA.threshold_nonlinearity self (fst uc))))))
  end.

Definition vanilla_infer_v (self : Vanilla.t R) (data dictionary a0 : tensor R)
    (use_checknan : bool) : result (tensor R) :=
  let batch_size := dim0 data in
  let n_basis := dim1 dictionary in
  match Vanilla.loop self data dictionary use_checknan (Vanilla.n_iter self) a0
          (Vanilla.residual_of data dictionary a0)
          (zeros [batch_size; 0; n_basis]) with
  | Raise e => Raise e
  | Ok ac => Ok (squeeze (concat1 (snd ac) (unsqueeze1 (clone (fst ac)))))
  end.

(** The start of [Vanilla.infer] without a warm start, from the state [g] of
    the random generator. *)
Definition vanilla_start (g : rng_state) (batch_size n_basis : nat) : tensor R :=
  tmap (fun x => sub x Vanilla.half)
       (mkT [batch_size; n_basis] (fst (rand g (numel [batch_size; n_basis])))).

(** The attributes of an [ISTA] instance that [__init__] sets from its
    arguments; [threshold] and [coefficients] are the other two. *)
Definition ista_config (self : ISTA.t R)
    : option string * nat * R * bool * R * bool :=
  (ISTA.solver self, ISTA.n_iter self, ISTA.sparsity_penalty self,
   ISTA.stop_early self, ISTA.epsilon self, ISTA.return_all_coefficients self).

(** The loop of [ISTA.infer] on the contents [u] of the iterate and [sc] of
    [self.coefficients]; it returns the log and the last [sc].  In the
    first iteration the iterate may be the warm start of the caller:
    [lock] tells that the subtraction in place is refused on it,
    [alias_data] and [alias_dict] that it is the very tensor passed as data
    or as dictionary, which the subtraction then rewrites.  From the second
    iteration on the iterate is a tensor of the solver's own. *)
Fixpoint ista_loop_v (return_all stop_early : bool) (epsilon th : R)
    (stepsize : R) (use_checknan : bool) (n : nat)
    (lock alias_data alias_dict : bool)
    (data dictionary u sc residual coefficients : tensor R)
    : result (tensor R * tensor R) :=
  match n with
  | 0 => Ok (coefficients, sc)
  | S n' =>
      let old_u := u in
      let coefficients :=
        if return_all
        then concat1 coefficients (unsqueeze1 (clone (ISTA.soft_threshold th u)))
        else coefficients in
      if lock then Raise RuntimeError
      else
        let u := tsub u (smul stepsize (mm residual dictionary)) in
        let data := if alias_data then u else data in
        let dictionary := if alias_dict then u else dictionary in
        let sc := ISTA.soft_threshold th u in
        let a_change := mean (tmap (fun x => div x stepsize) (tabs (tsub old_u u))) in
        if stop_early && ltb a_change epsilon
        then Ok (coefficients, sc)
        else
          let residual := ISTA.residual_of data dictionary sc in
          match (if use_checknan then InferenceMethod.checknan sc "coefficients"
                 else Ok tt) with
          | Raise e => Raise e
          | Ok _ => ista_loop_v return_all stop_early epsilon th stepsize
                      use_checknan n' false false false data dictionary sc sc
                      residual coefficients
          end
  end.

Definition ista_infer_v (self : ISTA.t R) (data dictionary u0 : tensor R)
    (lock alias_data alias_dict : bool) (use_checknan : bool) : result (tensor R) :=
  match ISTA.lipschitz_constant dictionary with
  | Raise e => Raise e
  | Ok lipschitz =>
      let stepsize := ISTA.stepsize_of lipschitz in
      let th := mul stepsize (ISTA.sparsity_penalty self) in
      let sc := ISTA.soft_threshold th u0 in
      match ista_loop_v (ISTA.return_all_coefficients self) (ISTA.stop_early self)
              (ISTA.epsilon self) th stepsize use_checknan (ISTA.n_iter self)
              lock alias_data alias_dict data dictionary u0 sc
              (ISTA.residual_of data dictionary sc)
              (zeros [dim0 data; 0; dim1 dictionary]) with
      | Raise e => Raise e
      | Ok cs => Ok (squeeze (concat1 (fst cs) (unsqueeze1 (clone (snd cs)))))
      end
  end.

(** What the first iteration of [ISTA.infer] leaves in the iterate. *)
Definition ista_first_update (self : ISTA.t R) (data dictionary u0 : tensor R)
    (lipschitz : R) : tensor R :=
  let stepsize := ISTA.stepsize_of lipschitz in
  let th := mul stepsize (ISTA.sparsity_penalty self) in
  let residual := ISTA.residual_of data dictionary (ISTA.soft_threshold th u0) in
  tsub u0 (smul stepsize (mm residual dictionary)).

(** [n] steps of an optimizer from the parameter [p]. *)
Fixpoint optimize_v (loss : tensor R -> tensor R) (opt : optimizer R)
    (batch_size : nat) (n : nat) (p : tensor R) (st : opt_state opt) : tensor R :=
  match n with
  | 0 => p
  | S n' =>
      let g := backward loss p (ones [batch_size]) in
      let ps := opt_step opt st p g in
      optimize_v loss opt batch_size n' (fst ps) (snd ps)
  end.

(** The last iterate of [PyTorchOptimizer.infer] from the parameter [p0];
    [alias_data] and [alias_dict] tell that the parameter is the very
    tensor passed as data or as dictionary. *)
Definition pto_infer_v (self : PyTorchOptimizer.t R) (alias_data alias_dict : bool)
    (data dictionary p0 : tensor R) : tensor R :=
  let opt := PyTorchOptimizer.optimizer_f self in
  optimize_v (PyTorchOptimizer.loss_of self alias_data alias_dict data dictionary) opt
    (dim0 data) (PyTorchOptimizer.n_iter self) p0 (opt_init opt p0).
End Values.

(** ** Concrete inputs *)

Module Demo.
Definition q (n : Z) (d : positive) : Qc := Q2Qc (n # d).

(** A world with an empty store. *)
Definition world0 {S : Type} (self : S) : world Qc Z S := mkWorld self ∅ 1%Z.

(** A dictionary of three atoms in the plane, the identity of size two and
    a one-by-one dictionary. *)
Definition dict23 : obj Qc :=
  mkObj 0 false (mkT [2; 3] [q 1 1; q 0 1; q 1 2; q 0 1; q 1 1; q 1 2]).
Definition eye2 : obj Qc :=
  mkObj 0 false (mkT [2; 2] [q 1 1; q 0 1; q 0 1; q 1 1]).
Definition dict11 : obj Qc := mkObj 0 false (mkT [1; 1] [q 1 1]).

(** Batches of one and of two samples. *)
Definition data12 : obj Qc := mkObj 0 false (mkT [1; 2] [q 1 1; q 2 1]).
Definition data22 : obj Qc :=
  mkObj 0 false (mkT [2; 2] [q 1 1; q 2 1; q 3 1; q 4 1]).
Definition unit12 : obj Qc := mkObj 0 false (mkT [1; 2] [q 1 1; q 0 1]).
Definition zero11 : obj Qc := mkObj 0 false (mkT [1; 1] [q 0 1]).

Definition lca_none : LCA.t Qc :=
  LCA.mk None (q 1 10) (q 1 10) false (q 1 100) 2 (literal "none").
Definition lca_membrane : LCA.t Qc :=
  LCA.mk None (q 1 10) (q 1 10) false (q 1 100) 0 (literal "membrane").
Definition vanilla_plain : Vanilla.t Qc :=
  Vanilla.mk None (q 1 10) (q 1 5) false (q 1 100) 2 false.
Definition ista_plain : ISTA.t Qc :=
  ISTA.mk None 2 (q 1 100) false (q 1 100) None false None.
Definition iht_half : IHT.t Qc := IHT.mk None 3 (q 1 2) false.
Definition omp_full : OMP.t Qc := OMP.mk None (q 1 1) false.

(** A world whose store holds one tensor object, at location 0. *)
Definition world1 {S : Type} (self : S) (o : obj Qc) : world Qc Z S :=
  mkWorld self {[0 := o]} 1%Z.

(** A world whose store holds the data at location 0 and the dictionary
    at location 1, and one that also holds a warm start at location 2. *)
Definition world2 {S : Type} (self : S) (data dictionary : obj Qc) : world Qc Z S :=
  mkWorld self {[0 := data; 1 := dictionary]} 1%Z.
Definition world3 {S : Type} (self : S) (data dictionary start : obj Qc)
    : world Qc Z S :=
  mkWorld self {[0 := data; 1 := dictionary; 2 := start]} 1%Z.

(** A tensor of two entries for the soft threshold. *)
Definition u12 : tensor Qc := mkT [1; 2] [q 1 2; q (-1) 20].
End Demo.

(** The warm start [coeff_0], when given, names a tensor object of the
    store; [u0] is the tensor that [infer] starts from. *)
Definition warm_start {R : Type} (h : gmap loc (obj R)) (coeff_0 : option loc)
    (default u0 : tensor R) : Prop :=
  match coeff_0 with
  | Some c => exists o, h !! c = Some o /\ value o = u0
  | None => u0 = default
  end.

(** The store [h'] has every object of [h], unchanged. *)
Definition extends {R : Type} (h h' : gmap loc (obj R)) : Prop :=
  forall l o, h !! l = Some o -> h' !! l = Some o.


(** The error of the NaN guard inside the solvers. *)
Definition nan_error : exn :=
  ValueError (InferenceMethod.nan_message "coefficients").

(** The four conditions of Moore and Penrose under which [x] is the
    pseudo-inverse of [a]. *)
Definition penrose {R : Type} `{Scalar R} (a x : tensor R) : Prop :=
  mm (mm a x) a = a
  /\ mm (mm x a) x = x
  /\ transpose (mm a x) = mm a x
  /\ transpose (mm x a) = mm x a.


(** Whether the warm start [coeff_0] is a tensor of the store that lives on
    the device [dev], so that [coeff_0.to(dev)] is the tensor itself. *)
Definition resident {R : Type} (h : gmap loc (obj R)) (coeff_0 : option loc)
    (dev : nat) : bool :=
  match coeff_0 with
  | Some c => match h !! c with
              | Some o => Nat.eqb (device o) dev
              | None => false
              end
  | None => false
  end.

(** Whether [ISTA.infer] finds its in-place subtraction refused: the warm
    start lives on the device of the dictionary and is a leaf that requires
    grad. *)
Definition ista_locked {R : Type} (h : gmap loc (obj R)) (coeff_0 : option loc)
    (dev : nat) : bool :=
  match coeff_0 with
  | Some c => match h !! c with
              | Some o => Nat.eqb (device o) dev && locked o
              | None => false
              end
  | None => false
  end.

(** Whether the iterate of [ISTA.infer] is the tensor object [l] itself. *)
Definition ista_alias {R : Type} (h : gmap loc (obj R)) (coeff_0 : option loc)
    (dev : nat) (l : loc) : bool :=
  match coeff_0 with
  | Some c => Nat.eqb c l && resident h coeff_0 dev
  | None => false
  end.

(** Whether the parameter of [PyTorchOptimizer.infer] is the tensor object
    [l] itself. *)
Definition pto_alias (coeff_0 : option loc) (l : loc) : bool :=
  match coeff_0 with
  | Some c => Nat.eqb l c
  | None => false
  end.

(** The exceptions of a call of [ISTA.infer] on tensors of the store: no
    eigenvalue, a subtraction in place that autograd refuses, and the error
    of the NaN guard. *)
Definition ista_raises {R : Type} (h : gmap loc (obj R)) (coeff_0 : option loc)
    (dev : nat) (n_iter : nat) (use_checknan : bool) (e : exn) : Prop :=
  e = IndexError
  \/ (e = RuntimeError /\ ista_locked h coeff_0 dev = true /\ n_iter <> 0)
  \/ (use_checknan = true /\ e = nan_error).


(** The error of an optimizer of [torch.optim] on a parameter that is no
    leaf. *)
Definition non_leaf_error : exn := ValueError PyTorchOptimizer.non_leaf_message.


(** ** Further readings, laws and inputs *)

(** An [LCA] instance with [n_iter] replaced. *)
Definition lca_with_n_iter {R : Type} (self : LCA.t R) (n : nat) : LCA.t R :=
  LCA.mk (LCA.solver self) (LCA.threshold self) (LCA.coeff_lr self)
         (LCA.stop_early self) (LCA.epsilon self) n
         (LCA.return_all_coefficients self).

(** The membrane potentials of [LCA] after one iteration from [u0]. *)
Definition lca_first_update {R : Type} `{Scalar R} (self : LCA.t R)
    (samples dictionary u0 : tensor R) : tensor R :=
  let b := transpose (mm (transpose dictionary) (transpose samples)) in
  let G := tsub (mm (transpose dictionary) dictionary) (eye (dim1 dictionary)) in
  tadd u0 (smul (LCA.coeff_lr self)
             (LCA.grad b G u0 (LCA.threshold_nonlinearity self u0))).

(** The batch of the single sample [i] of [samples]. *)
Definition single_sample {R : Type} `{Scalar R} (samples : obj R) (i : nat) : obj R :=
  mkObj (device samples) (requires_grad samples) (slice_row (value samples) i).

(** The order that [torch.sort] and [torch.argmax] rely on: [gt_or_nan] is
    asymmetric, and what is greater than [z] is greater than [y] or [y] is
    greater than [z].  Both hold with NaN as the greatest element. *)
Class WeakOrder (R : Type) `{Scalar R} : Prop := {
  gt_asym : forall x y : R, gt_or_nan x y = true -> gt_or_nan y x = false;
  gt_cotrans : forall x y z : R,
      gt_or_nan x z = true -> gt_or_nan x y = true \/ gt_or_nan y z = true
}.

(** [b] is not ahead of [a] in a descending sort. *)
Definition not_ahead {R : Type} `{Scalar R} (a b : nat * R) : Prop :=
  gt_or_nan (snd b) (snd a) = false.

(** What exact arithmetic says of zero.  In IEEE arithmetic the two laws of
    the product fail on the infinities and on NaN. *)
Class ZeroArith (R : Type) `{Scalar R} : Prop := {
  add_zero_zero : add zero zero = zero;
  sub_zero_zero : sub zero zero = zero;
  mul_zero_left : forall x : R, mul zero x = zero;
  mul_zero_right : forall x : R, mul x zero = zero;
  sign_zero : sign zero = zero;
  isnan_zero : isnan zero = false
}.

(** Every entry of [t] is zero. *)
Definition all_zero {R : Type} `{Scalar R} (t : tensor R) : Prop :=
  Forall (fun x => x = zero) (data t).

(** Further instances and inputs in exact arithmetic. *)
Module Sample.
(** Solvers that log their iterates. *)
Definition lca_log : LCA.t Qc :=
  LCA.mk None (Demo.q 1 10) (Demo.q 1 10) false (Demo.q 1 100) 2 (literal "membrane").
Definition vanilla_log : Vanilla.t Qc :=
  Vanilla.mk None (Demo.q 1 10) (Demo.q 1 5) false (Demo.q 1 100) 2 true.
Definition ista_log : ISTA.t Qc :=
  ISTA.mk None 2 (Demo.q 1 100) false (Demo.q 1 100) None true None.

(** [LCA] with early stopping. *)
Definition lca_early : LCA.t Qc :=
  LCA.mk None (Demo.q 1 10) (Demo.q 1 10) true (Demo.q 1 100) 5 (literal "membrane").

Definition mp_half : MP.t Qc := MP.mk None (Demo.q 1 2) false.

(** A batch of one sample that is zero. *)
Definition zero12 : obj Qc := mkObj 0 false (zeros [1; 2]).

End Sample.

(** * Properties *)

(** ** A calculus for [wp] *)

Section HoareRules.
Context {R G S : Type}.
Implicit Types (w : world R G S) (E : exn -> Prop).

Lemma wp_ret {A} (a : A) E (Q : A -> world R G S -> Prop) w :
  Q a w -> wp (ret a) E Q w.
Proof. intros HQ. exact HQ. Qed.

Lemma wp_bind {A B} (m : M R G S A) (k : A -> M R G S B) E
    (Q : B -> world R G S -> Prop) w :
  wp m E (fun a w' => wp (k a) E Q w') w -> wp (bind m k) E Q w.
Proof.
  unfold wp, bind. destruct (m w) as [[a w']|e]; auto.
Qed.

Lemma wp_mono {A} (m : M R G S A) (E E' : exn -> Prop)
    (Q Q' : A -> world R G S -> Prop) w :
  wp m E Q w ->
  (forall e, E e -> E' e) ->
  (forall a w', Q a w' -> Q' a w') ->
  wp m E' Q' w.
Proof.
  unfold wp. intros Hm HE HQ. destruct (m w) as [[a w']|e]; auto.
Qed.

Lemma wp_raise {A} (e : exn) E (Q : A -> world R G S -> Prop) w :
  E e -> wp (raise e) E Q w.
Proof. intros He. exact He. Qed.

Lemma wp_lift {A} (r : result A) E (Q : A -> world R G S -> Prop) w :
  match r with Ok a => Q a w | Raise e => E e end -> wp (lift r) E Q w.
Proof. unfold wp, lift. destruct r; auto. Qed.

Lemma wp_get_self E (Q : S -> world R G S -> Prop) w :
  Q (w_self w) w -> wp get_self E Q w.
Proof. intros HQ. exact HQ. Qed.

Lemma wp_set_self (s : S) E (Q : unit -> world R G S -> Prop) w :
  Q tt (mkWorld s (w_heap w) (w_rng w)) -> wp (set_self s) E Q w.
Proof. intros HQ. exact HQ. Qed.

Lemma wp_read (l : loc) (o : obj R) E (Q : tensor R -> world R G S -> Prop) w :
  w_heap w !! l = Some o -> Q (value o) w -> wp (read l) E Q w.
Proof. unfold wp, read. intros ->. auto. Qed.

Lemma wp_read_obj (l : loc) (o : obj R) E (Q : obj R -> world R G S -> Prop) w :
  w_heap w !! l = Some o -> Q o w -> wp (read_obj l) E Q w.
Proof. unfold wp, read_obj. intros ->. auto. Qed.

Lemma wp_grad_of (l : loc) (o : obj R) E (Q : bool -> world R G S -> Prop) w :
  w_heap w !! l = Some o -> Q (requires_grad o) w -> wp (grad_of l) E Q w.
Proof. unfold wp, grad_of. intros ->. auto. Qed.

Lemma wp_update (l : loc) (o : obj R) (g : bool) (f : tensor R -> tensor R) E
    (Q : unit -> world R G S -> Prop) w :
  w_heap w !! l = Some o ->
  (if locked o then E RuntimeError
   else Q tt (mkWorld (w_self w)
                (<[l := mkTensorObj (device o) (requires_grad o || g)
                          (is_leaf o && negb g) (f (value o))]> (w_heap w))
                (w_rng w))) ->
  wp (update l g f) E Q w.
Proof. unfold wp, update. intros ->. destruct (locked o); auto. Qed.

Lemma wp_write (l : loc) (o : obj R) (f : tensor R -> tensor R) E
    (Q : unit -> world R G S -> Prop) w :
  w_heap w !! l = Some o ->
  Q tt (mkWorld (w_self w)
          (<[l := mkTensorObj (device o) (requires_grad o) (is_leaf o) (f (value o))]>
             (w_heap w))
          (w_rng w)) ->
  wp (write l f) E Q w.
Proof. unfold wp, write. intros ->. auto. Qed.

Lemma wp_alloc (o : obj R) E (Q : loc -> world R G S -> Prop) w :
  (forall l, w_heap w !! l = None ->
             Q l (mkWorld (w_self w) (<[l := o]> (w_heap w)) (w_rng w))) ->
  wp (alloc o) E Q w.
Proof.
  unfold wp, alloc. intros HQ. apply HQ.
  apply (not_elem_of_dom (D := gset nat)). apply is_fresh.
Qed.

Lemma wp_requires_grad_ (l : loc) (o : obj R) E
    (Q : loc -> world R G S -> Prop) w :
  w_heap w !! l = Some o ->
  Q l (mkWorld (w_self w)
         (<[l := mkTensorObj (device o) true (is_leaf o) (value o)]> (w_heap w))
         (w_rng w)) ->
  wp (requires_grad_ l true) E Q w.
Proof.
  unfold wp, requires_grad_. intros ->. cbn [negb]. rewrite andb_false_r. auto.
Qed.

(** [t.to(device)] of an object that lives there is the object. *)
Lemma wp_to_device_same (l : loc) (o : obj R) E (Q : loc -> world R G S -> Prop) w :
  w_heap w !! l = Some o -> Q l w -> wp (to_device l (device o)) E Q w.
Proof. unfold wp, to_device. intros ->. rewrite Nat.eqb_refl. auto. Qed.

(** In general it is an object with the same contents, and the store is
    only extended. *)
Lemma wp_to_device (l : loc) (o : obj R) (dev : nat) E
    (Q : loc -> world R G S -> Prop) w :
  w_heap w !! l = Some o ->
  (Nat.eqb (device o) dev = true -> Q l w) ->
  (Nat.eqb (device o) dev = false ->
   forall l', w_heap w !! l' = None ->
     Q l' (mkWorld (w_self w)
             (<[l' := computed dev (requires_grad o) (value o)]> (w_heap w))
             (w_rng w))) ->
  wp (to_device l dev) E Q w.
Proof.
  unfold wp, to_device. intros -> Hsame Hnew.
  destruct (Nat.eqb (device o) dev); [auto|].
  apply (wp_alloc _ E Q w (Hnew eq_refl)).
Qed.
End HoareRules.

(** ** The NaN guard: cases *)

Section CheckNaN.
Context {R : Type} `{Scalar R}.

Lemma any_isnan_true (t : tensor R) :
  any_isnan t = true <-> exists x, In x (data t) /\ isnan x = true.
Proof. unfold any_isnan. apply existsb_exists. Qed.

Lemma checknan_cases (t : tensor R) (name : string) :
  (any_isnan t = true /\
   InferenceMethod.checknan t name = Raise (ValueError (InferenceMethod.nan_message name)))
  \/ (any_isnan t = false /\ InferenceMethod.checknan t name = Ok tt).
Proof.
  unfold InferenceMethod.checknan. destruct (any_isnan t); auto.
Qed.
End CheckNaN.

(** ** Exact rationals satisfy the laws of exact arithmetic *)

Lemma lt_bool_iff (x y : Qc) : Exact.lt_bool x y = true <-> (x < y)%Qc.
Proof.
  unfold Exact.lt_bool. rewrite Qclt_alt.
  destruct (x ?= y)%Qc; split; congruence.
Qed.

Lemma lt_bool_false_iff (x y : Qc) : Exact.lt_bool x y = false <-> (y <= x)%Qc.
Proof.
  rewrite <- not_true_iff_false, lt_bool_iff. split.
  - apply Qcnot_lt_le.
  - apply Qcle_not_lt.
Qed.

#[global] Instance exact_ideal : IdealArith Qc.
Proof.
  split; simpl.
  - intros x y Hxy. apply lt_bool_false_iff, Qclt_le_weak, lt_bool_iff, Hxy.
  - intros x y Hxy Hyx. apply lt_bool_false_iff in Hxy, Hyx.
    apply Qcle_antisym; assumption.
  - intros x y. apply eq_true_iff_eq. rewrite !lt_bool_iff.
    unfold Qclt, Qcminus, Qcplus, Qcopp. simpl. rewrite !Qred_correct. split; lra.
  - intros x. ring.
  - intros x Hx. unfold Qcdiv. rewrite Qcmult_1_l. apply Qcmult_inv_l. exact Hx.
Qed.

(** ** Runs on the store and their value-level readings *)

Section Runs.
Context {R : Type} `{Backend R}.

Lemma extends_refl (h : gmap loc (obj R)) : extends h h.
Proof. intros l o Hl. exact Hl. Qed.

Lemma extends_insert_fresh (h : gmap loc (obj R)) (l : loc) (o : obj R) :
  h !! l = None -> extends h (<[l := o]> h).
Proof.
  intros Hl l' o' Hl'. rewrite lookup_insert_ne; [exact Hl'|]. congruence.
Qed.

(** Reading a warm start through [.to(device)] yields its contents, leaves
    [self] and the generator alone and only adds to the store. *)
Lemma wp_read_warm_start {S : Type} (c : loc) (o : obj R) (dev : nat)
    (w : world R rng_state S) :
  w_heap w !! c = Some o ->
  wp (let* c' := to_device c dev in read c') (fun _ => False)
     (fun u w' => u = value o /\ w_self w' = w_self w /\ w_rng w' = w_rng w
                  /\ extends (w_heap w) (w_heap w'))
     w.
Proof.
  intros Hc. apply wp_bind. eapply wp_to_device; [exact Hc| |].
  - intros _. eapply wp_read; [exact Hc|]. auto using extends_refl.
  - intros _ l' Hl'. eapply wp_read; [simpl; apply lookup_insert_eq|]. simpl.
    auto using extends_insert_fresh.
Qed.

Lemma lca_infer_wp (data dictionary : obj R) (c0 : option loc) (chk : bool)
    (u0 : tensor R) (w : world R rng_state (LCA.t R)) :
  warm_start (w_heap w) c0 (zeros [dim0 (value data); dim1 (value dictionary)]) u0 ->
  wp (LCA.infer data dictionary c0 chk)
     (fun e => lca_infer_v (w_self w) (value data) (value dictionary) u0 chk = Raise e)
     (fun r w' =>
        lca_infer_v (w_self w) (value data) (value dictionary) u0 chk = Ok r
        /\ w_self w' = w_self w /\ w_rng w' = w_rng w
        /\ extends (w_heap w) (w_heap w'))
     w.
Proof.
  intros Hc0. unfold LCA.infer.
  apply wp_bind, wp_get_self. apply wp_bind.
  apply (wp_mono _ (fun _ => False) _
           (fun u w' => u = u0 /\ w_self w' = w_self w /\ w_rng w' = w_rng w
                        /\ extends (w_heap w) (w_heap w'))).
  - destruct c0 as [c|]; simpl in Hc0.
    + destruct Hc0 as (o & Hc & <-). apply wp_read_warm_start, Hc.
    + subst u0. apply wp_ret. auto using extends_refl.
  - intros e [].
  - intros u w1 (-> & Hs & Hg & Hh).
    apply wp_bind, wp_lift. unfold lca_infer_v.
    destruct (LCA.loop _ _ _ _ _ _ _) as [uc|e]; [|reflexivity].
    apply wp_ret. auto.
Qed.

Lemma vanilla_infer_wp (data dictionary : obj R) (c0 : option loc) (chk : bool)
    (a0 : tensor R) (w : world R rng_state (Vanilla.t R)) :
  warm_start (w_heap w) c0
    (vanilla_start (w_rng w) (dim0 (value data)) (dim1 (value dictionary))) a0 ->
  wp (Vanilla.infer data dictionary c0 chk)
     (fun e => vanilla_infer_v (w_self w) (value data) (value dictionary) a0 chk = Raise e)
     (fun r w' =>
        vanilla_infer_v (w_self w) (value data) (value dictionary) a0 chk = Ok r
        /\ w_self w' = w_self w
        /\ (is_Some c0 -> w_rng w' = w_rng w)
        /\ extends (w_heap w) (w_heap w'))
     w.
Proof.
  intros Hc0. unfold Vanilla.infer.
  apply wp_bind, wp_get_self. apply wp_bind.
  apply (wp_mono _ (fun _ => False) _
           (fun a w' => a = a0 /\ w_self w' = w_self w
                        /\ (is_Some c0 -> w_rng w' = w_rng w)
                        /\ extends (w_heap w) (w_heap w'))).
  - destruct c0 as [c|]; simpl in Hc0.
    + destruct Hc0 as (o & Hc & <-).
      eapply wp_mono; [apply wp_read_warm_start, Hc | auto |].
      intros a w' (-> & Hs & Hg & Hh). auto.
    + subst a0. apply wp_bind. unfold wp, Vanilla.torch_rand. simpl.
      split; [reflexivity|]. split; [reflexivity|].
      split; [intros [? [=]] | apply extends_refl].
  - intros e [].
  - intros a w1 (-> & Hs & Hg & Hh).
    apply wp_bind, wp_lift. unfold vanilla_infer_v.
    destruct (Vanilla.loop _ _ _ _ _ _ _ _) as [ac|e]; [|reflexivity].
    apply wp_ret. auto.
Qed.
End Runs.

(** *** ISTA *)

Section ISTARuns.
Context {R : Type} `{Backend R}.
Implicit Types w : world R rng_state (ISTA.t R).

Lemma wp_apply_threshold (u : loc) (uo : obj R) (th : R) E
    (Q : tensor R -> world R rng_state (ISTA.t R) -> Prop) w :
  w_heap w !! u = Some uo ->
  ISTA.threshold (w_self w) = Some th ->
  Q (ISTA.soft_threshold th (value uo)) w ->
  wp (ISTA.apply_threshold u) E Q w.
Proof.
  intros Hu Hth HQ. unfold ISTA.apply_threshold.
  apply wp_bind, wp_get_self. apply wp_bind. eapply wp_read; [exact Hu|].
  apply wp_lift. unfold ISTA.threshold_nonlinearity. rewrite Hth. exact HQ.
Qed.

Lemma wp_assign_coefficients (c : loc) E
    (Q : unit -> world R rng_state (ISTA.t R) -> Prop) w :
  Q tt (mkWorld (ISTA.set_coefficients (w_self w) c) (w_heap w) (w_rng w)) ->
  wp (ISTA.assign_coefficients c) E Q w.
Proof.
  intros HQ. unfold ISTA.assign_coefficients.
  apply wp_bind, wp_get_self. apply wp_set_self. exact HQ.
Qed.

Lemma wp_self_coefficients (c : loc) E
    (Q : loc -> world R rng_state (ISTA.t R) -> Prop) w :
  ISTA.coefficients (w_self w) = Some c -> Q c w ->
  wp ISTA.self_coefficients E Q w.
Proof.
  intros Hc HQ. unfold ISTA.self_coefficients.
  apply wp_bind, wp_get_self. rewrite Hc. apply wp_ret, HQ.
Qed.

Lemma locked_computed (dev : nat) (g : bool) (v : tensor R) :
  locked (computed dev g v) = false.
Proof. destruct g; reflexivity. Qed.

(** The loop, from an iterate [u] that may be the tensor of the data or of
    the dictionary. *)
Lemma ista_loop_wp (ld lD : loc) (dev : nat) (stepsize th : R) (gs chk : bool) :
  forall (n : nat) (u scl : loc) (xo dobj uo sco : obj R) (residual : tensor R)
         (gr : bool) (coefficients : tensor R) w,
    w_heap w !! ld = Some xo ->
    w_heap w !! lD = Some dobj ->
    w_heap w !! u = Some uo ->
    ISTA.threshold (w_self w) = Some th ->
    ISTA.coefficients (w_self w) = Some scl ->
    w_heap w !! scl = Some sco ->
    wp (ISTA.loop ld lD dev stepsize gs chk n u residual gr coefficients)
       (fun e =>
          ista_loop_v (ISTA.return_all_coefficients (w_self w))
            (ISTA.stop_early (w_self w)) (ISTA.epsilon (w_self w)) th stepsize chk n
            (locked uo) (Nat.eqb u ld) (Nat.eqb u lD) (value xo) (value dobj)
            (value uo) (value sco) residual coefficients = Raise e)
       (fun cs w' => exists scl' sco',
          ista_loop_v (ISTA.return_all_coefficients (w_self w))
            (ISTA.stop_early (w_self w)) (ISTA.epsilon (w_self w)) th stepsize chk n
            (locked uo) (Nat.eqb u ld) (Nat.eqb u lD) (value xo) (value dobj)
            (value uo) (value sco) residual coefficients
          = Ok (cs, value sco')
          /\ ISTA.coefficients (w_self w') = Some scl'
          /\ w_heap w' !! scl' = Some sco'
          /\ ista_config (w_self w') = ista_config (w_self w)
          /\ ISTA.threshold (w_self w') = Some th
          /\ w_rng w' = w_rng w
          /\ (forall l o, w_heap w !! l = Some o -> l <> u -> w_heap w' !! l = Some o)
          /\ exists uo',
               w_heap w' !! u = Some uo'
               /\ device uo' = device uo
               /\ value uo'
                  = match n with
                    | 0 => value uo
                    | S _ => tsub (value uo) (smul stepsize (mm residual (value dobj)))
                    end
               /\ (n = 0 -> uo' = uo))
       w.
Proof.
  induction n as [|n IH];
    intros u scl xo dobj uo sco residual gr coefficients w Hx HD Hu Hth Hsc Hscl.
  - apply wp_ret. exists scl, sco. simpl. eauto 15.
  - cbn [ISTA.loop ista_loop_v].
    apply wp_bind, wp_get_self. apply wp_bind. eapply wp_read; [exact Hu|].
    apply wp_bind.
    apply (wp_mono _ (fun _ => False) _
             (fun c0 w1 =>
                w1 = w /\
                c0 = if ISTA.return_all_coefficients (w_self w)
                     then concat1 coefficients
                            (unsqueeze1 (clone (ISTA.soft_threshold th (value uo))))
                     else coefficients)).
    { destruct (ISTA.return_all_coefficients (w_self w)).
      - apply wp_bind. eapply wp_apply_threshold; [exact Hu|exact Hth|].
        apply wp_ret. auto.
      - apply wp_ret. auto. }
    { intros e []. }
    intros c0 w1 [-> ->].
    set (coefficients' := if ISTA.return_all_coefficients (w_self w) then _ else _).
    apply wp_bind. eapply wp_read_obj; [exact HD|].
    apply wp_bind. eapply wp_update; [exact Hu|].
    destruct (locked uo) eqn:Hlock; [reflexivity|].
    set (g := gs || gr || requires_grad dobj).
    set (u1 := tsub (value uo) (smul stepsize (mm residual (value dobj)))).
    set (a := ISTA.soft_threshold th u1).
    set (uo1 := mkTensorObj (device uo) (requires_grad uo || g)
                  (is_leaf uo && negb g) u1).
    apply wp_bind.
    eapply wp_apply_threshold; [simpl; apply lookup_insert_eq | exact Hth |].
    simpl value. fold a.
    apply wp_bind. eapply wp_grad_of; [simpl; apply lookup_insert_eq|].
    set (sco1 := computed dev (requires_grad uo1 || gs) a).
    apply wp_bind, wp_alloc. intros al Hal. simpl in Hal.
    assert (al <> u) as Hne
      by (intros ->; rewrite lookup_insert_eq in Hal; discriminate).
    assert (forall l o, w_heap w !! l = Some o -> l <> al) as Hfresh.
    { intros l o Hl ->. destruct (decide (al = u)) as [->|Hau]; [congruence|].
      rewrite lookup_insert_ne in Hal by congruence. congruence. }
    apply wp_bind, wp_assign_coefficients. simpl.
    apply wp_bind.
    eapply wp_read;
      [simpl; rewrite lookup_insert_ne by exact Hne; apply lookup_insert_eq|].
    simpl value.
    set (w2 := mkWorld (ISTA.set_coefficients (w_self w) al)
                 (<[al := sco1]> (<[u := uo1]> (w_heap w))) (w_rng w)).
    assert (forall l o, w_heap w !! l = Some o -> l <> u -> w_heap w2 !! l = Some o)
      as Hframe.
    { intros l o Hl Hlu. simpl.
      rewrite !lookup_insert_ne by (first [exact (not_eq_sym (Hfresh l o Hl)) | congruence]).
      exact Hl. }
    assert (w_heap w2 !! u = Some uo1) as Hu2.
    { simpl. rewrite lookup_insert_ne by exact Hne. apply lookup_insert_eq. }
    assert (forall l o, w_heap w !! l = Some o ->
              w_heap w2 !! l = Some (if Nat.eqb u l then uo1 else o)) as Hcell.
    { intros l o Hl. destruct (Nat.eqb_spec u l) as [<-|Hul]; [exact Hu2|].
      apply Hframe; [exact Hl | congruence]. }
    destruct (ISTA.stop_early (w_self w) && _) eqn:Hstop.
    + apply wp_ret. exists al, sco1. simpl.
      split; [reflexivity|]. split; [reflexivity|].
      split; [apply lookup_insert_eq|]. split; [reflexivity|].
      split; [exact Hth|]. split; [reflexivity|].
      split; [intros l o Hl Hlu; apply (Hframe l o Hl Hlu)|].
      exists uo1. split; [exact Hu2|]. split; [reflexivity|].
      split; [reflexivity|]. discriminate.
    + apply wp_bind. eapply wp_self_coefficients; [reflexivity|].
      apply wp_bind. eapply wp_read_obj; [simpl; apply lookup_insert_eq|].
      apply wp_bind. eapply wp_read_obj; [apply (Hcell lD dobj HD)|].
      apply wp_bind. eapply wp_read_obj; [apply (Hcell ld xo Hx)|].
      set (d2 := if Nat.eqb u lD then uo1 else dobj).
      set (x2 := if Nat.eqb u ld then uo1 else xo).
      assert (value d2 = if Nat.eqb u lD then u1 else value dobj) as Hd2
        by (unfold d2; destruct (Nat.eqb u lD); reflexivity).
      assert (value x2 = if Nat.eqb u ld then u1 else value xo) as Hx2
        by (unfold x2; destruct (Nat.eqb u ld); reflexivity).
      simpl value. fold a.
      set (residual' := ISTA.residual_of (value x2) (value d2) a).
      set (gr' := requires_grad d2 || requires_grad sco1 || requires_grad x2).
      assert (Nat.eqb al ld = false) as Hald
        by (apply Nat.eqb_neq; exact (not_eq_sym (Hfresh ld xo Hx))).
      assert (Nat.eqb al lD = false) as HalD
        by (apply Nat.eqb_neq; exact (not_eq_sym (Hfresh lD dobj HD))).
      pose proof (IH al al x2 d2 sco1 sco1 residual' gr' coefficients' w2
                    (Hcell ld xo Hx) (Hcell lD dobj HD)
                    (lookup_insert_eq _ _ _) Hth eq_refl (lookup_insert_eq _ _ _))
        as IH2.
      assert (locked sco1 = false) as Hl1 by apply locked_computed.
      rewrite Hl1, Hald, HalD in IH2.
      change (value sco1) with a in IH2. rewrite Hd2, Hx2 in IH2.
      unfold residual' in IH2. rewrite Hd2, Hx2 in IH2.
      unfold residual'. rewrite Hd2, Hx2.
      set (v := ista_loop_v _ _ _ _ _ _ n false false false _ _ a a _ coefficients')
        in IH2 |- *.
      assert (forall E' Q',
                (forall e, v = Raise e -> E' e) ->
                (forall cs w', (exists scl' sco',
                   v = Ok (cs, value sco')
                   /\ ISTA.coefficients (w_self w') = Some scl'
                   /\ w_heap w' !! scl' = Some sco'
                   /\ ista_config (w_self w') = ista_config (w_self w)
                   /\ ISTA.threshold (w_self w') = Some th
                   /\ w_rng w' = w_rng w
                   /\ (forall l o, w_heap w !! l = Some o -> l <> u ->
                                   w_heap w' !! l = Some o)
                   /\ w_heap w' !! u = Some uo1) -> Q' cs w') ->
                wp (ISTA.loop ld lD dev stepsize gs chk n al
                      (ISTA.residual_of (if Nat.eqb u ld then u1 else value xo)
                         (if Nat.eqb u lD then u1 else value dobj) a)
                      gr' coefficients') E' Q' w2)
        as Hrest.
      { intros E' Q' HE HQ. eapply wp_mono; [exact IH2 | exact HE |].
        intros cs w' (scl' & sco' & Hv & Hc' & Hh' & Hcfg & Hth' & Hg & Hfr & _).
        apply HQ. exists scl', sco'. repeat (split; [assumption|]).
        split.
        - intros l o Hl Hlu. apply Hfr; [apply (Hframe l o Hl Hlu)|].
          exact (Hfresh l o Hl).
        - apply Hfr; [exact Hu2 | congruence]. }
      assert (forall cs w', (exists scl' sco',
                   v = Ok (cs, value sco')
                   /\ ISTA.coefficients (w_self w') = Some scl'
                   /\ w_heap w' !! scl' = Some sco'
                   /\ ista_config (w_self w') = ista_config (w_self w)
                   /\ ISTA.threshold (w_self w') = Some th
                   /\ w_rng w' = w_rng w
                   /\ (forall l o, w_heap w !! l = Some o -> l <> u ->
                                   w_heap w' !! l = Some o)
                   /\ w_heap w' !! u = Some uo1) ->
                exists scl' sco',
                  v = Ok (cs, value sco')
                  /\ ISTA.coefficients (w_self w') = Some scl'
                  /\ w_heap w' !! scl' = Some sco'
                  /\ ista_config (w_self w') = ista_config (w_self w)
                  /\ ISTA.threshold (w_self w') = Some th
                  /\ w_rng w' = w_rng w
                  /\ (forall l o, w_heap w !! l = Some o -> l <> u ->
                                  w_heap w' !! l = Some o)
                  /\ exists uo',
                       w_heap w' !! u = Some uo'
                       /\ device uo' = device uo
                       /\ value uo' = u1
                       /\ (S n = 0 -> uo' = uo)) as Hpost.
      { intros cs w' (scl' & sco' & Hv & Hc' & Hh' & Hcfg & Hth' & Hg & Hfr & Hu').
        exists scl', sco'. repeat (split; [assumption|]).
        exists uo1. split; [exact Hu'|]. split; [reflexivity|].
        split; [reflexivity|]. discriminate. }
      destruct chk.
      * apply wp_bind. apply wp_bind.
        eapply wp_read; [simpl; apply lookup_insert_eq|]. simpl value.
        apply wp_lift. fold a.
        destruct (checknan_cases a "coefficients") as [[_ Hc]|[_ Hc]]; rewrite Hc.
        -- reflexivity.
        -- apply Hrest; auto.
      * apply wp_bind, wp_ret. apply Hrest; auto.
Qed.
Lemma ista_infer_wp (ld lD : loc) (x d : obj R) (c0 : option loc) (chk : bool)
    (u0 : tensor R) w :
  w_heap w !! ld = Some x ->
  w_heap w !! lD = Some d ->
  warm_start (w_heap w) c0 (zeros [dim0 (value x); dim1 (value d)]) u0 ->
  wp (ISTA.infer ld lD c0 chk)
     (fun e =>
        ista_infer_v (w_self w) (value x) (value d) u0
          (ista_locked (w_heap w) c0 (device d))
          (ista_alias (w_heap w) c0 (device d) ld)
          (ista_alias (w_heap w) c0 (device d) lD) chk = Raise e)
     (fun r w' =>
        ista_infer_v (w_self w) (value x) (value d) u0
          (ista_locked (w_heap w) c0 (device d))
          (ista_alias (w_heap w) c0 (device d) ld)
          (ista_alias (w_heap w) c0 (device d) lD) chk = Ok r
        /\ (exists lipschitz,
              ISTA.lipschitz_constant (value d) = Ok lipschitz
              /\ ISTA.threshold (w_self w')
                 = Some (mul (ISTA.stepsize_of lipschitz)
                             (ISTA.sparsity_penalty (w_self w)))
              /\ forall c o, c0 = Some c -> w_heap w !! c = Some o ->
                   device o = device d ->
                   exists o',
                     w_heap w' !! c = Some o'
                     /\ device o' = device o
                     /\ value o'
                        = match ISTA.n_iter (w_self w) with
                          | 0 => value o
                          | S _ => ista_first_update (w_self w) (value x) (value d)
                                     (value o) lipschitz
                          end
                     /\ (ISTA.n_iter (w_self w) = 0 -> o' = o))
        /\ ista_config (w_self w') = ista_config (w_self w)
        /\ is_Some (ISTA.coefficients (w_self w'))
        /\ w_rng w' = w_rng w
        /\ (forall l o, w_heap w !! l = Some o ->
                        (c0 = Some l -> device o <> device d) ->
                        w_heap w' !! l = Some o))
     w.
Proof.
  intros Hx HD Hc0. unfold ISTA.infer, ista_infer_v.
  apply wp_bind. eapply wp_read_obj; [exact Hx|].
  apply wp_bind. eapply wp_read_obj; [exact HD|].
  apply wp_bind, wp_lift.
  destruct (ISTA.lipschitz_constant (value d)) as [lipschitz|e] eqn:HL;
    [|reflexivity].
  set (stepsize := ISTA.stepsize_of lipschitz).
  set (th := mul stepsize (ISTA.sparsity_penalty (w_self w))).
  apply wp_bind, wp_get_self. apply wp_bind, wp_set_self.
  set (dev := device d).
  apply wp_bind.
  apply (wp_mono _ (fun _ => False) _
           (fun u w1 => exists uo,
              w_heap w1 !! u = Some uo /\ value uo = u0
              /\ w_self w1 = ISTA.set_threshold (w_self w) th
              /\ w_rng w1 = w_rng w
              /\ extends (w_heap w) (w_heap w1)
              /\ locked uo = ista_locked (w_heap w) c0 dev
              /\ (forall l o, w_heap w !! l = Some o ->
                              Nat.eqb u l = ista_alias (w_heap w) c0 dev l)
              /\ ((c0 = Some u /\ w_heap w !! u = Some uo /\ device uo = dev)
                  \/ (w_heap w !! u = None
                      /\ forall c o, c0 = Some c -> w_heap w !! c = Some o ->
                                     device o <> dev)))).
  { destruct c0 as [c|]; simpl in Hc0.
    - destruct Hc0 as (o & Hc & <-). eapply wp_to_device; [exact Hc| |].
      + intros Hdev. exists o. simpl.
        split; [exact Hc|]. split; [reflexivity|]. split; [reflexivity|].
        split; [reflexivity|]. split; [apply extends_refl|].
        unfold ista_alias, resident. rewrite Hc, Hdev. simpl.
        split; [reflexivity|]. split; [intros l o' _; rewrite andb_true_r; reflexivity|].
        left. apply Nat.eqb_eq in Hdev. auto.
      + intros Hdev l' Hl'. simpl in Hl'. eexists. simpl.
        split; [apply lookup_insert_eq|]. split; [reflexivity|].
        split; [reflexivity|]. split; [reflexivity|].
        split; [apply extends_insert_fresh, Hl'|].
        unfold ista_alias, resident. rewrite Hc, Hdev. simpl.
        split; [apply locked_computed|].
        split.
        { intros l o' Hl. rewrite andb_false_r. apply Nat.eqb_neq. congruence. }
        right. split; [exact Hl'|]. intros c' o' [= <-] Hc'.
        apply Nat.eqb_neq in Hdev. congruence.
    - subst u0. apply wp_alloc. intros l Hl. simpl in Hl. eexists. simpl.
      split; [apply lookup_insert_eq|]. split; [reflexivity|].
      split; [reflexivity|]. split; [reflexivity|].
      split; [apply extends_insert_fresh, Hl|].
      split; [reflexivity|].
      split; [intros l' o' Hl'; apply Nat.eqb_neq; congruence|].
      right. split; [exact Hl|]. intros c o [=]. }
  { intros e []. }
  intros u [s1 h1 g1] (uo & Hu & <- & Hs1 & Hg1 & Hext & Hlock & Halias & Hcase).
  simpl in Hu, Hs1, Hg1, Hext. subst s1 g1.
  apply wp_bind. eapply wp_apply_threshold; [exact Hu | reflexivity |].
  set (a := ISTA.soft_threshold th (value uo)).
  apply wp_bind. eapply wp_grad_of; [exact Hu|].
  set (sco := computed dev (requires_grad uo || requires_grad d) a).
  apply wp_bind, wp_alloc. intros al Hal. simpl in Hal.
  assert (al <> u) as Hne by congruence.
  apply wp_bind, wp_assign_coefficients. simpl.
  apply wp_bind. eapply wp_self_coefficients; [reflexivity|].
  apply wp_bind. eapply wp_read_obj; [simpl; apply lookup_insert_eq|].
  set (w2 := mkWorld (ISTA.set_coefficients (ISTA.set_threshold (w_self w) th) al)
               (<[al := sco]> h1) (w_rng w)).
  assert (forall l o, w_heap w !! l = Some o -> w_heap w2 !! l = Some o) as Hext2.
  { intros l o Hl. simpl. rewrite lookup_insert_ne; [apply Hext, Hl|].
    intros <-. apply Hext in Hl. congruence. }
  assert (w_heap w2 !! u = Some uo) as Hu2
    by (simpl; rewrite lookup_insert_ne by exact Hne; exact Hu).
  pose proof (ista_loop_wp ld lD dev stepsize th (requires_grad d) chk
                (ISTA.n_iter (w_self w)) u al x d uo sco
                (ISTA.residual_of (value x) (value d) a)
                (requires_grad d || requires_grad sco || requires_grad x)
                (zeros [dim0 (value x); 0; dim1 (value d)]) w2
                (Hext2 ld x Hx) (Hext2 lD d HD) Hu2 eq_refl eq_refl
                (lookup_insert_eq _ _ _)) as Hloop.
  simpl in Hloop.
  rewrite Hlock, (Halias ld x Hx), (Halias lD d HD) in Hloop.
  apply wp_bind. eapply wp_mono; [exact Hloop | |].
  { intros e He. fold th stepsize a. rewrite He. reflexivity. }
  intros cs w' (scl' & sco' & Hv & Hc' & Hh' & Hcfg & Hth' & Hg & Hfr & Hu').
  apply wp_bind. eapply wp_self_coefficients; [exact Hc'|].
  apply wp_bind. eapply wp_read; [exact Hh'|]. apply wp_ret.
  fold th stepsize a. rewrite Hv. split; [reflexivity|]. split.
  { exists lipschitz. split; [reflexivity|]. split; [exact Hth'|].
    intros c o -> Hc Hdev. destruct Hcase as [([= ->] & Huo & _)|[_ Hno]].
    - replace o with uo by congruence.
      destruct Hu' as (uo' & Hu1 & Hd1 & Hv1 & Hn1).
      exists uo'. split; [exact Hu1|]. split; [exact Hd1|]. split; [|exact Hn1].
      rewrite Hv1. destruct (ISTA.n_iter (w_self w)); reflexivity.
    - destruct (Hno c o eq_refl Hc Hdev). }
  split; [exact Hcfg|]. split; [rewrite Hc'; eauto|]. split; [exact Hg|].
  intros l o Hl Hdev. apply Hfr.
  - apply Hext2, Hl.
  - intros ->. destruct Hcase as [(Hcu & Huo & Hd)|[Hnone _]].
    + apply (Hdev Hcu). congruence.
    + congruence.
Qed.
End ISTARuns.

(** *** PyTorchOptimizer *)

Section PTORuns.
Context {R : Type} `{Backend R}.
Implicit Types w : world R rng_state (PyTorchOptimizer.t R).

Lemma pto_loop_wp (opt : optimizer R) (batch_size : nat) (ld lD c : loc) :
  forall (n : nat) (xo dobj co : obj R) (st : opt_state opt) w,
    w_heap w !! ld = Some xo ->
    w_heap w !! lD = Some dobj ->
    w_heap w !! c = Some co ->
    wp (PyTorchOptimizer.loop opt batch_size n ld lD c st) (fun _ => False)
       (fun _ w' =>
          w_heap w' !! c
          = Some (mkTensorObj (device co) (requires_grad co) (is_leaf co)
                    (optimize_v
                       (PyTorchOptimizer.loss_of (w_self w) (Nat.eqb ld c)
                          (Nat.eqb lD c) (value xo) (value dobj))
                       opt batch_size n (value co) st))
          /\ w_self w' = w_self w /\ w_rng w' = w_rng w
          /\ forall l, l <> c -> w_heap w' !! l = w_heap w !! l)
       w.
Proof.
  induction n as [|n IH]; intros xo dobj co st w Hx HD Hc.
  - apply wp_ret. destruct co. simpl. auto.
  - cbn [PyTorchOptimizer.loop optimize_v].
    apply wp_bind, wp_get_self.
    apply wp_bind. eapply wp_read; [exact Hx|].
    apply wp_bind. eapply wp_read; [exact HD|].
    apply wp_bind. eapply wp_read; [exact Hc|].
    apply wp_bind. eapply wp_write; [exact Hc|].
    set (loss := PyTorchOptimizer.loss_of (w_self w) (Nat.eqb ld c) (Nat.eqb lD c)
                   (value xo) (value dobj)).
    set (ps := opt_step opt st (value co) (backward loss (value co) (ones [batch_size]))).
    set (co1 := mkTensorObj (device co) (requires_grad co) (is_leaf co) (fst ps)).
    set (w1 := mkWorld (w_self w) (<[c := co1]> (w_heap w)) (w_rng w)).
    assert (forall l o, w_heap w !! l = Some o ->
              w_heap w1 !! l = Some (if Nat.eqb l c then co1 else o)) as Hcell.
    { intros l o Hl. simpl. destruct (Nat.eqb_spec l c) as [->|Hlc].
      - apply lookup_insert_eq.
      - rewrite lookup_insert_ne by congruence. exact Hl. }
    assert (PyTorchOptimizer.loss_of (w_self w1) (Nat.eqb ld c) (Nat.eqb lD c)
              (value (if Nat.eqb ld c then co1 else xo))
              (value (if Nat.eqb lD c then co1 else dobj)) = loss) as Hloss.
    { unfold loss, PyTorchOptimizer.loss_of. simpl.
      destruct (Nat.eqb ld c), (Nat.eqb lD c); reflexivity. }
    eapply wp_mono;
      [apply (IH _ _ co1 (snd ps) w1 (Hcell ld xo Hx) (Hcell lD dobj HD));
       simpl; apply lookup_insert_eq | auto |].
    rewrite Hloss. simpl. intros _ w' (Hc' & Hs & Hg & Hfr).
    repeat (split; [assumption|]).
    intros l Hl. rewrite (Hfr l Hl). apply lookup_insert_ne. congruence.
Qed.

Lemma pto_infer_wp (ld lD : loc) (x d : obj R) (c0 : option loc) (p0 : tensor R) w :
  w_heap w !! ld = Some x ->
  w_heap w !! lD = Some d ->
  warm_start (w_heap w) c0 (zeros [dim0 (value x); dim1 (value d)]) p0 ->
  wp (PyTorchOptimizer.infer ld lD c0)
     (fun e => e = non_leaf_error
               /\ exists c o, c0 = Some c /\ w_heap w !! c = Some o /\ is_leaf o = false)
     (fun l w' =>
        (exists o', w_heap w' !! l = Some o'
           /\ value o' = pto_infer_v (w_self w) (pto_alias c0 ld) (pto_alias c0 lD)
                           (value x) (value d) p0
           /\ requires_grad o' = true
           /\ is_leaf o' = true
           /\ forall c o, c0 = Some c -> w_heap w !! c = Some o ->
                l = c /\ device o' = device o /\ is_leaf o = true)
        /\ w_self w' = w_self w /\ w_rng w' = w_rng w
        /\ (forall l' o, w_heap w !! l' = Some o -> c0 <> Some l' ->
                         w_heap w' !! l' = Some o))
     w.
Proof.
  intros Hx HD Hc0. unfold PyTorchOptimizer.infer.
  apply wp_bind, wp_get_self.
  apply wp_bind. eapply wp_read_obj; [exact Hx|].
  apply wp_bind. eapply wp_read_obj; [exact HD|].
  apply wp_bind.
  apply (wp_mono _ (fun _ => False) _
           (fun c w1 => exists co,
              w_heap w1 !! c = Some co /\ value co = p0 /\ requires_grad co = true
              /\ w_self w1 = w_self w /\ w_rng w1 = w_rng w
              /\ (forall l' o, w_heap w !! l' = Some o ->
                    exists o1, w_heap w1 !! l' = Some o1 /\ value o1 = value o
                               /\ (c0 <> Some l' -> o1 = o /\ l' <> c)
                               /\ Nat.eqb l' c = pto_alias c0 l')
              /\ (forall c' o, c0 = Some c' -> w_heap w !! c' = Some o ->
                               c = c' /\ device co = device o
                               /\ is_leaf co = is_leaf o)
              /\ (c0 = None -> is_leaf co = true))).
  { destruct c0 as [c|]; simpl in Hc0.
    - destruct Hc0 as (o & Hc & <-). eapply wp_requires_grad_; [exact Hc|].
      eexists. simpl. split; [apply lookup_insert_eq|].
      repeat (split; [reflexivity|]). split; [|split].
      + intros l' o' Hl'. destruct (Nat.eqb_spec l' c) as [->|Hlc].
        * eexists. split; [apply lookup_insert_eq|].
          replace o' with o by congruence. simpl. split; [reflexivity|].
          split; [intros Hn; destruct Hn; reflexivity | reflexivity].
        * exists o'. rewrite lookup_insert_ne by congruence.
          split; [exact Hl'|]. split; [reflexivity|]. split; [auto | reflexivity].
      + intros c' o' [= <-] Hc'. split; [reflexivity|]. simpl.
        split; congruence.
      + discriminate.
    - subst p0. apply wp_alloc. intros l Hl. eexists. simpl.
      split; [apply lookup_insert_eq|]. repeat (split; [reflexivity|]).
      split; [|split].
      + intros l' o' Hl'. assert (l' <> l) by congruence. exists o'.
        rewrite lookup_insert_ne by congruence.
        split; [exact Hl'|]. split; [reflexivity|]. split; [auto|].
        apply Nat.eqb_neq. assumption.
      + intros c' o' [=].
      + reflexivity. }
  { intros e []. }
  intros c w1 (co & Hc & <- & Hrg & Hs1 & Hg1 & Hfr1 & Hal & Hcold).
  apply wp_bind. eapply wp_read_obj; [exact Hc|].
  destruct (Hfr1 ld x Hx) as (x1 & Hx1 & Hxv & _ & Hax).
  destruct (Hfr1 lD d HD) as (d1 & Hd1 & Hdv & _ & Had).
  apply wp_bind. destruct (is_leaf co) eqn:Hleaf.
  - apply wp_ret. apply wp_bind.
    eapply wp_mono;
      [apply (pto_loop_wp _ _ ld lD c _ x1 d1 co _ w1 Hx1 Hd1 Hc) | intros e [] |].
    simpl. intros _ w' (Hc' & Hs & Hg & Hfr).
    apply wp_ret. split.
    { eexists. split; [exact Hc'|]. simpl. unfold pto_infer_v.
      rewrite Hs1, Hxv, Hdv, Hax, Had. split; [reflexivity|].
      split; [exact Hrg|]. split; [exact Hleaf|].
      intros c' o Hc0' Hc''. destruct (Hal c' o Hc0' Hc'') as (-> & Hdev & Hlf).
      split; [reflexivity|]. split; [exact Hdev | congruence]. }
    split; [congruence|]. split; [congruence|].
    intros l' o Hl' Hne. destruct (Hfr1 l' o Hl') as (o1 & Hl1 & _ & Hsame & _).
    destruct (Hsame Hne) as [-> Hlc]. rewrite (Hfr l' Hlc). exact Hl1.
  - apply wp_raise. split; [reflexivity|].
    destruct c0 as [c'|]; [|specialize (Hcold eq_refl); congruence].
    simpl in Hc0. destruct Hc0 as (o & Hco & _).
    destruct (Hal c' o eq_refl Hco) as (-> & _ & Hlf).
    exists c', o. split; [reflexivity|]. split; [exact Hco | congruence].
Qed.
End PTORuns.

(** *** What the caller sees *)

Section Outcomes.
Context {R : Type} `{Backend R}.

Lemma wp_outcome {S A : Type} (m : M R rng_state S A) (v : result A)
    (Q : A -> world R rng_state S -> Prop) (w : world R rng_state S) :
  wp m (fun e => v = Raise e) (fun r w' => v = Ok r /\ Q r w') w ->
  outcome (m w) = v.
Proof.
  unfold wp, outcome. destruct (m w) as [[r w']|e].
  - intros [-> _]. reflexivity.
  - intros ->. reflexivity.
Qed.

Lemma lca_infer_outcome (data dictionary : obj R) (c0 : option loc) (chk : bool)
    (u0 : tensor R) (w : world R rng_state (LCA.t R)) :
  warm_start (w_heap w) c0 (zeros [dim0 (value data); dim1 (value dictionary)]) u0 ->
  outcome (LCA.infer data dictionary c0 chk w)
  = lca_infer_v (w_self w) (value data) (value dictionary) u0 chk.
Proof. intros Hc0. eapply wp_outcome, lca_infer_wp, Hc0. Qed.

Lemma vanilla_infer_outcome (data dictionary : obj R) (c0 : option loc) (chk : bool)
    (a0 : tensor R) (w : world R rng_state (Vanilla.t R)) :
  warm_start (w_heap w) c0
    (vanilla_start (w_rng w) (dim0 (value data)) (dim1 (value dictionary))) a0 ->
  outcome (Vanilla.infer data dictionary c0 chk w)
  = vanilla_infer_v (w_self w) (value data) (value dictionary) a0 chk.
Proof. intros Hc0. eapply wp_outcome, vanilla_infer_wp, Hc0. Qed.

Lemma ista_infer_outcome (ld lD : loc) (x d : obj R) (c0 : option loc) (chk : bool)
    (u0 : tensor R) (w : world R rng_state (ISTA.t R)) :
  w_heap w !! ld = Some x ->
  w_heap w !! lD = Some d ->
  warm_start (w_heap w) c0 (zeros [dim0 (value x); dim1 (value d)]) u0 ->
  outcome (ISTA.infer ld lD c0 chk w)
  = ista_infer_v (w_self w) (value x) (value d) u0
      (ista_locked (w_heap w) c0 (device d))
      (ista_alias (w_heap w) c0 (device d) ld)
      (ista_alias (w_heap w) c0 (device d) lD) chk.
Proof. intros Hx HD Hc0. eapply wp_outcome, ista_infer_wp; eassumption. Qed.




(** A warm start that names no object makes [infer] fail at once. *)
Lemma lca_infer_dangling (data dictionary : obj R) (c : loc) (chk : bool)
    (w : world R rng_state (LCA.t R)) :
  w_heap w !! c = None ->
  LCA.infer data dictionary (Some c) chk w = Raise InvalidReference.
Proof.
  intros Hc. unfold LCA.infer, bind, get_self, to_device. rewrite Hc. reflexivity.
Qed.

Lemma vanilla_infer_dangling (data dictionary : obj R) (c : loc) (chk : bool)
    (w : world R rng_state (Vanilla.t R)) :
  w_heap w !! c = None ->
  Vanilla.infer data dictionary (Some c) chk w = Raise InvalidReference.
Proof.
  intros Hc. unfold Vanilla.infer, bind, get_self, to_device. rewrite Hc. reflexivity.
Qed.

(** In [ISTA] and [PyTorchOptimizer] so does a reference to no data or to
    no dictionary. *)
Lemma pto_infer_dangling (ld lD : loc) (c0 : option loc)
    (w : world R rng_state (PyTorchOptimizer.t R)) :
  w_heap w !! ld = None \/ w_heap w !! lD = None
  \/ (exists c, c0 = Some c /\ w_heap w !! c = None) ->
  PyTorchOptimizer.infer ld lD c0 w = Raise InvalidReference.
Proof.
  intros Hcase. unfold PyTorchOptimizer.infer, bind, get_self, read_obj. simpl.
  destruct (w_heap w !! ld) as [x|]; [|reflexivity].
  destruct (w_heap w !! lD) as [d|]; [|reflexivity].
  destruct Hcase as [[=]|[[=]|(c & -> & Hc)]].
  unfold requires_grad_. rewrite Hc. reflexivity.
Qed.

Lemma ista_infer_dangling (ld lD : loc) (c0 : option loc) (chk : bool)
    (w : world R rng_state (ISTA.t R)) :
  w_heap w !! ld = None \/ w_heap w !! lD = None
  \/ (exists c, c0 = Some c /\ w_heap w !! c = None) ->
  exists e, ISTA.infer ld lD c0 chk w = Raise e
            /\ (e = InvalidReference \/ e = IndexError).
Proof.
  intros Hcase. unfold ISTA.infer, bind, read_obj.
  destruct (w_heap w !! ld) as [x|]; [|eauto].
  destruct (w_heap w !! lD) as [d|]; [|eauto].
  destruct Hcase as [[=]|[[=]|(c & -> & Hc)]].
  unfold lift, ISTA.lipschitz_constant. destruct (last _).
  - exists InvalidReference. unfold get_self, set_self, to_device. simpl.
    rewrite Hc. auto.
  - exists IndexError. auto.
Qed.
End Outcomes.

(** ** The exceptions of [infer] *)

Section Raises.
Context {R : Type} `{Backend R}.

Lemma checknan_raises (t : tensor R) (name : string) (e : exn) :
  InferenceMethod.checknan t name = Raise e ->
  e = ValueError (InferenceMethod.nan_message name).
Proof.
  unfold InferenceMethod.checknan. destruct (any_isnan t); congruence.
Qed.

Lemma lca_loop_raises (self : LCA.t R) (b G : tensor R) (chk : bool) :
  forall (n : nat) (u cs : tensor R) (e : exn),
    LCA.loop self b G chk n u cs = Raise e -> chk = true /\ e = nan_error.
Proof.
  induction n as [|n IH]; intros u cs e; cbn [LCA.loop]; [discriminate|].
  destruct (_ && _); [discriminate|].
  destruct chk.
  - destruct (InferenceMethod.checknan _ _) eqn:Hc.
    + apply IH.
    + intros [= <-]. split; [reflexivity|]. apply (checknan_raises _ _ _ Hc).
  - apply IH.
Qed.

Lemma vanilla_loop_raises (self : Vanilla.t R) (samples dictionary : tensor R)
    (chk : bool) :
  forall (n : nat) (a residual cs : tensor R) (e : exn),
    Vanilla.loop self samples dictionary chk n a residual cs = Raise e ->
    chk = true /\ e = nan_error.
Proof.
  induction n as [|n IH]; intros a residual cs e; cbn [Vanilla.loop]; [discriminate|].
  destruct (_ && _); [discriminate|].
  destruct chk.
  - destruct (InferenceMethod.checknan _ _) eqn:Hc.
    + apply IH.
    + intros [= <-]. split; [reflexivity|]. apply (checknan_raises _ _ _ Hc).
  - apply IH.
Qed.

Lemma ista_loop_v_raises (ra se : bool) (eps th stepsize : R) (chk : bool) :
  forall (n : nat) (lk ad aD : bool) (samples dictionary u sc residual cs : tensor R)
         (e : exn),
    ista_loop_v ra se eps th stepsize chk n lk ad aD samples dictionary u sc
      residual cs = Raise e ->
    (lk = true /\ n <> 0 /\ e = RuntimeError)
    \/ (lk = false /\ chk = true /\ e = nan_error).
Proof.
  induction n as [|n IH]; intros lk ad aD samples dictionary u sc residual cs e;
    cbn [ista_loop_v]; [discriminate|].
  destruct lk; [intros [= <-]; left; auto|].
  destruct (_ && _); [discriminate|].
  assert (forall v,
            ista_loop_v ra se eps th stepsize chk n false false false
              (if ad then tsub u (smul stepsize (mm residual dictionary)) else samples)
              (if aD then tsub u (smul stepsize (mm residual dictionary))
               else dictionary)
              v v
              (ISTA.residual_of
                 (if ad then tsub u (smul stepsize (mm residual dictionary))
                  else samples)
                 (if aD then tsub u (smul stepsize (mm residual dictionary))
                  else dictionary) v)
              (if ra
               then concat1 cs (unsqueeze1 (clone (ISTA.soft_threshold th u)))
               else cs) = Raise e ->
            (false = true /\ S n <> 0 /\ e = RuntimeError)
            \/ (false = false /\ chk = true /\ e = nan_error)) as Hrest.
  { intros v Hv. apply IH in Hv as [(Hf & _)|Hv]; [discriminate | auto]. }
  destruct chk.
  - destruct (InferenceMethod.checknan _ _) eqn:Hc.
    + apply Hrest.
    + intros [= <-]. right. split; [reflexivity|]. split; [reflexivity|].
      apply (checknan_raises _ _ _ Hc).
  - apply Hrest.
Qed.

Lemma ista_loop_v_locked (ra se : bool) (eps th stepsize : R) (chk : bool) (n : nat)
    (ad aD : bool) (samples dictionary u sc residual cs : tensor R) :
  ista_loop_v ra se eps th stepsize chk (S n) true ad aD samples dictionary u sc
    residual cs = Raise RuntimeError.
Proof. reflexivity. Qed.

Lemma lca_infer_v_raises (self : LCA.t R) (samples dictionary u0 : tensor R)
    (chk : bool) (e : exn) :
  lca_infer_v self samples dictionary u0 chk = Raise e -> chk = true /\ e = nan_error.
Proof.
  unfold lca_infer_v. destruct (LCA.loop _ _ _ _ _ _ _) eqn:Hl; [discriminate|].
  intros [= <-]. apply (lca_loop_raises _ _ _ _ _ _ _ _ Hl).
Qed.

Lemma vanilla_infer_v_raises (self : Vanilla.t R) (samples dictionary a0 : tensor R)
    (chk : bool) (e : exn) :
  vanilla_infer_v self samples dictionary a0 chk = Raise e ->
  chk = true /\ e = nan_error.
Proof.
  unfold vanilla_infer_v. destruct (Vanilla.loop _ _ _ _ _ _ _ _) eqn:Hl; [discriminate|].
  intros [= <-]. apply (vanilla_loop_raises _ _ _ _ _ _ _ _ _ Hl).
Qed.

Lemma ista_infer_v_raises (self : ISTA.t R) (samples dictionary u0 : tensor R)
    (lk ad aD chk : bool) (e : exn) :
  ista_infer_v self samples dictionary u0 lk ad aD chk = Raise e ->
  (e = IndexError /\ ISTA.lipschitz_constant dictionary = Raise IndexError)
  \/ (lk = true /\ ISTA.n_iter self <> 0 /\ e = RuntimeError)
  \/ (lk = false /\ chk = true /\ e = nan_error).
Proof.
  unfold ista_infer_v, ISTA.lipschitz_constant.
  destruct (last _).
  - destruct (ista_loop_v _ _ _ _ _ _ _ _ _ _ _ _ _ _ _ _) eqn:Hl; [discriminate|].
    intros [= <-]. right.
    apply (ista_loop_v_raises _ _ _ _ _ _ _ _ _ _ _ _ _ _ _ _ _ Hl).
  - intros [= <-]. left. auto.
Qed.

End Raises.

Lemma nan_error_not_configuration :
  nan_error <> ValueError LCA.invalid_mode_message.
Proof. intros E. vm_compute in E. discriminate E. Qed.

(** ** The shape of the result *)

Section Shapes.
Context {R : Type} `{Backend R}.

Lemma concat1_unsqueeze1_shape (cs x : tensor R) (b k n : nat) :
  shape cs = [b; k; n] -> shape (concat1 cs (unsqueeze1 x)) = [b; k + 1; n].
Proof. unfold concat1, unsqueeze1, dim0. simpl. intros ->. reflexivity. Qed.

Lemma lca_loop_shape (self : LCA.t R) (bb G : tensor R) (chk : bool) :
  forall (n : nat) (u cs u' cs' : tensor R) (b k nb : nat),
    shape cs = [b; k; nb] ->
    LCA.loop self bb G chk n u cs = Ok (u', cs') ->
    exists k', shape cs' = [b; k'; nb] /\ k <= k' <= k + n
               /\ (LCA.mode_is self "none" = true -> k' = k).
Proof.
  induction n as [|n IH]; intros u cs u' cs' b k nb Hsh; cbn [LCA.loop].
  - intros [= <- <-]. exists k. repeat split; [exact Hsh | lia | lia].
  - set (cs1 := if negb (LCA.mode_is self "none") then _ else cs).
    assert (exists k1, shape cs1 = [b; k1; nb] /\ k <= k1 <= k + 1
                       /\ (LCA.mode_is self "none" = true -> k1 = k))
      as (k1 & Hsh1 & Hk1 & Hnone1).
    { subst cs1. destruct (LCA.mode_is self "none"); simpl.
      - exists k. repeat split; [exact Hsh | lia | lia].
      - exists (k + 1). destruct (LCA.mode_is self "active");
          (repeat split; [apply concat1_unsqueeze1_shape, Hsh | lia | lia | discriminate]). }
    destruct (_ && _).
    + intros [= <- <-]. exists k1. repeat split; [exact Hsh1 | lia | lia | exact Hnone1].
    + destruct (if chk then _ else _); [|discriminate].
      intros Hl. destruct (IH _ _ _ _ _ _ _ Hsh1 Hl) as (k' & Hsh' & Hk' & Hnone').
      exists k'. repeat split; [exact Hsh' | lia | lia |].
      intros Hm. rewrite (Hnone' Hm). apply Hnone1, Hm.
Qed.

(** The shape of what [LCA.infer] returns: the batch size, the length of the
    log and the number of atoms, without those that are one. *)
Lemma lca_infer_shape (data dictionary : obj R) (c0 : option loc) (chk : bool)
    (u0 : tensor R) (w : world R rng_state (LCA.t R)) :
  warm_start (w_heap w) c0 (zeros [dim0 (value data); dim1 (value dictionary)]) u0 ->
  wp (LCA.infer data dictionary c0 chk) (fun e => chk = true /\ e = nan_error)
     (fun r _ =>
        exists len,
          shape r = filter (fun d => d <> 1)
                      [dim0 (value data); len; dim1 (value dictionary)]
          /\ 1 <= len <= LCA.n_iter (w_self w) + 1
          /\ (LCA.mode_is (w_self w) "none" = true -> len = 1))
     w.
Proof.
  intros Hc0. eapply wp_mono; [apply lca_infer_wp, Hc0 | |].
  - intros e. apply lca_infer_v_raises.
  - simpl. intros r w' (Hv & _). unfold lca_infer_v in Hv.
    destruct (LCA.loop _ _ _ _ _ _ _) as [[u cs]|e] eqn:Hl; [|discriminate].
    eapply lca_loop_shape in Hl as (k & Hsh & Hk & Hnone); [|reflexivity].
    injection Hv as <-. exists (k + 1). simpl fst. simpl snd. split.
    + unfold squeeze. cbn [shape]. f_equal.
      destruct (LCA.mode_is (w_self w) "membrane");
        apply concat1_unsqueeze1_shape, Hsh.
    + split; [lia|]. intros Hm. rewrite (Hnone Hm). reflexivity.
Qed.

Lemma vanilla_loop_shape (self : Vanilla.t R) (samples dictionary : tensor R)
    (chk : bool) :
  forall (n : nat) (a residual cs a' cs' : tensor R) (b k nb : nat),
    shape cs = [b; k; nb] ->
    Vanilla.loop self samples dictionary chk n a residual cs = Ok (a', cs') ->
    exists k', shape cs' = [b; k'; nb] /\ k <= k' <= k + n
               /\ (Vanilla.return_all_coefficients self = false -> k' = k).
Proof.
  induction n as [|n IH]; intros a residual cs a' cs' b k nb Hsh; cbn [Vanilla.loop].
  - intros [= <- <-]. exists k. repeat split; [exact Hsh | lia | lia].
  - set (cs1 := if Vanilla.return_all_coefficients self then _ else cs).
    assert (exists k1, shape cs1 = [b; k1; nb] /\ k <= k1 <= k + 1
                       /\ (Vanilla.return_all_coefficients self = false -> k1 = k))
      as (k1 & Hsh1 & Hk1 & Hoff1).
    { subst cs1. destruct (Vanilla.return_all_coefficients self).
      - exists (k + 1).
        repeat split; [apply concat1_unsqueeze1_shape, Hsh | lia | lia | discriminate].
      - exists k. repeat split; [exact Hsh | lia | lia]. }
    destruct (_ && _).
    + intros [= <- <-]. exists k1. repeat split; [exact Hsh1 | lia | lia | exact Hoff1].
    + destruct (if chk then _ else _); [|discriminate].
      intros Hl. destruct (IH _ _ _ _ _ _ _ _ Hsh1 Hl) as (k' & Hsh' & Hk' & Hoff').
      exists k'. repeat split; [exact Hsh' | lia | lia |].
      intros Hm. rewrite (Hoff' Hm). apply Hoff1, Hm.
Qed.

Lemma vanilla_infer_shape (data dictionary : obj R) (c0 : option loc) (chk : bool)
    (a0 : tensor R) (w : world R rng_state (Vanilla.t R)) :
  warm_start (w_heap w) c0
    (vanilla_start (w_rng w) (dim0 (value data)) (dim1 (value dictionary))) a0 ->
  wp (Vanilla.infer data dictionary c0 chk) (fun e => chk = true /\ e = nan_error)
     (fun r _ =>
        exists len,
          shape r = filter (fun d => d <> 1)
                      [dim0 (value data); len; dim1 (value dictionary)]
          /\ 1 <= len <= Vanilla.n_iter (w_self w) + 1
          /\ (Vanilla.return_all_coefficients (w_self w) = false -> len = 1))
     w.
Proof.
  intros Hc0. eapply wp_mono; [apply vanilla_infer_wp, Hc0 | |].
  - intros e. apply vanilla_infer_v_raises.
  - simpl. intros r w' (Hv & _). unfold vanilla_infer_v in Hv.
    destruct (Vanilla.loop _ _ _ _ _ _ _ _) as [[a cs]|e] eqn:Hl; [|discriminate].
    eapply vanilla_loop_shape in Hl as (k & Hsh & Hk & Hoff); [|reflexivity].
    injection Hv as <-. exists (k + 1). simpl fst. simpl snd. split.
    + unfold squeeze. cbn [shape]. f_equal. apply concat1_unsqueeze1_shape, Hsh.
    + split; [lia|]. intros Hm. rewrite (Hoff Hm). reflexivity.
Qed.

Lemma ista_loop_v_shape (ra se : bool) (eps th stepsize : R) (chk : bool) :
  forall (n : nat) (lk ad aD : bool)
         (samples dictionary u sc residual cs cs' sc' : tensor R) (b k nb : nat),
    shape cs = [b; k; nb] ->
    ista_loop_v ra se eps th stepsize chk n lk ad aD samples dictionary u sc
      residual cs = Ok (cs', sc') ->
    exists k', shape cs' = [b; k'; nb] /\ k <= k' <= k + n
               /\ (ra = false -> k' = k).
Proof.
  induction n as [|n IH];
    intros lk ad aD samples dictionary u sc residual cs cs' sc' b k nb Hsh;
    cbn [ista_loop_v].
  - intros [= <- <-]. exists k. repeat split; [exact Hsh | lia | lia].
  - set (cs1 := if ra then _ else cs).
    assert (exists k1, shape cs1 = [b; k1; nb] /\ k <= k1 <= k + 1
                       /\ (ra = false -> k1 = k))
      as (k1 & Hsh1 & Hk1 & Hoff1).
    { subst cs1. destruct ra.
      - exists (k + 1).
        repeat split; [apply concat1_unsqueeze1_shape, Hsh | lia | lia | discriminate].
      - exists k. repeat split; [exact Hsh | lia | lia]. }
    destruct lk; [discriminate|].
    destruct (_ && _).
    + intros [= <- <-]. exists k1. repeat split; [exact Hsh1 | lia | lia | exact Hoff1].
    + destruct (if chk then _ else _); [|discriminate].
      intros Hl.
      destruct (IH _ _ _ _ _ _ _ _ _ _ _ _ _ _ Hsh1 Hl) as (k' & Hsh' & Hk' & Hoff').
      exists k'. repeat split; [exact Hsh' | lia | lia |].
      intros Hm. rewrite (Hoff' Hm). apply Hoff1, Hm.
Qed.

Lemma ista_infer_raises (ld lD : loc) (x d : obj R) (c0 : option loc) (chk : bool)
    (u0 : tensor R) (w : world R rng_state (ISTA.t R)) (e : exn) :
  ista_infer_v (w_self w) (value x) (value d) u0
    (ista_locked (w_heap w) c0 (device d))
    (ista_alias (w_heap w) c0 (device d) ld)
    (ista_alias (w_heap w) c0 (device d) lD) chk = Raise e ->
  ista_raises (w_heap w) c0 (device d) (ISTA.n_iter (w_self w)) chk e.
Proof.
  intros [[-> _]|[(Hl & Hn & ->)|(_ & Hc & ->)]]%ista_infer_v_raises;
    unfold ista_raises; auto.
Qed.

Lemma ista_infer_shape (ld lD : loc) (x d : obj R) (c0 : option loc) (chk : bool)
    (u0 : tensor R) (w : world R rng_state (ISTA.t R)) :
  w_heap w !! ld = Some x ->
  w_heap w !! lD = Some d ->
  warm_start (w_heap w) c0 (zeros [dim0 (value x); dim1 (value d)]) u0 ->
  wp (ISTA.infer ld lD c0 chk)
     (ista_raises (w_heap w) c0 (device d) (ISTA.n_iter (w_self w)) chk)
     (fun r _ =>
        exists len,
          shape r = filter (fun k => k <> 1) [dim0 (value x); len; dim1 (value d)]
          /\ 1 <= len <= ISTA.n_iter (w_self w) + 1
          /\ (ISTA.return_all_coefficients (w_self w) = false -> len = 1))
     w.
Proof.
  intros Hx HD Hc0. eapply wp_mono; [apply ista_infer_wp; eassumption | |].
  - intros e. apply ista_infer_raises.
  - simpl. intros r w' (Hv & _). unfold ista_infer_v in Hv.
    destruct (ISTA.lipschitz_constant _); [|discriminate].
    destruct (ista_loop_v _ _ _ _ _ _ _ _ _ _ _ _ _ _ _ _) as [[cs sc]|e] eqn:Hl;
      [|discriminate].
    eapply ista_loop_v_shape in Hl as (k & Hsh & Hk & Hoff); [|reflexivity].
    injection Hv as <-. exists (k + 1). simpl fst. simpl snd. split.
    + unfold squeeze. cbn [shape]. f_equal. apply concat1_unsqueeze1_shape, Hsh.
    + split; [lia|]. intros Hm. rewrite (Hoff Hm). reflexivity.
Qed.

(** Where no dimension is one, [squeeze] removes nothing. *)
Lemma squeeze_shape_matrix (b n : nat) :
  b <> 1 -> n <> 1 -> filter (fun d => d <> 1) [b; 1; n] = [b; n].
Proof.
  intros Hb Hn. rewrite filter_cons, decide_True by exact Hb.
  rewrite filter_cons, decide_False by (intros Hne; apply Hne; reflexivity).
  rewrite filter_cons, decide_True by exact Hn. reflexivity.
Qed.

Lemma squeeze_shape_log (b len n : nat) :
  b <> 1 -> len <> 1 -> n <> 1 -> filter (fun d => d <> 1) [b; len; n] = [b; len; n].
Proof.
  intros Hb Hl Hn. rewrite filter_cons, decide_True by exact Hb.
  rewrite filter_cons, decide_True by exact Hl.
  rewrite filter_cons, decide_True by exact Hn. reflexivity.
Qed.
End Shapes.

(** C1, at failing inputs.  On a batch of one sample without logging, the
    three solvers that end in [squeeze] return a vector of shape
    [(n_basis,)], not a matrix of shape [(1, n_basis)]; and with logging on
    and no iteration, [LCA] returns the shape [(batch, n_basis)] where the
    log has one entry. *)
Theorem infer_shape_squeezed :
  dim0 (value Demo.data12) = 1
  /\ (exists r w',
        LCA.infer Demo.data12 Demo.dict23 None false (Demo.world0 Demo.lca_none)
        = Ok (r, w')
        /\ shape r = [3] /\ shape r <> [1; 3])
  /\ (exists r w',
        Vanilla.infer Demo.data12 Demo.dict23 None false
          (Demo.world0 Demo.vanilla_plain) = Ok (r, w')
        /\ shape r = [3] /\ shape r <> [1; 3])
  /\ (exists r w',
        @ISTA.infer Qc Exact.scalar Reference.backend 0 1 None false
          (Demo.world2 Demo.ista_plain Demo.data12 Demo.eye2) = Ok (r, w')
        /\ shape r = [2] /\ shape r <> [1; 2])
  /\ (exists r w',
        LCA.infer Demo.data22 Demo.dict23 None false (Demo.world0 Demo.lca_membrane)
        = Ok (r, w')
        /\ shape r = [2; 3] /\ shape r <> [2; 1; 3]).
Proof.
  split; [reflexivity|].
  repeat split; eexists; eexists;
    (split; [vm_compute; reflexivity | split; [reflexivity | discriminate]]).
Qed.

(** ** The soft threshold *)

Section SoftThreshold.
Context {R : Type} `{IdealArith R}.

Lemma clamp_sub_le (x th : R) :
  leb x th = true -> clamp_min zero (sub x th) = zero.
Proof.
  unfold leb, clamp_min. intros Hle. apply negb_true_iff in Hle.
  destruct (ltb (sub x th) zero) eqn:Hneg; [reflexivity|].
  apply ltb_trichotomy; [exact Hneg|]. rewrite sub_pos_iff. exact Hle.
Qed.

Lemma clamp_sub_gt (x th : R) :
  ltb th x = true -> clamp_min zero (sub x th) = sub x th.
Proof.
  unfold clamp_min. intros Hgt.
  rewrite (ltb_asym zero (sub x th)); [reflexivity|].
  rewrite sub_pos_iff. exact Hgt.
Qed.

(** The value the nonlinearity gives to an entry [x]. *)
Lemma soft_threshold_entry (th : R) (u : tensor R) (k : nat) (x : R) :
  data u !! k = Some x ->
  data (ISTA.soft_threshold th u) !! k
  = Some (mul (sign x) (clamp_min zero (sub (absR x) th))).
Proof.
  intros Hk. unfold ISTA.soft_threshold, tmul, tzip, tsign, tabs, tmap. simpl.
  rewrite lookup_zip_with.
  change (map sign (data u)) with (sign <$> data u).
  change (map (clamp_min zero) (map (fun x0 => sub x0 th) (map absR (data u))))
    with (clamp_min zero <$> ((fun x0 => sub x0 th) <$> (absR <$> data u))).
  rewrite !list_lookup_fmap, Hk. reflexivity.
Qed.

Lemma soft_threshold_cases (th x : R) :
  let y := mul (sign x) (clamp_min zero (sub (absR x) th)) in
  (leb (absR x) th = true -> y = zero)
  /\ (ltb th (absR x) = true -> y = mul (sign x) (sub (absR x) th)).
Proof.
  simpl. split.
  - intros Hle. rewrite clamp_sub_le by exact Hle. apply mul_zero_r.
  - intros Hgt. rewrite clamp_sub_gt by exact Hgt. reflexivity.
Qed.
End SoftThreshold.

(** C2.  In exact arithmetic, for every tensor [u] and every threshold
    [theta >= 0], the soft threshold of [LCA] and of [ISTA] keeps the shape of
    [u], is zero at every entry [x] of [u] with [|x| <= theta], and is
    [sign(x) * (|x| - theta)] at every entry with [|x| > theta]. *)
Theorem soft_threshold_spec :
  forall (R : Type) (SR : Scalar R) (IA : IdealArith R)
         (theta : R) (u : tensor R) (k : nat) (x : R),
    leb zero theta = true ->
    data u !! k = Some x ->
    (forall self : LCA.t R, LCA.threshold self = theta ->
       shape (LCA.threshold_nonlinearity self u) = shape u /\
       exists y, data (LCA.threshold_nonlinearity self u) !! k = Some y
         /\ (leb (absR x) theta = true -> y = zero)
         /\ (ltb theta (absR x) = true -> y = mul (sign x) (sub (absR x) theta)))
    /\ (forall self : ISTA.t R, ISTA.threshold self = Some theta ->
       exists a, ISTA.threshold_nonlinearity self u = Ok a /\
       shape a = shape u /\
       exists y, data a !! k = Some y
         /\ (leb (absR x) theta = true -> y = zero)
         /\ (ltb theta (absR x) = true -> y = mul (sign x) (sub (absR x) theta))).
Proof.
  intros R SR IA theta u k x _ Hk. split.
  - intros self Hth. split; [reflexivity|].
    exists (mul (sign x) (clamp_min zero (sub (absR x) theta))). split.
    + change (LCA.threshold_nonlinearity self u)
        with (ISTA.soft_threshold (LCA.threshold self) u).
      rewrite Hth. apply soft_threshold_entry, Hk.
    + apply soft_threshold_cases.
  - intros self Hth. unfold ISTA.threshold_nonlinearity. rewrite Hth.
    eexists. split; [reflexivity|]. split; [reflexivity|].
    exists (mul (sign x) (clamp_min zero (sub (absR x) theta))). split.
    + apply soft_threshold_entry, Hk.
    + apply soft_threshold_cases.
Qed.


(** Witness of [soft_threshold_spec]: threshold 1/10 on the entry 1/2. *)
Lemma soft_threshold_spec_witness :
  leb zero (Demo.q 1 10) = true
  /\ data Demo.u12 !! 0 = Some (Demo.q 1 2)
  /\ exists y, data (LCA.threshold_nonlinearity Demo.lca_none Demo.u12) !! 0 = Some y
       /\ y = mul (sign (Demo.q 1 2)) (sub (absR (Demo.q 1 2)) (Demo.q 1 10)).
Proof.
  assert (leb zero (Demo.q 1 10) = true) as Hth by (vm_compute; reflexivity).
  assert (data Demo.u12 !! 0 = Some (Demo.q 1 2)) as Hk by reflexivity.
  split; [exact Hth|]. split; [exact Hk|].
  destruct (soft_threshold_spec Qc _ _ (Demo.q 1 10) Demo.u12 0 (Demo.q 1 2) Hth Hk)
    as [HL _].
  destruct (HL Demo.lca_none eq_refl) as (_ & y & Hy & _ & Hgt).
  exists y. split; [exact Hy | apply Hgt; vm_compute; reflexivity].
Defined.

(** ** The step size of ISTA *)

(** C3 (as amended).  In exact arithmetic, for every dictionary for which
    the largest eigenvalue of [D^T D] is not zero, the step size of
    [ISTA.infer] times that eigenvalue is one.  A call on such a dictionary
    that stops neither on the NaN guard nor on a subtraction in place that
    autograd refuses (a warm start on the device of the dictionary that is a
    leaf requiring grad) leaves [stepsize * sparsity_penalty] in
    [self.threshold], and what it returns is what the iteration computes
    with the soft threshold at that value. *)
Theorem ista_stepsize_and_threshold :
  forall (R : Type) (SR : Scalar R) (IA : IdealArith R) (BR : Backend R)
         (ld lD : loc) (data dictionary : obj R) (c0 : option loc) (chk : bool)
         (u0 : tensor R) (w : world R rng_state (ISTA.t R)) (lipschitz : R),
    w_heap w !! ld = Some data ->
    w_heap w !! lD = Some dictionary ->
    ISTA.lipschitz_constant (value dictionary) = Ok lipschitz ->
    lipschitz <> zero ->
    warm_start (w_heap w) c0 (zeros [dim0 (value data); dim1 (value dictionary)]) u0 ->
    let stepsize := ISTA.stepsize_of lipschitz in
    let th := mul stepsize (ISTA.sparsity_penalty (w_self w)) in
    stepsize = div one lipschitz
    /\ mul stepsize lipschitz = one
    /\ wp (ISTA.infer ld lD c0 chk)
         (fun e =>
            (e = RuntimeError
             /\ ista_locked (w_heap w) c0 (device dictionary) = true
             /\ ISTA.n_iter (w_self w) <> 0)
            \/ (chk = true /\ e = nan_error))
         (fun r w' =>
            ISTA.threshold (w_self w') = Some th
            /\ exists cs,
                 ista_loop_v (ISTA.return_all_coefficients (w_self w))
                   (ISTA.stop_early (w_self w)) (ISTA.epsilon (w_self w)) th
                   stepsize chk (ISTA.n_iter (w_self w))
                   (ista_locked (w_heap w) c0 (device dictionary))
                   (ista_alias (w_heap w) c0 (device dictionary) ld)
                   (ista_alias (w_heap w) c0 (device dictionary) lD)
                   (value data) (value dictionary) u0 (ISTA.soft_threshold th u0)
                   (ISTA.residual_of (value data) (value dictionary)
                      (ISTA.soft_threshold th u0))
                   (zeros [dim0 (value data); 0; dim1 (value dictionary)])
                 = Ok cs
                 /\ r = squeeze (concat1 (fst cs) (unsqueeze1 (clone (snd cs)))))
         w.
Proof.
  intros R SR IA BR ld lD data dictionary c0 chk u0 w lipschitz Hx HD HL Hnz Hc0
         stepsize th.
  split; [reflexivity|]. split; [apply div_mul_cancel, Hnz|].
  eapply wp_mono; [apply ista_infer_wp; eassumption | |].
  - intros e [[_ HL']|[He|(_ & He)]]%ista_infer_v_raises;
      [congruence | left; tauto | right; exact He].
  - simpl. intros r w' (Hv & (lipschitz' & HL' & Hth & _) & _).
    assert (lipschitz' = lipschitz) as -> by congruence.
    split; [exact Hth|].
    unfold ista_infer_v in Hv. rewrite HL in Hv.
    fold stepsize th in Hv.
    destruct (ista_loop_v _ _ _ _ _ _ _ _ _ _ _ _ _ _ _ _) as [cs|e]; [|discriminate].
    exists cs. split; [reflexivity|]. congruence.
Qed.

(** Witness of [ista_stepsize_and_threshold]: the identity dictionary, whose
    largest eigenvalue is one. *)
Lemma ista_stepsize_and_threshold_witness :
  let w := Demo.world2 Demo.ista_plain Demo.data22 Demo.eye2 in
  w_heap w !! 0 = Some Demo.data22
  /\ w_heap w !! 1 = Some Demo.eye2
  /\ ISTA.lipschitz_constant (value Demo.eye2) = Ok (Demo.q 1 1)
  /\ Demo.q 1 1 <> zero
  /\ mul (ISTA.stepsize_of (Demo.q 1 1)) (Demo.q 1 1) = one.
Proof.
  intros w.
  assert (w_heap w !! 0 = Some Demo.data22) as Hx by reflexivity.
  assert (w_heap w !! 1 = Some Demo.eye2) as HD by reflexivity.
  assert (ISTA.lipschitz_constant (value Demo.eye2) = Ok (Demo.q 1 1)) as HL
    by (vm_compute; reflexivity).
  assert (Demo.q 1 1 <> zero) as Hnz by discriminate.
  split; [exact Hx|]. split; [exact HD|]. split; [exact HL|]. split; [exact Hnz|].
  apply (ista_stepsize_and_threshold Qc Exact.scalar exact_ideal Reference.backend
           0 1 Demo.data22 Demo.eye2 None false
           (zeros [dim0 (value Demo.data22); dim1 (value Demo.eye2)])
           w (Demo.q 1 1) Hx HD HL Hnz eq_refl).
Defined.

(** C3, counterexample.  For the dictionary [[0]] the largest eigenvalue of
    [D^T D] is zero, the step size is infinite, and their product is NaN, not
    one. *)
Lemma ista_stepsize_zero_dictionary :
  let dictionary := mkT [1; 1] [Extended.Fin (Demo.q 0 1)] in
  exists lipschitz,
    ISTA.lipschitz_constant dictionary = Ok lipschitz
    /\ lipschitz = zero
    /\ ISTA.stepsize_of lipschitz = Extended.Inf false
    /\ mul (ISTA.stepsize_of lipschitz) lipschitz = Extended.NaN
    /\ mul (ISTA.stepsize_of lipschitz) lipschitz <> one.
Proof.
  eexists. split; [vm_compute; reflexivity|].
  split; [vm_compute; f_equal; apply Qc_is_canon; reflexivity|].
  split; [vm_compute; reflexivity|].
  split; [vm_compute; reflexivity|].
  vm_compute. discriminate.
Qed.

(** ** The NaN guard *)

(** C4 (as amended).  [checknan] raises exactly when some entry of the
    tensor is NaN; the error is a [ValueError] whose message is
    "InferenceMethod error: nan in <name>."; on a tensor without NaN it
    returns.  Entries that are infinite do not count. *)
Theorem checknan_raises_iff_nan :
  forall (R : Type) (SR : Scalar R) (t : tensor R) (name : string),
    (InferenceMethod.checknan t name
       = Raise (ValueError ("InferenceMethod error: nan in " ++ name ++ "."))
     <-> exists x, In x (data t) /\ isnan x = true)
    /\ (InferenceMethod.checknan t name = Ok tt
        <-> forall x, In x (data t) -> isnan x = false).
Proof.
  intros R SR t name. rewrite <- any_isnan_true.
  destruct (checknan_cases t name) as [[Hn Hc]|[Hn Hc]]; rewrite Hc, Hn.
  - split; [split; auto|]. split; [discriminate|].
    intros Hall. apply any_isnan_true in Hn as (x & Hx & Hnan).
    rewrite (Hall x Hx) in Hnan. discriminate.
  - split; [split; discriminate|]. split; [|reflexivity].
    intros _ x Hx. destruct (isnan x) eqn:Hnan; [|reflexivity].
    assert (any_isnan t = true) as Ht by (apply any_isnan_true; eauto).
    congruence.
Qed.

(** C4, counterexample.  A tensor whose only entry is positive infinity has
    an entry that is not finite, and [checknan] returns on it. *)
Lemma checknan_ignores_infinity :
  let t := mkT [1] [Extended.Inf false] in
  (exists x, In x (data t) /\ isfinite x = false)
  /\ InferenceMethod.checknan t "data" = Ok tt.
Proof.
  split; [|reflexivity].
  exists (Extended.Inf false). split; [left; reflexivity | reflexivity].
Qed.

(** ** Configuration errors *)

Section Configuration.
Context {R : Type} `{Backend R}.

Lemma lca_init_cases (n : nat) (lr th : R) (se : bool) (eps : R)
    (solver : option string) (mode : pystr) :
  (In (chars mode) LCA.valid_modes /\
   LCA.__init__ n lr th se eps solver mode = Ok (LCA.mk solver th lr se eps n mode))
  \/ (~ In (chars mode) LCA.valid_modes /\
      LCA.__init__ n lr th se eps solver mode
      = Raise (ValueError LCA.invalid_mode_message)).
Proof.
  unfold LCA.__init__.
  destruct (existsb (String.eqb (chars mode)) LCA.valid_modes) eqn:Hex; simpl.
  - left. split; [|reflexivity].
    apply existsb_exists in Hex as (m & Hin & Heq%String.eqb_eq).
    rewrite Heq. exact Hin.
  - right. split; [|reflexivity]. intros Hin.
    assert (existsb (String.eqb (chars mode)) LCA.valid_modes = true) as Ht
      by (apply existsb_exists; exists (chars mode);
          split; [exact Hin | apply String.eqb_refl]).
    congruence.
Qed.

Lemma lca_infer_no_configuration_error (data dictionary : obj R) (c0 : option loc)
    (chk : bool) (w : world R rng_state (LCA.t R)) :
  wp (LCA.infer data dictionary c0 chk)
     (fun e => e <> ValueError LCA.invalid_mode_message) (fun _ _ => True) w.
Proof.
  assert (forall e u0,
            lca_infer_v (w_self w) (value data) (value dictionary) u0 chk = Raise e ->
            e <> ValueError LCA.invalid_mode_message) as Hv.
  { intros e u0 [_ ->]%lca_infer_v_raises. apply nan_error_not_configuration. }
  destruct c0 as [c|]; [destruct (w_heap w !! c) as [o|] eqn:Hc|].
  - eapply wp_mono; [apply (lca_infer_wp _ _ _ _ (value o)); simpl; eauto | | auto].
    intros e. apply Hv.
  - unfold wp. rewrite lca_infer_dangling by exact Hc. discriminate.
  - eapply wp_mono; [apply lca_infer_wp; reflexivity | | auto].
    intros e. apply Hv.
Qed.

Lemma vanilla_infer_no_configuration_error (data dictionary : obj R)
    (c0 : option loc) (chk : bool) (w : world R rng_state (Vanilla.t R)) :
  wp (Vanilla.infer data dictionary c0 chk)
     (fun e => e <> ValueError LCA.invalid_mode_message) (fun _ _ => True) w.
Proof.
  assert (forall e a0,
            vanilla_infer_v (w_self w) (value data) (value dictionary) a0 chk = Raise e ->
            e <> ValueError LCA.invalid_mode_message) as Hv.
  { intros e a0 [_ ->]%vanilla_infer_v_raises. apply nan_error_not_configuration. }
  destruct c0 as [c|]; [destruct (w_heap w !! c) as [o|] eqn:Hc|].
  - eapply wp_mono; [apply (vanilla_infer_wp _ _ _ _ (value o)); simpl; eauto | | auto].
    intros e. apply Hv.
  - unfold wp. rewrite vanilla_infer_dangling by exact Hc. discriminate.
  - eapply wp_mono; [apply vanilla_infer_wp; reflexivity | | auto].
    intros e. apply Hv.
Qed.

Lemma ista_infer_no_configuration_error (ld lD : loc) (c0 : option loc)
    (chk : bool) (w : world R rng_state (ISTA.t R)) :
  wp (ISTA.infer ld lD c0 chk)
     (fun e => e <> ValueError LCA.invalid_mode_message) (fun _ _ => True) w.
Proof.
  assert (forall e x d u0 lk ad aD,
            ista_infer_v (w_self w) x d u0 lk ad aD chk = Raise e ->
            e <> ValueError LCA.invalid_mode_message) as Hv.
  { intros e x d u0 lk ad aD [[-> _]|[(_ & _ & ->)|(_ & _ & ->)]]%ista_infer_v_raises;
      [discriminate | discriminate | apply nan_error_not_configuration]. }
  assert (forall e, outcome (ISTA.infer ld lD c0 chk w) = Raise e ->
                    e = InvalidReference \/ e = IndexError ->
                    wp (ISTA.infer ld lD c0 chk)
                       (fun e => e <> ValueError LCA.invalid_mode_message)
                       (fun _ _ => True) w) as Hd.
  { intros e He Hcase. unfold wp. unfold outcome in He.
    destruct (ISTA.infer ld lD c0 chk w) as [[r w']|e']; [exact I|].
    injection He as ->. destruct Hcase as [->| ->]; discriminate. }
  destruct (w_heap w !! ld) as [x|] eqn:Hx;
    [|destruct (ista_infer_dangling ld lD c0 chk w) as (e & He & Hcase); [auto|];
      apply (Hd e); [unfold outcome; rewrite He; reflexivity | exact Hcase]].
  destruct (w_heap w !! lD) as [d|] eqn:HD;
    [|destruct (ista_infer_dangling ld lD c0 chk w) as (e & He & Hcase); [auto|];
      apply (Hd e); [unfold outcome; rewrite He; reflexivity | exact Hcase]].
  destruct c0 as [c|]; [destruct (w_heap w !! c) as [o|] eqn:Hc|].
  - eapply wp_mono;
      [apply (ista_infer_wp _ _ x d _ _ (value o)); simpl; eauto | | auto].
    intros e. apply Hv.
  - destruct (ista_infer_dangling ld lD (Some c) chk w) as (e & He & Hcase);
      [right; right; eauto|].
    apply (Hd e); [unfold outcome; rewrite He; reflexivity | exact Hcase].
  - eapply wp_mono; [apply (ista_infer_wp _ _ x d); eauto; reflexivity | | auto].
    intros e. apply Hv.
Qed.

Lemma non_leaf_error_not_configuration :
  non_leaf_error <> ValueError LCA.invalid_mode_message.
Proof. intros E. vm_compute in E. discriminate E. Qed.

Lemma pto_infer_no_configuration_error (ld lD : loc) (c0 : option loc)
    (w : world R rng_state (PyTorchOptimizer.t R)) :
  wp (PyTorchOptimizer.infer ld lD c0)
     (fun e => e <> ValueError LCA.invalid_mode_message) (fun _ _ => True) w.
Proof.
  destruct (w_heap w !! ld) as [x|] eqn:Hx;
    [|unfold wp; rewrite pto_infer_dangling by auto; discriminate].
  destruct (w_heap w !! lD) as [d|] eqn:HD;
    [|unfold wp; rewrite pto_infer_dangling by auto; discriminate].
  destruct c0 as [c|]; [destruct (w_heap w !! c) as [o|] eqn:Hc|].
  - eapply wp_mono;
      [apply (pto_infer_wp _ _ x d _ (value o)); simpl; eauto | | auto].
    intros e [-> _]. apply non_leaf_error_not_configuration.
  - unfold wp. rewrite pto_infer_dangling by (right; right; eauto). discriminate.
  - eapply wp_mono; [apply (pto_infer_wp _ _ x d); eauto; reflexivity | | auto].
    intros e [-> _]. apply non_leaf_error_not_configuration.
Qed.
End Configuration.

(** C5 (as amended).  The constructor of [LCA] raises the
    invalid-configuration error exactly when [return_all_coefficients] is
    not one of 'none', 'membrane', 'active', and builds the instance
    otherwise.  The constructors of [Vanilla], [ISTA], [LSM],
    [PyTorchOptimizer], [IHT], [MP] and [OMP] check nothing: they build an
    instance from any flag and any sparsity.  No [infer] raises the
    invalid-configuration error. *)
Theorem configuration_errors :
  forall (R : Type) (SR : Scalar R) (BR : Backend R),
    (forall n (lr th : R) se (eps : R) solver (mode : pystr),
        (In (chars mode) ["none"; "membrane"; "active"]%string ->
         LCA.__init__ n lr th se eps solver mode
         = Ok (LCA.mk solver th lr se eps n mode))
        /\ (~ In (chars mode) ["none"; "membrane"; "active"]%string ->
            LCA.__init__ n lr th se eps solver mode
            = Raise (ValueError LCA.invalid_mode_message)))
    /\ (forall n (lr sp : R) se (eps : R) solver flag,
          Vanilla.__init__ n lr sp se eps solver flag
          = Ok (Vanilla.mk solver lr sp se eps n flag))
    /\ (forall n (sp : R) se (eps : R) solver flag,
          ISTA.__init__ n sp se eps solver flag
          = Ok (ISTA.mk solver n sp se eps None flag None))
    /\ (forall n n_lsm (beta alpha sigma st : R) solver flag,
          LSM.__init__ n n_lsm beta alpha sigma st solver flag
          = Ok (LSM.mk solver n n_lsm beta alpha sigma st flag))
    /\ (forall (opt : optimizer R) loss n solver,
          PyTorchOptimizer.__init__ opt loss n solver
          = Ok (PyTorchOptimizer.mk solver opt loss n))
    /\ (forall (sparsity : R) n solver flag,
          IHT.__init__ sparsity n solver flag = Ok (IHT.mk solver n sparsity flag))
    /\ (forall (sparsity : R) solver flag,
          MP.__init__ sparsity solver flag = Ok (MP.mk solver sparsity flag))
    /\ (forall (sparsity : R) solver flag,
          OMP.__init__ sparsity solver flag = Ok (OMP.mk solver sparsity flag))
    /\ (forall (data dictionary : obj R) (ld lD : loc) c0 chk,
          let E := fun e => e <> ValueError LCA.invalid_mode_message in
          (forall w, wp (LCA.infer data dictionary c0 chk) E (fun _ _ => True) w)
          /\ (forall w, wp (Vanilla.infer data dictionary c0 chk) E (fun _ _ => True) w)
          /\ (forall w, wp (ISTA.infer ld lD c0 chk) E (fun _ _ => True) w)
          /\ (forall w, wp (PyTorchOptimizer.infer ld lD c0) E (fun _ _ => True) w)
          /\ (forall w, wp (LSM.infer data dictionary) E (fun _ _ => True) w)
          /\ (forall w, wp (IHT.infer data dictionary) E (fun _ _ => True) w)
          /\ (forall w, wp (MP.infer data dictionary) E (fun _ _ => True) w)
          /\ (forall w, wp (OMP.infer data dictionary) E (fun _ _ => True) w)).
Proof.
  intros R SR BR.
  split.
  { intros n lr th se eps solver mode.
    destruct (lca_init_cases n lr th se eps solver mode) as [[Hin ->]|[Hout ->]];
      split; intros Hm; first [reflexivity | contradiction]. }
  do 7 (split; [reflexivity|]).
  intros data dictionary ld lD c0 chk E. subst E.
  split; [intros w; apply lca_infer_no_configuration_error|].
  split; [intros w; apply vanilla_infer_no_configuration_error|].
  split; [intros w; apply ista_infer_no_configuration_error|].
  split; [intros w; apply pto_infer_no_configuration_error|].
  repeat split; intros w; exact I.
Qed.

(** Witness of [configuration_errors]: the constructor of [LCA] on a flag
    that is not a mode, and on the mode 'active'. *)
Lemma configuration_errors_witness :
  ~ In "every"%string ["none"; "membrane"; "active"]%string
  /\ LCA.__init__ 100 (Demo.q 1 1000) (Demo.q 1 10) false (Demo.q 1 100) None
       (literal "every")
     = Raise (ValueError LCA.invalid_mode_message)
  /\ In "active"%string ["none"; "membrane"; "active"]%string
  /\ LCA.__init__ 100 (Demo.q 1 1000) (Demo.q 1 10) false (Demo.q 1 100) None
       (literal "active")
     = Ok (LCA.mk None (Demo.q 1 10) (Demo.q 1 1000) false (Demo.q 1 100) 100
             (literal "active")).
Proof.
  assert (~ In "every"%string ["none"; "membrane"; "active"]%string) as Hout
    by (intros [E|[E|[E|[]]]]; discriminate E).
  assert (In "active"%string ["none"; "membrane"; "active"]%string) as Hin
    by (simpl; auto).
  pose proof (proj1 (configuration_errors Qc Exact.scalar Reference.backend)) as Hinit.
  split; [exact Hout|].
  split; [apply (Hinit 100 _ _ false _ None (literal "every")), Hout|].
  split; [exact Hin|]. apply (Hinit 100 _ _ false _ None (literal "active")), Hin.
Defined.

(** C5, counterexample.  The sparsity fractions 2 and -1/2 lie outside
    (0, 1], and the constructors of [IHT], [MP] and [OMP] build instances
    from them. *)
Lemma constructors_accept_any_sparsity :
  ltb one (Demo.q 2 1) = true
  /\ ltb (Demo.q (-1) 2) zero = true
  /\ IHT.__init__ (Demo.q 2 1) 10 None false = Ok (IHT.mk None 10 (Demo.q 2 1) false)
  /\ IHT.__init__ (Demo.q (-1) 2) 10 None false
     = Ok (IHT.mk None 10 (Demo.q (-1) 2) false)
  /\ MP.__init__ (Demo.q 2 1) None false = Ok (MP.mk None (Demo.q 2 1) false)
  /\ OMP.__init__ (Demo.q 2 1) None false = Ok (OMP.mk None (Demo.q 2 1) false).
Proof. repeat split; vm_compute; reflexivity. Qed.

(** ** The residual of OMP *)

Lemma Qc_list_eq (l1 l2 : list Qc) : map this l1 = map this l2 -> l1 = l2.
Proof.
  revert l2. induction l1 as [|x l1 IH]; intros [|y l2]; simpl; try discriminate.
  - reflexivity.
  - intros [= Hx Hl]. f_equal; [|apply IH, Hl].
    apply Qc_is_canon. rewrite Hx. reflexivity.
Qed.

Lemma tensor_Qc_eq (a b : tensor Qc) :
  shape a = shape b -> map this (data a) = map this (data b) -> a = b.
Proof.
  destruct a as [sa da], b as [sb db]. simpl. intros -> Hd.
  f_equal. apply Qc_list_eq, Hd.
Qed.

Lemma Qc_this_eq (x y : Qc) : this x = this y -> x = y.
Proof. intros Hxy. apply Qc_is_canon. rewrite Hxy. reflexivity. Qed.

(** C6, at the failing input.  Dictionary: the identity of size two; sample:
    (1, 0); sparsity 1, hence [K = 2].  The first step selects atom 0 and
    fits the sample exactly: the residual is zero.  The second step selects
    atom 0 again; the least-squares fit over the columns (0, 0) gives 1/2 to
    each copy, the indexed assignment keeps a single 1/2, and the residual is
    (1/2, 0): its norm has grown from 0 to 1/2.  The pseudo-inverses used are
    the true ones. *)
Theorem omp_residual_increases :
  let D := value Demo.eye2 in
  let y := clone (slice_row (value Demo.unit12) 0) in
  OMP.K Demo.omp_full (dim1 D) = 2%Z
  /\ penrose (gather_cols D [0]) (pinv (gather_cols D [0]))
  /\ penrose (gather_cols D [0; 0]) (pinv (gather_cols D [0; 0]))
  /\ OMP.indices (iterate 2 (OMP.step D (norm_dim0 D) y) (OMP.init_state y 2)) = [0; 0]
  /\ data (mm (pinv (gather_cols D [0; 0])) (transpose y)) = [Demo.q 1 2; Demo.q 1 2]
  /\ (exists r0 r1 r2,
        OMP.residuals D (norm_dim0 D) y 2 (OMP.init_state y 2) = [r0; r1; r2]
        /\ norm r0 = Demo.q 1 1 /\ norm r1 = Demo.q 0 1 /\ norm r2 = Demo.q 1 2
        /\ ltb (norm r1) (norm r2) = true)
  /\ (exists w',
        OMP.infer Demo.unit12 Demo.eye2 (Demo.world0 Demo.omp_full)
        = Ok (mkT [1; 2] [Demo.q 1 2; Demo.q 0 1], w')).
Proof.
  intros D y.
  split; [vm_compute; reflexivity|].
  split; [repeat split; apply tensor_Qc_eq; vm_compute; reflexivity|].
  split; [repeat split; apply tensor_Qc_eq; vm_compute; reflexivity|].
  split; [vm_compute; reflexivity|].
  split; [apply Qc_list_eq; vm_compute; reflexivity|].
  split.
  - eexists. eexists. eexists. split; [vm_compute; reflexivity|].
    split; [apply Qc_this_eq; vm_compute; reflexivity|].
    split; [apply Qc_this_eq; vm_compute; reflexivity|].
    split; [apply Qc_this_eq; vm_compute; reflexivity|].
    vm_compute. reflexivity.
  - eexists.
    assert (forall (a b : tensor Qc) (w1 w2 : world Qc Z (OMP.t Qc)),
              a = b -> w1 = w2 -> @Ok (tensor Qc * world Qc Z (OMP.t Qc)) (a, w1) = Ok (b, w2))
      as Hok by (intros; subst; reflexivity).
    cbv [OMP.infer bind get_self ret]. apply Hok; [|reflexivity].
    apply tensor_Qc_eq; vm_compute; reflexivity.
Qed.

(** ** Rows of matrices and the sparsity of IHT *)

Section Rows.
Context {R : Type} `{Scalar R}.

Lemma nth_tabulate (n : nat) (f : nat -> nat -> R) (d : R) :
  forall (m s i j : nat),
    i < m -> j < n ->
    nth (i * n + j) (flat_map (fun i => map (f i) (seq 0 n)) (seq s m)) d = f (s + i) j.
Proof.
  induction m as [|m IH]; intros s i j Hi Hj; [lia|].
  cbn [seq flat_map]. destruct i as [|i].
  - rewrite app_nth1 by (rewrite length_map, length_seq; lia).
    simpl. rewrite (nth_indep _ d (f s 0)) by (rewrite length_map, length_seq; lia).
    rewrite map_nth, seq_nth by lia. f_equal; lia.
  - rewrite app_nth2 by (rewrite length_map, length_seq; lia).
    rewrite length_map, length_seq.
    replace (S i * n + j - n) with (i * n + j) by lia.
    rewrite IH by lia. f_equal; lia.
Qed.

Lemma get2_tabulate2 (m n : nat) (f : nat -> nat -> R) (i j : nat) :
  i < m -> j < n -> get2 (tabulate2 m n f) i j = f i j.
Proof.
  intros Hi Hj. unfold get2, tabulate2, dim1. simpl.
  apply (nth_tabulate n f zero m 0 i j Hi Hj).
Qed.

Lemma row_tabulate2 (m n : nat) (f : nat -> nat -> R) (i : nat) :
  i < m -> row (tabulate2 m n f) i = map (f i) (seq 0 n).
Proof.
  intros Hi. unfold row. change (dim1 (tabulate2 m n f)) with n.
  apply map_ext_in. intros j Hj%in_seq. apply get2_tabulate2; lia.
Qed.

Lemma row_set_row (t coeff : tensor R) (i i' : nat) :
  i' < dim0 t ->
  row (set_row t i coeff) i'
  = if Nat.eqb i' i then map (fun j => nth j (data coeff) zero) (seq 0 (dim1 t))
    else row t i'.
Proof.
  intros Hi. unfold set_row. rewrite row_tabulate2 by exact Hi.
  destruct (Nat.eqb i' i); reflexivity.
Qed.

Lemma count_nonzero_cons (x : R) (l : list R) :
  count_nonzero (x :: l) = (if decide (x = zero) then 0 else 1) + count_nonzero l.
Proof.
  unfold count_nonzero. rewrite filter_cons.
  destruct (decide (x <> zero)) as [Hx|Hx]; destruct (decide (x = zero)); simpl;
    try reflexivity; try contradiction.
Qed.

Lemma count_nonzero_repeat (n : nat) : count_nonzero (repeat (zero : R) n) = 0.
Proof.
  induction n as [|n IH]; [reflexivity|]. cbn [repeat].
  rewrite count_nonzero_cons, IH. rewrite decide_True by reflexivity. reflexivity.
Qed.

Lemma count_nonzero_insert (l : list R) (i : nat) (v : R) :
  count_nonzero (<[i := v]> l) <= S (count_nonzero l).
Proof.
  revert i. induction l as [|x l IH]; intros i; [unfold count_nonzero; simpl; lia|].
  destruct i as [|i]; simpl; rewrite !count_nonzero_cons.
  - destruct (decide (v = zero)); destruct (decide (x = zero)); lia.
  - specialize (IH i). lia.
Qed.

Lemma count_nonzero_index_put (ivs : list (nat * R)) (l : list R) :
  count_nonzero (fold_left (fun d iv => <[fst iv := snd iv]> d) ivs l)
  <= count_nonzero l + length ivs.
Proof.
  revert l. induction ivs as [|iv ivs IH]; intros l; simpl; [lia|].
  etransitivity; [apply IH|].
  pose proof (count_nonzero_insert l (fst iv) (snd iv)). lia.
Qed.

Lemma count_nonzero_read (l : list R) :
  forall n, count_nonzero (map (fun j => nth j l zero) (seq 0 n)) <= count_nonzero l.
Proof.
  induction l as [|x l IH]; intros n.
  - replace (map (fun j => nth j [] zero) (seq 0 n)) with (repeat (zero : R) n).
    + rewrite count_nonzero_repeat. lia.
    + clear. generalize 0. induction n as [|n IH]; intros s; [reflexivity|].
      simpl. rewrite <- IH. destruct s; reflexivity.
  - destruct n as [|n]; [simpl; unfold count_nonzero; simpl; lia|].
    cbn [seq map nth]. rewrite <- seq_shift, map_map. cbn [nth].
    rewrite !count_nonzero_cons. specialize (IH n). lia.
Qed.

Lemma length_py_slice_to {A} (K : Z) (l : list A) :
  (0 <= K)%Z -> length (py_slice_to K l) <= Z.to_nat K.
Proof.
  intros HK. unfold py_slice_to. destruct (Z.ltb_spec K 0); [lia|].
  rewrite length_take. lia.
Qed.

Lemma iterate_invariant {A} (P : A -> Prop) (f : A -> A) (n : nat) (x : A) :
  P x -> (forall y, P (f y)) -> P (iterate n f x).
Proof.
  revert x. induction n as [|n IH]; intros x Hx Hf; [exact Hx|].
  simpl. apply IH; [apply Hf | exact Hf].
Qed.
End Rows.

Section IHTSparsity.
Context {R : Type} `{Backend R}.

Lemma iht_step_sparse (K : Z) (dictionary y : tensor R) (n_basis : nat) (coeff : tensor R) :
  (0 <= K)%Z ->
  count_nonzero (data (IHT.step K dictionary y n_basis coeff)) <= Z.to_nat K.
Proof.
  intros HK. unfold IHT.step, index_put0. cbn [data].
  etransitivity; [apply count_nonzero_index_put|].
  unfold zeros. cbn [data]. rewrite count_nonzero_repeat.
  rewrite length_zip_with. unfold gather0. rewrite length_map.
  pose proof (length_py_slice_to K
                (argsort_desc (data (tabs
                   (tadd coeff (mm (tsub y (transpose (mm dictionary (transpose coeff))))
                                   dictionary))))) HK).
  lia.
Qed.

Lemma iht_sample_rows (self : IHT.t R) (K : Z) (samples dictionary : tensor R)
    (n_basis : nat) (coefficients : tensor R) (i : nat) :
  (0 <= K)%Z ->
  (forall i', i' < dim0 coefficients ->
              count_nonzero (row coefficients i') <= Z.to_nat K) ->
  let t := IHT.sample self K samples dictionary n_basis coefficients i in
  shape t = [dim0 coefficients; dim1 coefficients]
  /\ forall i', i' < dim0 coefficients -> count_nonzero (row t i') <= Z.to_nat K.
Proof.
  intros HK Hrows t. split; [reflexivity|].
  intros i' Hi'. subst t. unfold IHT.sample. rewrite row_set_row by exact Hi'.
  destruct (Nat.eqb i' i); [|apply Hrows, Hi'].
  etransitivity; [apply count_nonzero_read|].
  apply (iterate_invariant (fun c => count_nonzero (data c) <= Z.to_nat K)).
  - unfold zeros. cbn [data]. rewrite count_nonzero_repeat. lia.
  - intros c. apply iht_step_sparse, HK.
Qed.

Lemma count_nonzero_row_zeros (b n i : nat) :
  count_nonzero (row (zeros [b; n] : tensor R) i) = 0.
Proof.
  unfold row, get2, zeros, dim1. cbn [shape data nth].
  induction (seq 0 n) as [|j l IH]; [reflexivity|].
  cbn [map]. rewrite count_nonzero_cons, IH, nth_repeat.
  rewrite decide_True by reflexivity. reflexivity.
Qed.

Lemma iht_fold_rows (self : IHT.t R) (K : Z) (samples dictionary : tensor R)
    (b n_basis : nat) :
  (0 <= K)%Z ->
  forall (idxs : list nat) (t : tensor R),
    shape t = [b; n_basis] ->
    (forall i', i' < b -> count_nonzero (row t i') <= Z.to_nat K) ->
    let t' := fold_left (IHT.sample self K samples dictionary n_basis) idxs t in
    shape t' = [b; n_basis]
    /\ forall i', i' < b -> count_nonzero (row t' i') <= Z.to_nat K.
Proof.
  intros HK. induction idxs as [|i idxs IH]; intros t Hsh Hrows; [auto|].
  cbn [fold_left].
  assert (dim0 t = b /\ dim1 t = n_basis) as [Hb Hn]
    by (unfold dim0, dim1; rewrite Hsh; auto).
  destruct (iht_sample_rows self K samples dictionary n_basis t i HK) as [Hsh' Hrows'].
  { rewrite Hb. exact Hrows. }
  rewrite Hb, Hn in Hsh'. rewrite Hb in Hrows'.
  apply IH; assumption.
Qed.
End IHTSparsity.

(** C7.  For every dictionary, data batch and iteration count, and every
    sparsity for which [K = ceil(sparsity * n_basis)] is not negative,
    [IHT.infer] returns a matrix of shape [(batch, n_basis)] each row of
    which has at most [K] entries that are not zero. *)
Theorem iht_rows_sparse :
  forall (R : Type) (SR : Scalar R) (BR : Backend R) (data dictionary : obj R)
         (w : world R rng_state (IHT.t R)),
    let n_basis := dim1 (value dictionary) in
    let K := ceil (mul (IHT.sparsity (w_self w)) (of_nat n_basis)) in
    (0 <= K)%Z ->
    exists r,
      IHT.infer data dictionary w = Ok (r, w)
      /\ shape r = [dim0 (value data); n_basis]
      /\ forall i, i < dim0 (value data) ->
                   (Z.of_nat (count_nonzero (row r i)) <= K)%Z.
Proof.
  intros R SR BR data dictionary w n_basis K HK.
  eexists. split; [cbv [IHT.infer bind get_self ret]; reflexivity|].
  fold n_basis. change (IHT.K (w_self w) n_basis) with K.
  destruct (iht_fold_rows (w_self w) K (value data) (value dictionary)
              (dim0 (value data)) n_basis HK (seq 0 (dim0 (value data)))
              (zeros [dim0 (value data); n_basis]) eq_refl) as [Hsh Hrows].
  { intros i' _. rewrite count_nonzero_row_zeros. lia. }
  split; [exact Hsh|]. intros i Hi. specialize (Hrows i Hi). lia.
Qed.

(** Witness of [iht_rows_sparse]: sparsity 1/2 on three atoms, [K = 2]. *)
Lemma iht_rows_sparse_witness :
  (0 <= ceil (mul (IHT.sparsity Demo.iht_half) (of_nat 3)))%Z
  /\ exists r,
       IHT.infer Demo.data22 Demo.dict23 (Demo.world0 Demo.iht_half)
       = Ok (r, Demo.world0 Demo.iht_half)
       /\ shape r = [2; 3]
       /\ forall i, i < 2 -> (Z.of_nat (count_nonzero (row r i)) <= 2)%Z.
Proof.
  assert (0 <= ceil (mul (IHT.sparsity Demo.iht_half) (of_nat 3)))%Z as HK
    by (vm_compute; discriminate).
  split; [exact HK|].
  exact (iht_rows_sparse Qc Exact.scalar Reference.backend Demo.data22 Demo.dict23
           (Demo.world0 Demo.iht_half) HK).
Defined.

(** ** Determinism *)



(** The same call of [ISTA.infer] with a copy of the data as the warm start,
    and with the data itself: the results differ, since the subtraction in
    place of the first iteration then changes the data that the next
    residual is computed from. *)
Lemma ista_aliased_start_differs :
  exists r1 w1 r2 w2,
    @ISTA.infer Qc Exact.scalar Reference.backend 0 1 (Some 2) false
      (Demo.world3 Demo.ista_plain Demo.data12 Demo.eye2 Demo.data12) = Ok (r1, w1)
    /\ @ISTA.infer Qc Exact.scalar Reference.backend 0 1 (Some 0) false
         (Demo.world2 Demo.ista_plain Demo.data12 Demo.eye2) = Ok (r2, w2)
    /\ r1 = mkT [2] [Demo.q 99 100; Demo.q 199 100]
    /\ r2 = mkT [2] [Demo.q 1 1; Demo.q 2 1].
Proof.
  eexists. eexists. eexists. eexists.
  split; [vm_compute; reflexivity|]. split; [vm_compute; reflexivity|].
  split; apply tensor_Qc_eq; vm_compute; reflexivity.
Qed.


(** ** Instance state *)

Section InstanceState.
Context {R : Type} `{Backend R}.





End InstanceState.



(** ** The warm start *)




(** * Further properties *)

(** ** The length of the log and the documented shapes *)

Section LogLength.
Context {R : Type} `{Backend R}.

Lemma lca_loop_log (self : LCA.t R) (bb G : tensor R) (chk : bool) :
  forall (n : nat) (u cs u' cs' : tensor R) (b k nb : nat),
    LCA.mode_is self "none" = false ->
    shape cs = [b; k; nb] ->
    LCA.loop self bb G chk n u cs = Ok (u', cs') ->
    exists k', shape cs' = [b; k'; nb] /\ k + Nat.min 1 n <= k' <= k + n
               /\ (LCA.stop_early self = false -> k' = k + n).
Proof.
  intros n u cs u' cs' b k nb Hlog. revert u cs k.
  induction n as [|n IH]; intros u cs k Hsh; cbn [LCA.loop].
  - intros [= <- <-]. exists k. repeat split; [exact Hsh | simpl; lia | lia | lia].
  - rewrite Hlog. cbn [negb].
    set (cs1 := if LCA.mode_is self "active" then _ else _).
    assert (shape cs1 = [b; k + 1; nb]) as Hsh1
      by (subst cs1; destruct (LCA.mode_is self "active");
          apply concat1_unsqueeze1_shape, Hsh).
    destruct (LCA.stop_early self) eqn:Hse; cbn [andb].
    + destruct (ltb _ _).
      * intros [= <- <-]. exists (k + 1).
        repeat split; [exact Hsh1 | simpl; lia | lia | discriminate].
      * destruct (if chk then _ else _); [|discriminate].
        intros Hl. destruct (IH _ _ _ Hsh1 Hl) as (k' & Hsh' & Hk' & _).
        exists k'. repeat split; [exact Hsh' | simpl; lia | lia | discriminate].
    + destruct (if chk then _ else _); [|discriminate].
      intros Hl. destruct (IH _ _ _ Hsh1 Hl) as (k' & Hsh' & Hk' & Hex).
      exists k'. repeat split; [exact Hsh' | simpl; lia | lia |].
      intros _. rewrite (Hex eq_refl). lia.
Qed.

Lemma vanilla_loop_log (self : Vanilla.t R) (samples dictionary : tensor R)
    (chk : bool) :
  forall (n : nat) (a residual cs a' cs' : tensor R) (b k nb : nat),
    Vanilla.return_all_coefficients self = true ->
    shape cs = [b; k; nb] ->
    Vanilla.loop self samples dictionary chk n a residual cs = Ok (a', cs') ->
    exists k', shape cs' = [b; k'; nb] /\ k + Nat.min 1 n <= k' <= k + n
               /\ (Vanilla.stop_early self = false -> k' = k + n).
Proof.
  intros n a residual cs a' cs' b k nb Hlog. revert a residual cs k.
  induction n as [|n IH]; intros a residual cs k Hsh; cbn [Vanilla.loop].
  - intros [= <- <-]. exists k. repeat split; [exact Hsh | simpl; lia | lia | lia].
  - rewrite Hlog.
    pose proof (concat1_unsqueeze1_shape cs (clone a) b k nb Hsh) as Hsh1.
    destruct (Vanilla.stop_early self) eqn:Hse; cbn [andb].
    + destruct (ltb _ _).
      * intros [= <- <-]. exists (k + 1).
        repeat split; [exact Hsh1 | simpl; lia | lia | discriminate].
      * destruct (if chk then _ else _); [|discriminate].
        intros Hl. destruct (IH _ _ _ _ Hsh1 Hl) as (k' & Hsh' & Hk' & _).
        exists k'. repeat split; [exact Hsh' | simpl; lia | lia | discriminate].
    + destruct (if chk then _ else _); [|discriminate].
      intros Hl. destruct (IH _ _ _ _ Hsh1 Hl) as (k' & Hsh' & Hk' & Hex).
      exists k'. repeat split; [exact Hsh' | simpl; lia | lia |].
      intros _. rewrite (Hex eq_refl). lia.
Qed.

Lemma ista_loop_v_log (se : bool) (eps th stepsize : R) (chk : bool) :
  forall (n : nat) (lk ad aD : bool)
         (samples dictionary u sc residual cs cs' sc' : tensor R) (b k nb : nat),
    shape cs = [b; k; nb] ->
    ista_loop_v true se eps th stepsize chk n lk ad aD samples dictionary u sc
      residual cs = Ok (cs', sc') ->
    exists k', shape cs' = [b; k'; nb] /\ k + Nat.min 1 n <= k' <= k + n
               /\ (se = false -> k' = k + n).
Proof.
  induction n as [|n IH];
    intros lk ad aD samples dictionary u sc residual cs cs' sc' b k nb Hsh;
    cbn [ista_loop_v].
  - intros [= <- <-]. exists k. repeat split; [exact Hsh | simpl; lia | lia | lia].
  - pose proof (concat1_unsqueeze1_shape cs (clone (ISTA.soft_threshold th u))
                  b k nb Hsh) as Hsh1.
    destruct lk; [discriminate|].
    destruct se; cbn [andb].
    + destruct (ltb _ _).
      * intros [= <- <-]. exists (k + 1).
        repeat split; [exact Hsh1 | simpl; lia | lia | discriminate].
      * destruct (if chk then _ else _); [|discriminate].
        intros Hl.
        destruct (IH _ _ _ _ _ _ _ _ _ _ _ _ _ _ Hsh1 Hl) as (k' & Hsh' & Hk' & _).
        exists k'. repeat split; [exact Hsh' | simpl; lia | lia | discriminate].
    + destruct (if chk then _ else _); [|discriminate].
      intros Hl.
      destruct (IH _ _ _ _ _ _ _ _ _ _ _ _ _ _ Hsh1 Hl) as (k' & Hsh' & Hk' & Hex).
      exists k'. repeat split; [exact Hsh' | simpl; lia | lia |].
      intros _. rewrite (Hex eq_refl). lia.
Qed.
End LogLength.

(** X1.  Where neither the batch size nor the number of atoms is one,
    [LCA.infer] returns, unless the NaN guard stops it, the documented shape:
    [(batch, n_basis)] without logging (or with no iteration), and
    [(batch, len, n_basis)] with logging, where [2 <= len <= n_iter + 1] and
    [len = n_iter + 1] when early stopping is off.  Logging is off when
    [return_all_coefficients is 'none']: for the literal itself, not for a
    string that only equals it. *)
Theorem lca_infer_documented_shape :
  forall (R : Type) (SR : Scalar R) (BR : Backend R) (data dictionary : obj R)
         (c0 : option loc) (chk : bool) (u0 : tensor R)
         (w : world R rng_state (LCA.t R)),
    warm_start (w_heap w) c0 (zeros [dim0 (value data); dim1 (value dictionary)]) u0 ->
    dim0 (value data) <> 1 ->
    dim1 (value dictionary) <> 1 ->
    wp (LCA.infer data dictionary c0 chk) (fun e => chk = true /\ e = nan_error)
       (fun r _ =>
          if LCA.mode_is (w_self w) "none" || Nat.eqb (LCA.n_iter (w_self w)) 0
          then shape r = [dim0 (value data); dim1 (value dictionary)]
          else exists len,
                 2 <= len <= LCA.n_iter (w_self w) + 1
                 /\ (LCA.stop_early (w_self w) = false ->
                     len = LCA.n_iter (w_self w) + 1)
                 /\ shape r = [dim0 (value data); len; dim1 (value dictionary)])
       w.
Proof.
  intros R SR BR data dictionary c0 chk u0 w Hc0 Hb Hn.
  eapply wp_mono; [apply lca_infer_wp, Hc0 | |].
  { intros e. apply lca_infer_v_raises. }
  simpl. intros r w' (Hv & _). unfold lca_infer_v in Hv.
  destruct (LCA.loop _ _ _ _ _ _ _) as [[u cs]|e] eqn:Hl; [|discriminate].
  injection Hv as <-. simpl fst. simpl snd.
  assert (forall k, shape cs = [dim0 (value data); k; dim1 (value dictionary)] ->
            shape (squeeze
                     (if LCA.mode_is (w_self w) "membrane"
                      then concat1 cs (unsqueeze1 (clone u))
                      else concat1 cs
                             (unsqueeze1
                                (clone (LCA.threshold_nonlinearity (w_self w) u)))))
            = filter (fun d => d <> 1)
                [dim0 (value data); k + 1; dim1 (value dictionary)]) as Hsq.
  { intros k Hsh. unfold squeeze. cbn [shape]. f_equal.
    destruct (LCA.mode_is (w_self w) "membrane"); apply concat1_unsqueeze1_shape, Hsh. }
  destruct (LCA.mode_is (w_self w) "none") eqn:Hmode; cbn [orb].
  - eapply lca_loop_shape in Hl as (k & Hsh & _ & Hnone); [|reflexivity].
    rewrite (Hnone Hmode) in Hsh. rewrite (Hsq 0 Hsh).
    apply squeeze_shape_matrix; assumption.
  - eapply lca_loop_log in Hl as (k & Hsh & Hk & Hex); [|exact Hmode|reflexivity].
    rewrite (Hsq k Hsh).
    destruct (Nat.eqb_spec (LCA.n_iter (w_self w)) 0) as [Hz|Hnz].
    + rewrite Hz in Hk. replace k with 0 by lia.
      apply squeeze_shape_matrix; assumption.
    + exists (k + 1). split; [lia|]. split; [intros Hse; rewrite (Hex Hse); lia|].
      apply squeeze_shape_log; [assumption | lia | assumption].
Qed.

(** Witness of [lca_infer_documented_shape]: two samples, three atoms, two
    iterations with the log of the membrane potentials. *)
Lemma lca_infer_documented_shape_witness :
  let w := Demo.world0 Sample.lca_log in
  warm_start (w_heap w) None (zeros [2; 3]) (zeros [2; 3])
  /\ dim0 (value Demo.data22) <> 1
  /\ dim1 (value Demo.dict23) <> 1
  /\ wp (LCA.infer Demo.data22 Demo.dict23 None false)
        (fun e => false = true /\ e = nan_error)
        (fun r _ => exists len,
             2 <= len <= 3 /\ (false = false -> len = 3) /\ shape r = [2; len; 3])
        w.
Proof.
  intros w.
  assert (warm_start (w_heap w) None (zeros [2; 3]) (zeros [2; 3] : tensor Qc)) as H0
    by reflexivity.
  assert (dim0 (value Demo.data22) <> 1) as H1 by (vm_compute; lia).
  assert (dim1 (value Demo.dict23) <> 1) as H2 by (vm_compute; lia).
  split; [exact H0|]. split; [exact H1|]. split; [exact H2|].
  exact (lca_infer_documented_shape Qc Exact.scalar Reference.backend
           Demo.data22 Demo.dict23 None false (zeros [2; 3]) w H0 H1 H2).
Defined.

(** A mode that equals 'none' without being the literal passes the check
    of the constructor, which compares with [in], and is not 'none' for
    [infer], which compares with [is]: the call logs its iterates. *)
Lemma lca_mode_equal_to_none_logs :
  exists self r w',
    LCA.__init__ 2 (Demo.q 1 10) (Demo.q 1 10) false (Demo.q 1 100) None
      (mkStr "none" false) = Ok self
    /\ LCA.mode_is self "none" = false
    /\ LCA.infer Demo.data22 Demo.dict23 None false (Demo.world0 self) = Ok (r, w')
    /\ shape r = [2; 3; 3].
Proof.
  eexists. eexists. eexists.
  split; [vm_compute; reflexivity|]. split; [reflexivity|].
  split; [vm_compute; reflexivity|]. reflexivity.
Qed.

(** X2.  The same for [Vanilla.infer]. *)
Theorem vanilla_infer_documented_shape :
  forall (R : Type) (SR : Scalar R) (BR : Backend R) (data dictionary : obj R)
         (c0 : option loc) (chk : bool) (a0 : tensor R)
         (w : world R rng_state (Vanilla.t R)),
    warm_start (w_heap w) c0
      (vanilla_start (w_rng w) (dim0 (value data)) (dim1 (value dictionary))) a0 ->
    dim0 (value data) <> 1 ->
    dim1 (value dictionary) <> 1 ->
    wp (Vanilla.infer data dictionary c0 chk) (fun e => chk = true /\ e = nan_error)
       (fun r _ =>
          if negb (Vanilla.return_all_coefficients (w_self w))
             || Nat.eqb (Vanilla.n_iter (w_self w)) 0
          then shape r = [dim0 (value data); dim1 (value dictionary)]
          else exists len,
                 2 <= len <= Vanilla.n_iter (w_self w) + 1
                 /\ (Vanilla.stop_early (w_self w) = false ->
                     len = Vanilla.n_iter (w_self w) + 1)
                 /\ shape r = [dim0 (value data); len; dim1 (value dictionary)])
       w.
Proof.
  intros R SR BR data dictionary c0 chk a0 w Hc0 Hb Hn.
  eapply wp_mono; [apply vanilla_infer_wp, Hc0 | |].
  { intros e. apply vanilla_infer_v_raises. }
  simpl. intros r w' (Hv & _). unfold vanilla_infer_v in Hv.
  destruct (Vanilla.loop _ _ _ _ _ _ _ _) as [[a cs]|e] eqn:Hl; [|discriminate].
  injection Hv as <-. simpl fst. simpl snd.
  assert (forall k, shape cs = [dim0 (value data); k; dim1 (value dictionary)] ->
            shape (squeeze (concat1 cs (unsqueeze1 (clone a))))
            = filter (fun d => d <> 1)
                [dim0 (value data); k + 1; dim1 (value dictionary)]) as Hsq.
  { intros k Hsh. unfold squeeze. cbn [shape]. f_equal.
    apply concat1_unsqueeze1_shape, Hsh. }
  destruct (Vanilla.return_all_coefficients (w_self w)) eqn:Hmode; cbn [negb orb].
  - eapply vanilla_loop_log in Hl as (k & Hsh & Hk & Hex); [|exact Hmode|reflexivity].
    rewrite (Hsq k Hsh).
    destruct (Nat.eqb_spec (Vanilla.n_iter (w_self w)) 0) as [Hz|Hnz].
    + rewrite Hz in Hk. replace k with 0 by lia.
      apply squeeze_shape_matrix; assumption.
    + exists (k + 1). split; [lia|]. split; [intros Hse; rewrite (Hex Hse); lia|].
      apply squeeze_shape_log; [assumption | lia | assumption].
  - eapply vanilla_loop_shape in Hl as (k & Hsh & _ & Hoff); [|reflexivity].
    rewrite (Hoff Hmode) in Hsh. rewrite (Hsq 0 Hsh).
    apply squeeze_shape_matrix; assumption.
Qed.

(** Witness of [vanilla_infer_documented_shape]: a warm start, two
    iterations with the log. *)
Lemma vanilla_infer_documented_shape_witness :
  let w := Demo.world1 Sample.vanilla_log Demo.data22 in
  warm_start (w_heap w) (Some 0) (@vanilla_start Qc Exact.scalar Reference.backend (w_rng w) 2 2) (value Demo.data22)
  /\ dim0 (value Demo.data22) <> 1
  /\ dim1 (value Demo.eye2) <> 1
  /\ wp (Vanilla.infer Demo.data22 Demo.eye2 (Some 0) true)
        (fun e => true = true /\ e = nan_error)
        (fun r _ => exists len,
             2 <= len <= 3 /\ (false = false -> len = 3) /\ shape r = [2; len; 2])
        w.
Proof.
  intros w.
  assert (warm_start (w_heap w) (Some 0) (@vanilla_start Qc Exact.scalar Reference.backend (w_rng w) 2 2)
            (value Demo.data22)) as H0
    by (exists Demo.data22; split; reflexivity).
  assert (dim0 (value Demo.data22) <> 1) as H1 by (vm_compute; lia).
  assert (dim1 (value Demo.eye2) <> 1) as H2 by (vm_compute; lia).
  split; [exact H0|]. split; [exact H1|]. split; [exact H2|].
  exact (vanilla_infer_documented_shape Qc Exact.scalar Reference.backend
           Demo.data22 Demo.eye2 (Some 0) true (value Demo.data22) w H0 H1 H2).
Defined.

(** X3.  The same for [ISTA.infer] on tensors of the store, which also
    raises [IndexError] on a dictionary without eigenvalue and, when there
    is an iteration, [RuntimeError] on a warm start on the device of the
    dictionary that is a leaf requiring grad. *)
Theorem ista_infer_documented_shape :
  forall (R : Type) (SR : Scalar R) (BR : Backend R) (ld lD : loc)
         (data dictionary : obj R)
         (c0 : option loc) (chk : bool) (u0 : tensor R)
         (w : world R rng_state (ISTA.t R)),
    w_heap w !! ld = Some data ->
    w_heap w !! lD = Some dictionary ->
    warm_start (w_heap w) c0 (zeros [dim0 (value data); dim1 (value dictionary)]) u0 ->
    dim0 (value data) <> 1 ->
    dim1 (value dictionary) <> 1 ->
    wp (ISTA.infer ld lD c0 chk)
       (fun e => e = IndexError
                 \/ (e = RuntimeError
                     /\ ista_locked (w_heap w) c0 (device dictionary) = true
                     /\ ISTA.n_iter (w_self w) <> 0)
                 \/ (chk = true /\ e = nan_error))
       (fun r _ =>
          if negb (ISTA.return_all_coefficients (w_self w))
             || Nat.eqb (ISTA.n_iter (w_self w)) 0
          then shape r = [dim0 (value data); dim1 (value dictionary)]
          else exists len,
                 2 <= len <= ISTA.n_iter (w_self w) + 1
                 /\ (ISTA.stop_early (w_self w) = false ->
                     len = ISTA.n_iter (w_self w) + 1)
                 /\ shape r = [dim0 (value data); len; dim1 (value dictionary)])
       w.
Proof.
  intros R SR BR ld lD data dictionary c0 chk u0 w Hx HD Hc0 Hb Hn.
  eapply wp_mono; [apply ista_infer_wp; eassumption | |].
  { intros e. apply ista_infer_raises. }
  simpl. intros r w' (Hv & _). unfold ista_infer_v in Hv.
  destruct (ISTA.lipschitz_constant _); [|discriminate].
  destruct (ista_loop_v _ _ _ _ _ _ _ _ _ _ _ _ _ _ _ _) as [[cs sc]|e] eqn:Hl;
    [|discriminate].
  injection Hv as <-. simpl fst. simpl snd.
  assert (forall k, shape cs = [dim0 (value data); k; dim1 (value dictionary)] ->
            shape (squeeze (concat1 cs (unsqueeze1 (clone sc))))
            = filter (fun d => d <> 1)
                [dim0 (value data); k + 1; dim1 (value dictionary)]) as Hsq.
  { intros k Hsh. unfold squeeze. cbn [shape]. f_equal.
    apply concat1_unsqueeze1_shape, Hsh. }
  destruct (ISTA.return_all_coefficients (w_self w)) eqn:Hmode; cbn [negb orb].
  - eapply ista_loop_v_log in Hl as (k & Hsh & Hk & Hex); [|reflexivity].
    rewrite (Hsq k Hsh).
    destruct (Nat.eqb_spec (ISTA.n_iter (w_self w)) 0) as [Hz|Hnz].
    + rewrite Hz in Hk. replace k with 0 by lia.
      apply squeeze_shape_matrix; assumption.
    + exists (k + 1). split; [lia|]. split; [intros Hse; rewrite (Hex Hse); lia|].
      apply squeeze_shape_log; [assumption | lia | assumption].
  - eapply ista_loop_v_shape in Hl as (k & Hsh & _ & Hoff); [|reflexivity].
    rewrite (Hoff eq_refl) in Hsh. rewrite (Hsq 0 Hsh).
    apply squeeze_shape_matrix; assumption.
Qed.

(** Witness of [ista_infer_documented_shape]: no warm start, two iterations
    with the log. *)
Lemma ista_infer_documented_shape_witness :
  let w := Demo.world2 Sample.ista_log Demo.data22 Demo.eye2 in
  w_heap w !! 0 = Some Demo.data22
  /\ w_heap w !! 1 = Some Demo.eye2
  /\ warm_start (w_heap w) None (zeros [2; 2]) (zeros [2; 2])
  /\ dim0 (value Demo.data22) <> 1
  /\ dim1 (value Demo.eye2) <> 1
  /\ wp (@ISTA.infer Qc Exact.scalar Reference.backend 0 1 None false)
        (fun e => e = IndexError
                  \/ (e = RuntimeError /\ false = true /\ 2 <> 0)
                  \/ (false = true /\ e = nan_error))
        (fun r _ => exists len,
             2 <= len <= 3 /\ (false = false -> len = 3) /\ shape r = [2; len; 2])
        w.
Proof.
  intros w.
  assert (w_heap w !! 0 = Some Demo.data22) as Hx by reflexivity.
  assert (w_heap w !! 1 = Some Demo.eye2) as HD by reflexivity.
  assert (warm_start (w_heap w) None (zeros [2; 2]) (zeros [2; 2] : tensor Qc)) as H0
    by reflexivity.
  assert (dim0 (value Demo.data22) <> 1) as H1 by (vm_compute; lia).
  assert (dim1 (value Demo.eye2) <> 1) as H2 by (vm_compute; lia).
  split; [exact Hx|]. split; [exact HD|].
  split; [exact H0|]. split; [exact H1|]. split; [exact H2|].
  exact (ista_infer_documented_shape Qc Exact.scalar Reference.backend
           0 1 Demo.data22 Demo.eye2 None false (zeros [2; 2]) w Hx HD H0 H1 H2).
Defined.

(** ** Early stopping and the NaN guard *)

Section Guard.
Context {R : Type} `{Backend R}.

Lemma In_concat1_empty_log (a b : tensor R) (x : R) :
  nth 1 (shape a) 0 = 0 -> In x (data (concat1 a b)) -> In x (data b).
Proof.
  unfold concat1. cbn [data]. intros ->. cbn [Nat.mul].
  intros (i & _ & Hx)%in_flat_map. cbn [take app] in Hx.
  apply list_elem_of_In in Hx. apply list_elem_of_In.
  eapply subseteq_drop, subseteq_take, Hx.
Qed.

Lemma vanilla_loop_no_log (self : Vanilla.t R) (samples dictionary : tensor R)
    (chk : bool) :
  Vanilla.return_all_coefficients self = false ->
  forall (n : nat) (a residual cs a' cs' : tensor R),
    Vanilla.loop self samples dictionary chk n a residual cs = Ok (a', cs') ->
    cs' = cs.
Proof.
  intros Hoff. induction n as [|n IH]; intros a residual cs a' cs'; cbn [Vanilla.loop].
  - intros [= _ <-]. reflexivity.
  - rewrite Hoff. destruct (_ && _); [intros [= _ <-]; reflexivity|].
    destruct (if chk then _ else _); [|discriminate]. apply IH.
Qed.

Lemma vanilla_loop_checked (self : Vanilla.t R) (samples dictionary : tensor R) :
  Vanilla.stop_early self = false ->
  forall (n : nat) (a residual cs a' cs' : tensor R),
    Vanilla.loop self samples dictionary true (S n) a residual cs = Ok (a', cs') ->
    any_isnan a' = false.
Proof.
  intros Hse. induction n as [|n IH]; intros a residual cs a' cs' Hl.
  - cbn [Vanilla.loop] in Hl. rewrite Hse in Hl. cbn [andb] in Hl.
    destruct (checknan_cases
                (tadd a (smul (Vanilla.coeff_lr self)
                           (Vanilla.grad self residual dictionary a)))
                "coefficients") as [[_ Hc]|[Hn Hc]];
      rewrite Hc in Hl; [discriminate|].
    injection Hl as <- _. exact Hn.
  - remember (S n) as m eqn:Hm. cbn [Vanilla.loop] in Hl.
    rewrite Hse in Hl. cbn [andb] in Hl.
    destruct (InferenceMethod.checknan _ _); [|discriminate].
    subst m. apply (IH _ _ _ _ _ Hl).
Qed.

Lemma ista_loop_v_no_log (se : bool) (eps th stepsize : R) (chk : bool) :
  forall (n : nat) (lk ad aD : bool)
         (samples dictionary u sc residual cs cs' sc' : tensor R),
    ista_loop_v false se eps th stepsize chk n lk ad aD samples dictionary u sc
      residual cs = Ok (cs', sc') ->
    cs' = cs.
Proof.
  induction n as [|n IH];
    intros lk ad aD samples dictionary u sc residual cs cs' sc'; cbn [ista_loop_v].
  - intros [= <- _]. reflexivity.
  - destruct lk; [discriminate|].
    destruct (_ && _); [intros [= <- _]; reflexivity|].
    destruct (if chk then _ else _); [|discriminate]. apply IH.
Qed.

Lemma ista_loop_v_checked (ra : bool) (eps th stepsize : R) :
  forall (n : nat) (lk ad aD : bool)
         (samples dictionary u sc residual cs cs' sc' : tensor R),
    ista_loop_v ra false eps th stepsize true (S n) lk ad aD samples dictionary u sc
      residual cs = Ok (cs', sc') ->
    any_isnan sc' = false.
Proof.
  induction n as [|n IH];
    intros lk ad aD samples dictionary u sc residual cs cs' sc' Hl.
  - cbn [ista_loop_v andb] in Hl. destruct lk; [discriminate|].
    destruct (checknan_cases
                (ISTA.soft_threshold th
                   (tsub u (smul stepsize (mm residual dictionary))))
                "coefficients") as [[_ Hc]|[Hn Hc]];
      rewrite Hc in Hl; [discriminate|].
    injection Hl as _ <-. exact Hn.
  - remember (S n) as m eqn:Hm. cbn [ista_loop_v andb] in Hl.
    destruct lk; [discriminate|].
    destruct (InferenceMethod.checknan _ _); [|discriminate].
    subst m. apply (IH _ _ _ _ _ _ _ _ _ _ _ Hl).
Qed.

Lemma any_isnan_false (t : tensor R) :
  any_isnan t = false -> forall x, In x (data t) -> isnan x = false.
Proof.
  intros Hn x Hx. destruct (isnan x) eqn:Hx'; [|reflexivity].
  assert (any_isnan t = true) by (apply any_isnan_true; eauto). congruence.
Qed.
End Guard.

(** X4.  With the NaN guard on, early stopping off, logging off and at least
    one iteration, [Vanilla.infer] either raises the guard's error or
    returns a tensor without NaN. *)
Theorem vanilla_guard_no_nan :
  forall (R : Type) (SR : Scalar R) (BR : Backend R) (samples dictionary : obj R)
         (c0 : option loc) (a0 : tensor R) (w : world R rng_state (Vanilla.t R)),
    warm_start (w_heap w) c0
      (vanilla_start (w_rng w) (dim0 (value samples)) (dim1 (value dictionary))) a0 ->
    Vanilla.stop_early (w_self w) = false ->
    Vanilla.return_all_coefficients (w_self w) = false ->
    Vanilla.n_iter (w_self w) <> 0 ->
    wp (Vanilla.infer samples dictionary c0 true) (fun e => e = nan_error)
       (fun r _ => forall x, In x (data r) -> isnan x = false) w.
Proof.
  intros R SR BR samples dictionary c0 a0 w Hc0 Hse Hoff Hn.
  eapply wp_mono; [apply vanilla_infer_wp, Hc0 | |].
  { intros e [_ He]%vanilla_infer_v_raises. exact He. }
  simpl. intros r w' (Hv & _). unfold vanilla_infer_v in Hv.
  destruct (Vanilla.n_iter (w_self w)) as [|n]; [contradiction|].
  destruct (Vanilla.loop _ _ _ _ _ _ _ _) as [[a cs]|e] eqn:Hl; [|discriminate].
  injection Hv as <-. simpl fst. simpl snd.
  pose proof (vanilla_loop_no_log _ _ _ _ Hoff _ _ _ _ _ _ Hl) as ->.
  pose proof (vanilla_loop_checked _ _ _ Hse _ _ _ _ _ _ Hl) as Hnan.
  intros x Hx. apply (any_isnan_false a Hnan).
  unfold squeeze in Hx. cbn [data] in Hx.
  apply In_concat1_empty_log in Hx; [exact Hx | reflexivity].
Qed.

(** Witness of [vanilla_guard_no_nan]: two guarded iterations from a warm
    start. *)
Lemma vanilla_guard_no_nan_witness :
  let w := Demo.world1 Demo.vanilla_plain Demo.data22 in
  warm_start (w_heap w) (Some 0) (@vanilla_start Qc Exact.scalar Reference.backend (w_rng w) 2 2) (value Demo.data22)
  /\ Vanilla.stop_early (w_self w) = false
  /\ Vanilla.return_all_coefficients (w_self w) = false
  /\ Vanilla.n_iter (w_self w) <> 0
  /\ wp (Vanilla.infer Demo.data22 Demo.eye2 (Some 0) true) (fun e => e = nan_error)
        (fun r _ => forall x, In x (data r) -> isnan x = false) w.
Proof.
  intros w.
  assert (warm_start (w_heap w) (Some 0) (@vanilla_start Qc Exact.scalar Reference.backend (w_rng w) 2 2)
            (value Demo.data22)) as H0
    by (exists Demo.data22; split; reflexivity).
  assert (Vanilla.stop_early (w_self w) = false) as H1 by reflexivity.
  assert (Vanilla.return_all_coefficients (w_self w) = false) as H2 by reflexivity.
  assert (Vanilla.n_iter (w_self w) <> 0) as H3 by (vm_compute; lia).
  split; [exact H0|]. split; [exact H1|]. split; [exact H2|]. split; [exact H3|].
  exact (vanilla_guard_no_nan Qc Exact.scalar Reference.backend
           Demo.data22 Demo.eye2 (Some 0) (value Demo.data22) w H0 H1 H2 H3).
Defined.

(** X5.  The same for [ISTA.infer] on tensors of the store, which may also
    raise [IndexError], and [RuntimeError] on a warm start on the device of
    the dictionary that is a leaf requiring grad. *)
Theorem ista_guard_no_nan :
  forall (R : Type) (SR : Scalar R) (BR : Backend R) (ld lD : loc)
         (samples dictionary : obj R)
         (c0 : option loc) (u0 : tensor R) (w : world R rng_state (ISTA.t R)),
    w_heap w !! ld = Some samples ->
    w_heap w !! lD = Some dictionary ->
    warm_start (w_heap w) c0 (zeros [dim0 (value samples); dim1 (value dictionary)]) u0 ->
    ISTA.stop_early (w_self w) = false ->
    ISTA.return_all_coefficients (w_self w) = false ->
    ISTA.n_iter (w_self w) <> 0 ->
    wp (ISTA.infer ld lD c0 true)
       (fun e => e = IndexError
                 \/ (e = RuntimeError
                     /\ ista_locked (w_heap w) c0 (device dictionary) = true)
                 \/ e = nan_error)
       (fun r _ => forall x, In x (data r) -> isnan x = false) w.
Proof.
  intros R SR BR ld lD samples dictionary c0 u0 w Hx HD Hc0 Hse Hoff Hn.
  eapply wp_mono; [apply ista_infer_wp; eassumption | |].
  { intros e [[-> _]|[(Hl & _ & ->)|(_ & _ & ->)]]%ista_infer_v_raises; auto. }
  simpl. intros r w' (Hv & _). unfold ista_infer_v in Hv.
  destruct (ISTA.lipschitz_constant _); [|discriminate].
  rewrite Hse, Hoff in Hv.
  destruct (ISTA.n_iter (w_self w)) as [|n]; [contradiction|].
  destruct (ista_loop_v _ _ _ _ _ _ _ _ _ _ _ _ _ _ _ _) as [[cs sc]|e] eqn:Hl;
    [|discriminate].
  injection Hv as <-. simpl fst. simpl snd.
  pose proof (ista_loop_v_no_log _ _ _ _ _ _ _ _ _ _ _ _ _ _ _ _ _ Hl) as ->.
  pose proof (ista_loop_v_checked _ _ _ _ _ _ _ _ _ _ _ _ _ _ _ _ Hl) as Hnan.
  intros x Hin. apply (any_isnan_false sc Hnan).
  unfold squeeze in Hin. cbn [data] in Hin.
  apply In_concat1_empty_log in Hin; [exact Hin | reflexivity].
Qed.

(** Witness of [ista_guard_no_nan]: two guarded iterations without a warm
    start. *)
Lemma ista_guard_no_nan_witness :
  let w := Demo.world2 Demo.ista_plain Demo.data22 Demo.eye2 in
  w_heap w !! 0 = Some Demo.data22
  /\ w_heap w !! 1 = Some Demo.eye2
  /\ warm_start (w_heap w) None (zeros [2; 2]) (zeros [2; 2])
  /\ ISTA.stop_early (w_self w) = false
  /\ ISTA.return_all_coefficients (w_self w) = false
  /\ ISTA.n_iter (w_self w) <> 0
  /\ wp (@ISTA.infer Qc Exact.scalar Reference.backend 0 1 None true)
        (fun e => e = IndexError
                  \/ (e = RuntimeError /\ false = true)
                  \/ e = nan_error)
        (fun r _ => forall x, In x (data r) -> isnan x = false) w.
Proof.
  intros w.
  assert (w_heap w !! 0 = Some Demo.data22) as Hx by reflexivity.
  assert (w_heap w !! 1 = Some Demo.eye2) as HD by reflexivity.
  assert (warm_start (w_heap w) None (zeros [2; 2]) (zeros [2; 2] : tensor Qc)) as H0
    by reflexivity.
  assert (ISTA.stop_early (w_self w) = false) as H1 by reflexivity.
  assert (ISTA.return_all_coefficients (w_self w) = false) as H2 by reflexivity.
  assert (ISTA.n_iter (w_self w) <> 0) as H3 by (vm_compute; lia).
  split; [exact Hx|]. split; [exact HD|].
  split; [exact H0|]. split; [exact H1|]. split; [exact H2|]. split; [exact H3|].
  exact (ista_guard_no_nan Qc Exact.scalar Reference.backend
           0 1 Demo.data22 Demo.eye2 None (zeros [2; 2]) w Hx HD H0 H1 H2 H3).
Defined.

(** ** Early stopping at the first iteration, and runs without the guard *)

Section EarlyStop.
Context {R : Type} `{Backend R}.

Lemma lca_infer_v_stops_at_once (self : LCA.t R) (samples dictionary u0 : tensor R)
    (chk : bool) :
  LCA.stop_early self = true ->
  LCA.n_iter self <> 0 ->
  ltb (div (norm (tsub u0 (lca_first_update self samples dictionary u0))) (norm u0))
      (LCA.epsilon self) = true ->
  lca_infer_v self samples dictionary u0 chk
  = lca_infer_v (lca_with_n_iter self 1) samples dictionary u0 false
  /\ exists r,
       lca_infer_v self samples dictionary u0 chk = Ok r
       /\ (LCA.mode_is self "none" = false ->
           shape r = filter (fun d => d <> 1) [dim0 samples; 2; dim1 dictionary]).
Proof.
  intros Hse Hn Hstop. unfold lca_first_update in Hstop.
  destruct self as [sv th lr se eps n_it mode].
  cbn [LCA.stop_early LCA.n_iter LCA.epsilon LCA.coeff_lr] in Hse, Hn, Hstop.
  subst se. destruct n_it as [|n]; [contradiction|].
  unfold lca_infer_v, lca_with_n_iter, LCA.mode_is, clone in *.
  cbn [LCA.n_iter LCA.loop LCA.return_all_coefficients LCA.stop_early
       LCA.coeff_lr LCA.epsilon LCA.threshold LCA.solver].
  unfold LCA.mode_is, clone.
  cbn [LCA.return_all_coefficients andb].
  change (LCA.threshold_nonlinearity (LCA.mk sv th lr true eps 1 mode))
    with (LCA.threshold_nonlinearity (LCA.mk sv th lr true eps (S n) mode)).
  rewrite Hstop.
  split; [reflexivity|]. eexists. split; [reflexivity|].
  intros Hlog. rewrite Hlog. cbn [negb fst snd]. unfold squeeze. cbn [shape].
  f_equal.
  destruct (py_is mode "active"); destruct (py_is mode "membrane");
    reflexivity.
Qed.
End EarlyStop.

(** X6.  When early stopping is on and the criterion holds after the first
    iteration, [LCA.infer] returns after that iteration whatever [n_iter >= 1]
    is, and without consulting the NaN guard: it returns what a call with
    [n_iter = 1] and no guard returns, and with logging on the log has two
    entries. *)
Theorem lca_early_stop_at_first_iteration :
  forall (R : Type) (SR : Scalar R) (BR : Backend R) (samples dictionary : obj R)
         (c0 : option loc) (chk : bool) (u0 : tensor R)
         (w : world R rng_state (LCA.t R)),
    warm_start (w_heap w) c0
      (zeros [dim0 (value samples); dim1 (value dictionary)]) u0 ->
    LCA.stop_early (w_self w) = true ->
    LCA.n_iter (w_self w) <> 0 ->
    ltb (div (norm (tsub u0 (lca_first_update (w_self w) (value samples)
                               (value dictionary) u0)))
             (norm u0))
        (LCA.epsilon (w_self w)) = true ->
    wp (LCA.infer samples dictionary c0 chk) (fun _ => False)
       (fun r _ =>
          lca_infer_v (lca_with_n_iter (w_self w) 1) (value samples)
            (value dictionary) u0 false = Ok r
          /\ (LCA.mode_is (w_self w) "none" = false ->
              shape r = filter (fun d => d <> 1)
                          [dim0 (value samples); 2; dim1 (value dictionary)]))
       w.
Proof.
  intros R SR BR samples dictionary c0 chk u0 w Hc0 Hse Hn Hstop.
  destruct (lca_infer_v_stops_at_once (w_self w) (value samples) (value dictionary)
              u0 chk Hse Hn Hstop) as (Heq & r0 & Hr0 & Hshape).
  eapply wp_mono; [apply lca_infer_wp, Hc0 | |].
  - intros e He. congruence.
  - simpl. intros r w' (Hv & _).
    assert (r = r0) as -> by congruence.
    split; [congruence | exact Hshape].
Qed.

(** Witness of [lca_early_stop_at_first_iteration]: with the identity as
    dictionary, a warm start equal to the sample is a fixed point, and the
    first of five iterations is the last. *)
Lemma lca_early_stop_at_first_iteration_witness :
  let w := Demo.world1 Sample.lca_early Demo.unit12 in
  warm_start (w_heap w) (Some 0) (zeros [1; 2]) (value Demo.unit12)
  /\ LCA.stop_early (w_self w) = true
  /\ LCA.n_iter (w_self w) <> 0
  /\ ltb (div (norm (tsub (value Demo.unit12)
                       (lca_first_update (w_self w) (value Demo.unit12)
                          (value Demo.eye2) (value Demo.unit12))))
              (norm (value Demo.unit12)))
         (LCA.epsilon (w_self w)) = true
  /\ wp (LCA.infer Demo.unit12 Demo.eye2 (Some 0) true) (fun _ => False)
        (fun r _ =>
           lca_infer_v (lca_with_n_iter (w_self w) 1) (value Demo.unit12)
             (value Demo.eye2) (value Demo.unit12) false = Ok r
           /\ (LCA.mode_is (w_self w) "none" = false ->
               shape r = filter (fun d => d <> 1) [1; 2; 2]))
        w.
Proof.
  intros w.
  assert (warm_start (w_heap w) (Some 0) (zeros [1; 2]) (value Demo.unit12)) as H0
    by (exists Demo.unit12; split; reflexivity).
  assert (LCA.stop_early (w_self w) = true) as H1 by reflexivity.
  assert (LCA.n_iter (w_self w) <> 0) as H2 by (vm_compute; lia).
  assert (ltb (div (norm (tsub (value Demo.unit12)
                            (lca_first_update (w_self w) (value Demo.unit12)
                               (value Demo.eye2) (value Demo.unit12))))
                   (norm (value Demo.unit12)))
              (LCA.epsilon (w_self w)) = true) as H3
    by (vm_compute; reflexivity).
  split; [exact H0|]. split; [exact H1|]. split; [exact H2|]. split; [exact H3|].
  exact (lca_early_stop_at_first_iteration Qc Exact.scalar Reference.backend
           Demo.unit12 Demo.eye2 (Some 0) true (value Demo.unit12) w H0 H1 H2 H3).
Defined.

Section GuardOff.
Context {R : Type} `{Backend R}.

Lemma lca_loop_guard_off (self : LCA.t R) (b G : tensor R) :
  forall (n : nat) (u cs : tensor R) (p : tensor R * tensor R),
    LCA.loop self b G true n u cs = Ok p -> LCA.loop self b G false n u cs = Ok p.
Proof.
  induction n as [|n IH]; intros u cs p; cbn [LCA.loop]; [auto|].
  destruct (LCA.stop_early self && _); [auto|].
  destruct (InferenceMethod.checknan _ _); [|discriminate]. apply IH.
Qed.

Lemma vanilla_loop_guard_off (self : Vanilla.t R) (samples dictionary : tensor R) :
  forall (n : nat) (a residual cs : tensor R) (p : tensor R * tensor R),
    Vanilla.loop self samples dictionary true n a residual cs = Ok p ->
    Vanilla.loop self samples dictionary false n a residual cs = Ok p.
Proof.
  induction n as [|n IH]; intros a residual cs p; cbn [Vanilla.loop]; [auto|].
  destruct (Vanilla.stop_early self && _); [auto|].
  destruct (InferenceMethod.checknan _ _); [|discriminate]. apply IH.
Qed.

Lemma ista_loop_v_guard_off (ra se : bool) (eps th stepsize : R) :
  forall (n : nat) (lk ad aD : bool)
         (samples dictionary u sc residual cs : tensor R) (p : tensor R * tensor R),
    ista_loop_v ra se eps th stepsize true n lk ad aD samples dictionary u sc
      residual cs = Ok p ->
    ista_loop_v ra se eps th stepsize false n lk ad aD samples dictionary u sc
      residual cs = Ok p.
Proof.
  induction n as [|n IH];
    intros lk ad aD samples dictionary u sc residual cs p; cbn [ista_loop_v];
    [auto|].
  destruct lk; [auto|].
  destruct (se && _); [auto|].
  destruct (InferenceMethod.checknan _ _); [|discriminate]. apply IH.
Qed.

Lemma lca_infer_v_guard_off (self : LCA.t R) (samples dictionary u0 r : tensor R) :
  lca_infer_v self samples dictionary u0 true = Ok r ->
  lca_infer_v self samples dictionary u0 false = Ok r.
Proof.
  unfold lca_infer_v.
  destruct (LCA.loop self _ _ true _ _ _) as [p|e] eqn:Hl; [|discriminate].
  rewrite (lca_loop_guard_off _ _ _ _ _ _ _ Hl). auto.
Qed.

Lemma vanilla_infer_v_guard_off (self : Vanilla.t R)
    (samples dictionary a0 r : tensor R) :
  vanilla_infer_v self samples dictionary a0 true = Ok r ->
  vanilla_infer_v self samples dictionary a0 false = Ok r.
Proof.
  unfold vanilla_infer_v.
  destruct (Vanilla.loop self _ _ true _ _ _ _) as [p|e] eqn:Hl; [|discriminate].
  rewrite (vanilla_loop_guard_off _ _ _ _ _ _ _ _ Hl). auto.
Qed.

Lemma ista_infer_v_guard_off (self : ISTA.t R) (samples dictionary u0 r : tensor R)
    (lk ad aD : bool) :
  ista_infer_v self samples dictionary u0 lk ad aD true = Ok r ->
  ista_infer_v self samples dictionary u0 lk ad aD false = Ok r.
Proof.
  unfold ista_infer_v. destruct (ISTA.lipschitz_constant _); [|auto].
  destruct (ista_loop_v _ _ _ _ _ true _ _ _ _ _ _ _ _ _ _) as [p|e] eqn:Hl;
    [|discriminate].
  rewrite (ista_loop_v_guard_off _ _ _ _ _ _ _ _ _ _ _ _ _ _ _ _ Hl). auto.
Qed.
End GuardOff.

(** X7.  The NaN guard only ever stops a call: when [LCA.infer],
    [Vanilla.infer] or [ISTA.infer] returns a tensor with [use_checknan] on,
    the same call from the same state with [use_checknan] off returns that
    tensor. *)
Theorem infer_guard_only_stops :
  forall (R : Type) (SR : Scalar R) (BR : Backend R) (samples dictionary : obj R)
         (c0 : option loc) (r : tensor R),
    (forall w : world R rng_state (LCA.t R),
        outcome (LCA.infer samples dictionary c0 true w) = Ok r ->
        outcome (LCA.infer samples dictionary c0 false w) = Ok r)
    /\ (forall w : world R rng_state (Vanilla.t R),
          outcome (Vanilla.infer samples dictionary c0 true w) = Ok r ->
          outcome (Vanilla.infer samples dictionary c0 false w) = Ok r)
    /\ (forall (ld lD : loc) (w : world R rng_state (ISTA.t R)),
          outcome (ISTA.infer ld lD c0 true w) = Ok r ->
          outcome (ISTA.infer ld lD c0 false w) = Ok r).
Proof.
  intros R SR BR samples dictionary c0 r. split; [|split].
  - intros w.
    destruct c0 as [c|]; [destruct (w_heap w !! c) as [o|] eqn:Hc|].
    + rewrite !(lca_infer_outcome _ _ _ _ (value o)) by (simpl; eauto).
      apply lca_infer_v_guard_off.
    + rewrite !lca_infer_dangling by exact Hc. auto.
    + rewrite !(lca_infer_outcome _ _ None _ _ _ eq_refl).
      apply lca_infer_v_guard_off.
  - intros w.
    destruct c0 as [c|]; [destruct (w_heap w !! c) as [o|] eqn:Hc|].
    + rewrite !(vanilla_infer_outcome _ _ _ _ (value o)) by (simpl; eauto).
      apply vanilla_infer_v_guard_off.
    + rewrite !vanilla_infer_dangling by exact Hc. auto.
    + rewrite !(vanilla_infer_outcome _ _ None _ _ _ eq_refl).
      apply vanilla_infer_v_guard_off.
  - intros ld lD w Hret.
    assert (w_heap w !! ld <> None /\ w_heap w !! lD <> None
            /\ forall c, c0 = Some c -> w_heap w !! c <> None) as (Hx & HD & Hc).
    { assert (forall P : Prop,
                (P -> w_heap w !! ld = None \/ w_heap w !! lD = None
                      \/ exists c, c0 = Some c /\ w_heap w !! c = None) -> ~ P) as Hd.
      { intros P HP HPt.
        destruct (ista_infer_dangling ld lD c0 true w (HP HPt)) as (e & He & _).
        rewrite He in Hret. discriminate Hret. }
      split; [apply Hd; auto|]. split; [apply Hd; auto|].
      intros c Hc0. apply Hd. eauto. }
    destruct (w_heap w !! ld) as [x|] eqn:Hx'; [|contradiction].
    destruct (w_heap w !! lD) as [d|] eqn:HD'; [|contradiction].
    destruct c0 as [c|].
    + destruct (w_heap w !! c) as [o|] eqn:Hc'; [|destruct (Hc c eq_refl Hc')].
      rewrite (ista_infer_outcome ld lD x d (Some c) true (value o)) in Hret
        by (simpl; eauto).
      rewrite (ista_infer_outcome ld lD x d (Some c) false (value o))
        by (simpl; eauto).
      apply ista_infer_v_guard_off, Hret.
    + rewrite (ista_infer_outcome ld lD x d None true
                 (zeros [dim0 (value x); dim1 (value d)])) in Hret
        by first [assumption | reflexivity].
      rewrite (ista_infer_outcome ld lD x d None false
                 (zeros [dim0 (value x); dim1 (value d)]))
        by first [assumption | reflexivity].
      apply ista_infer_v_guard_off, Hret.
Qed.

(** Witness of [infer_guard_only_stops]: two iterations of [ISTA] that the
    guard lets pass. *)
Lemma infer_guard_only_stops_witness :
  let w := Demo.world2 Demo.ista_plain Demo.data22 Demo.eye2 in
  exists r,
    outcome (@ISTA.infer Qc Exact.scalar Reference.backend 0 1 None true w) = Ok r
    /\ outcome (@ISTA.infer Qc Exact.scalar Reference.backend 0 1 None false w) = Ok r.
Proof.
  intros w. eexists.
  assert (outcome (@ISTA.infer Qc Exact.scalar Reference.backend 0 1 None true w)
          = Ok _) as Hret by (vm_compute; reflexivity).
  split; [exact Hret|].
  exact (proj2 (proj2 (infer_guard_only_stops Qc Exact.scalar Reference.backend
                         Demo.data22 Demo.eye2 None _))
           0 1 w Hret).
Defined.

(** ** The greedy solvers, sample by sample *)

Section Batches.
Context {R : Type} `{Scalar R}.

Lemma tabulate2_ext (m n : nat) (f g : nat -> nat -> R) :
  (forall i j, i < m -> j < n -> f i j = g i j) ->
  tabulate2 m n f = tabulate2 m n g.
Proof.
  intros Hfg. unfold tabulate2. f_equal.
  assert (forall s k, s + k <= m ->
            flat_map (fun i => map (f i) (seq 0 n)) (seq s k)
            = flat_map (fun i => map (g i) (seq 0 n)) (seq s k)) as Hflat.
  { intros s k. revert s. induction k as [|k IH]; intros s Hs; [reflexivity|].
    cbn [seq flat_map]. f_equal.
    - apply map_ext_in. intros j Hj%in_seq. apply Hfg; lia.
    - apply IH. lia. }
  apply Hflat. lia.
Qed.

Lemma slice_row_idem (t : tensor R) (i : nat) :
  slice_row (slice_row t i) 0 = slice_row t i.
Proof.
  unfold slice_row at 1. change (dim1 (slice_row t i)) with (dim1 t).
  unfold slice_row at 2. apply tabulate2_ext.
  intros i' j _ Hj. unfold slice_row. rewrite get2_tabulate2 by lia. reflexivity.
Qed.

(** A loop that writes row [i] of the result from the index [i] alone. *)
Lemma fold_set_row (row_of : nat -> tensor R) (b n : nat) :
  forall (idxs : list nat) (t : tensor R),
    shape t = [b; n] ->
    let t' := fold_left (fun t i => set_row t i (row_of i)) idxs t in
    shape t' = [b; n]
    /\ forall i, i < b ->
         row t' i = if decide (i ∈ idxs)
                    then map (fun j => nth j (data (row_of i)) zero) (seq 0 n)
                    else row t i.
Proof.
  induction idxs as [|k idxs IH]; intros t Hsh; cbn [fold_left].
  - split; [exact Hsh|]. intros i _.
    rewrite decide_False by (apply not_elem_of_nil). reflexivity.
  - assert (dim0 t = b /\ dim1 t = n) as [Hb Hn]
      by (unfold dim0, dim1; rewrite Hsh; auto).
    destruct (IH (set_row t k (row_of k))) as [Hsh' Hrows].
    { unfold set_row, tabulate2. cbn [shape]. rewrite Hb, Hn. reflexivity. }
    split; [exact Hsh'|]. intros i Hi. rewrite (Hrows i Hi).
    destruct (decide (i ∈ idxs)) as [Hin|Hin].
    + rewrite decide_True by (right; exact Hin). reflexivity.
    + rewrite row_set_row by lia. rewrite Hn.
      destruct (Nat.eqb_spec i k) as [->|Hne].
      * rewrite decide_True by left. reflexivity.
      * rewrite decide_False by (intros [?|?]%elem_of_cons; [congruence|contradiction]).
        reflexivity.
Qed.

Lemma fold_set_row_seq (row_of : nat -> tensor R) (b n : nat) :
  let t' := fold_left (fun t i => set_row t i (row_of i)) (seq 0 b) (zeros [b; n]) in
  shape t' = [b; n]
  /\ forall i, i < b ->
       row t' i = map (fun j => nth j (data (row_of i)) zero) (seq 0 n).
Proof.
  destruct (fold_set_row row_of b n (seq 0 b) (zeros [b; n]) eq_refl) as [Hsh Hrows].
  split; [exact Hsh|]. intros i Hi. rewrite (Hrows i Hi).
  rewrite decide_True by (apply elem_of_seq; lia). reflexivity.
Qed.
End Batches.

(** X8.  [IHT.infer] treats the samples of a batch one by one: the result
    has the shape [(batch, n_basis)], and its row [i] is the row that the
    solver returns for the batch made of sample [i] alone. *)
Theorem iht_rows_independent :
  forall (R : Type) (SR : Scalar R) (BR : Backend R) (samples dictionary : obj R)
         (w : world R rng_state (IHT.t R)) (i : nat),
    i < dim0 (value samples) ->
    exists r r1,
      IHT.infer samples dictionary w = Ok (r, w)
      /\ IHT.infer (single_sample samples i) dictionary w = Ok (r1, w)
      /\ shape r = [dim0 (value samples); dim1 (value dictionary)]
      /\ shape r1 = [1; dim1 (value dictionary)]
      /\ row r i = row r1 0.
Proof.
  intros R SR BR samples dictionary w i Hi.
  do 2 eexists.
  split; [cbv [IHT.infer bind get_self ret]; reflexivity|].
  split; [cbv [IHT.infer bind get_self ret]; reflexivity|].
  cbn [single_sample value]. change (dim0 (slice_row (value samples) i)) with 1.
  set (nb := dim1 (value dictionary)). set (K := IHT.K (w_self w) nb).
  unfold IHT.sample.
  destruct (fold_set_row_seq
              (fun i => iterate (IHT.n_iter (w_self w))
                          (IHT.step K (value dictionary)
                             (clone (slice_row (value samples) i)) nb)
                          (zeros [1; nb]))
              (dim0 (value samples)) nb) as [Hsh Hrows].
  destruct (fold_set_row_seq
              (fun k => iterate (IHT.n_iter (w_self w))
                          (IHT.step K (value dictionary)
                             (clone (slice_row (slice_row (value samples) i) k)) nb)
                          (zeros [1; nb]))
              1 nb) as [Hsh1 Hrows1].
  split; [exact Hsh|]. split; [exact Hsh1|].
  rewrite (Hrows i Hi), (Hrows1 0) by lia.
  rewrite slice_row_idem. reflexivity.
Qed.

(** Witness of [iht_rows_independent]: the second of two samples. *)
Lemma iht_rows_independent_witness :
  1 < dim0 (value Demo.data22)
  /\ exists r r1,
       IHT.infer Demo.data22 Demo.dict23 (Demo.world0 Demo.iht_half)
       = Ok (r, Demo.world0 Demo.iht_half)
       /\ IHT.infer (single_sample Demo.data22 1) Demo.dict23
            (Demo.world0 Demo.iht_half)
          = Ok (r1, Demo.world0 Demo.iht_half)
       /\ shape r = [2; 3]
       /\ shape r1 = [1; 3]
       /\ row r 1 = row r1 0.
Proof.
  assert (1 < dim0 (value Demo.data22)) as Hi by (vm_compute; lia).
  split; [exact Hi|].
  exact (iht_rows_independent Qc Exact.scalar Reference.backend Demo.data22
           Demo.dict23 (Demo.world0 Demo.iht_half) 1 Hi).
Defined.

(** X9.  [MP.infer] treats the samples of a batch one by one, as
    [IHT.infer] does. *)
Theorem mp_rows_independent :
  forall (R : Type) (SR : Scalar R) (BR : Backend R) (samples dictionary : obj R)
         (w : world R rng_state (MP.t R)) (i : nat),
    i < dim0 (value samples) ->
    exists r r1,
      MP.infer samples dictionary w = Ok (r, w)
      /\ MP.infer (single_sample samples i) dictionary w = Ok (r1, w)
      /\ shape r = [dim0 (value samples); dim1 (value dictionary)]
      /\ shape r1 = [1; dim1 (value dictionary)]
      /\ row r i = row r1 0.
Proof.
  intros R SR BR samples dictionary w i Hi.
  do 2 eexists.
  split; [cbv [MP.infer bind get_self ret]; reflexivity|].
  split; [cbv [MP.infer bind get_self ret]; reflexivity|].
  cbn [single_sample value]. change (dim0 (slice_row (value samples) i)) with 1.
  set (nb := dim1 (value dictionary)). set (K := MP.K (w_self w) nb).
  unfold MP.sample.
  destruct (fold_set_row_seq
              (fun i => snd (iterate (Z.to_nat K)
                          (MP.step (value dictionary) (norm_dim0 (value dictionary)))
                          (clone (slice_row (value samples) i), zeros [1; nb])))
              (dim0 (value samples)) nb) as [Hsh Hrows].
  destruct (fold_set_row_seq
              (fun k => snd (iterate (Z.to_nat K)
                          (MP.step (value dictionary) (norm_dim0 (value dictionary)))
                          (clone (slice_row (slice_row (value samples) i) k),
                           zeros [1; nb])))
              1 nb) as [Hsh1 Hrows1].
  split; [exact Hsh|]. split; [exact Hsh1|].
  rewrite (Hrows i Hi), (Hrows1 0) by lia.
  rewrite slice_row_idem. reflexivity.
Qed.

(** Witness of [mp_rows_independent]: the second of two samples. *)
Lemma mp_rows_independent_witness :
  1 < dim0 (value Demo.data22)
  /\ exists r r1,
       MP.infer Demo.data22 Demo.dict23 (Demo.world0 Sample.mp_half)
       = Ok (r, Demo.world0 Sample.mp_half)
       /\ MP.infer (single_sample Demo.data22 1) Demo.dict23
            (Demo.world0 Sample.mp_half)
          = Ok (r1, Demo.world0 Sample.mp_half)
       /\ shape r = [2; 3]
       /\ shape r1 = [1; 3]
       /\ row r 1 = row r1 0.
Proof.
  assert (1 < dim0 (value Demo.data22)) as Hi by (vm_compute; lia).
  split; [exact Hi|].
  exact (mp_rows_independent Qc Exact.scalar Reference.backend Demo.data22
           Demo.dict23 (Demo.world0 Sample.mp_half) 1 Hi).
Defined.

(** X10.  [OMP.infer] treats the samples of a batch one by one, as
    [IHT.infer] does. *)
Theorem omp_rows_independent :
  forall (R : Type) (SR : Scalar R) (BR : Backend R) (samples dictionary : obj R)
         (w : world R rng_state (OMP.t R)) (i : nat),
    i < dim0 (value samples) ->
    exists r r1,
      OMP.infer samples dictionary w = Ok (r, w)
      /\ OMP.infer (single_sample samples i) dictionary w = Ok (r1, w)
      /\ shape r = [dim0 (value samples); dim1 (value dictionary)]
      /\ shape r1 = [1; dim1 (value dictionary)]
      /\ row r i = row r1 0.
Proof.
  intros R SR BR samples dictionary w i Hi.
  do 2 eexists.
  split; [cbv [OMP.infer bind get_self ret]; reflexivity|].
  split; [cbv [OMP.infer bind get_self ret]; reflexivity|].
  cbn [single_sample value]. change (dim0 (slice_row (value samples) i)) with 1.
  set (nb := dim1 (value dictionary)). set (K := OMP.K (w_self w) nb).
  unfold OMP.sample.
  destruct (fold_set_row_seq
              (fun i => OMP.coeff (iterate (Z.to_nat K)
                          (OMP.step (value dictionary) (norm_dim0 (value dictionary))
                             (clone (slice_row (value samples) i)))
                          (OMP.init_state (clone (slice_row (value samples) i)) nb)))
              (dim0 (value samples)) nb) as [Hsh Hrows].
  destruct (fold_set_row_seq
              (fun k => OMP.coeff (iterate (Z.to_nat K)
                          (OMP.step (value dictionary) (norm_dim0 (value dictionary))
                             (clone (slice_row (slice_row (value samples) i) k)))
                          (OMP.init_state
                             (clone (slice_row (slice_row (value samples) i) k)) nb)))
              1 nb) as [Hsh1 Hrows1].
  split; [exact Hsh|]. split; [exact Hsh1|].
  rewrite (Hrows i Hi), (Hrows1 0) by lia.
  rewrite slice_row_idem. reflexivity.
Qed.

(** Witness of [omp_rows_independent]: the second of two samples. *)
Lemma omp_rows_independent_witness :
  1 < dim0 (value Demo.data22)
  /\ exists r r1,
       OMP.infer Demo.data22 Demo.dict23 (Demo.world0 Demo.omp_full)
       = Ok (r, Demo.world0 Demo.omp_full)
       /\ OMP.infer (single_sample Demo.data22 1) Demo.dict23
            (Demo.world0 Demo.omp_full)
          = Ok (r1, Demo.world0 Demo.omp_full)
       /\ shape r = [2; 3]
       /\ shape r1 = [1; 3]
       /\ row r 1 = row r1 0.
Proof.
  assert (1 < dim0 (value Demo.data22)) as Hi by (vm_compute; lia).
  split; [exact Hi|].
  exact (omp_rows_independent Qc Exact.scalar Reference.backend Demo.data22
           Demo.dict23 (Demo.world0 Demo.omp_full) 1 Hi).
Defined.

(** ** The sparsity of the pursuits *)

Section Support.
Context {R : Type} `{Scalar R}.

Lemma iterate_count {A} (P : nat -> A -> Prop) (f : A -> A) (n : nat) (x : A) :
  P 0 x -> (forall k y, P k y -> P (S k) (f y)) -> P n (iterate n f x).
Proof.
  intros H0 HS.
  assert (forall m k y, P k y -> P (k + m) (iterate m f y)) as Hgen.
  { induction m as [|m IH]; intros k y Hy; simpl.
    - rewrite Nat.add_0_r. exact Hy.
    - rewrite <- Nat.add_succ_comm. apply IH, HS, Hy. }
  apply (Hgen n 0 x H0).
Qed.

Lemma length_index_put (ivs : list (nat * R)) (l : list R) :
  length (fold_left (fun d iv => <[fst iv := snd iv]> d) ivs l) = length l.
Proof.
  revert l. induction ivs as [|iv ivs IH]; intros l; simpl; [reflexivity|].
  rewrite IH. apply length_insert.
Qed.

(** A write at other indices leaves an entry as it was. *)
Lemma nth_index_put_other (ivs : list (nat * R)) (l : list R) (j : nat) :
  j ∉ map fst ivs ->
  nth j (fold_left (fun d iv => <[fst iv := snd iv]> d) ivs l) zero = nth j l zero.
Proof.
  revert l. induction ivs as [|iv ivs IH]; intros l Hj; simpl; [reflexivity|].
  cbn [map] in Hj. apply not_elem_of_cons in Hj as [Hne Hj].
  rewrite IH by exact Hj.
  rewrite !nth_lookup, list_lookup_insert_ne by congruence. reflexivity.
Qed.

Lemma filter_nonzero_length (idxs : list nat) :
  0 ∈ idxs -> length (filter (fun i => i <> 0) idxs) < length idxs.
Proof.
  induction idxs as [|i idxs IH]; intros Hin; [inversion Hin|].
  rewrite filter_cons. destruct (decide (i <> 0)) as [Hi|Hi]; simpl.
  - apply elem_of_cons in Hin as [Hin|Hin]; [congruence|].
    specialize (IH Hin). lia.
  - pose proof (length_filter (fun i => i <> 0) idxs). lia.
Qed.

(** A row whose entries away from [idxs] are zero has at most
    [length idxs] entries that are not. *)
Lemma count_nonzero_support (l : list R) :
  forall idxs : list nat,
    (forall j, j < length l -> nth j l zero <> zero -> j ∈ idxs) ->
    count_nonzero l <= length idxs.
Proof.
  induction l as [|x l IH]; intros idxs Hsupp; [unfold count_nonzero; simpl; lia|].
  rewrite count_nonzero_cons.
  specialize (IH (map pred (filter (fun i => i <> 0) idxs))).
  rewrite length_map in IH.
  assert (count_nonzero l <= length (filter (fun i => i <> 0) idxs)) as Hl.
  { apply IH. intros j Hj Hnz.
    apply (list_elem_of_fmap_2' pred _ (S j)); [|reflexivity].
    apply list_elem_of_filter. split; [lia|].
    apply Hsupp; [simpl; lia | exact Hnz]. }
  destruct (decide (x = zero)) as [Hx|Hx].
  - pose proof (length_filter (fun i => i <> 0) idxs). lia.
  - assert (0 ∈ idxs) as H0 by (apply Hsupp; [simpl; lia | exact Hx]).
    pose proof (filter_nonzero_length idxs H0). lia.
Qed.

Lemma nth_zeros (sh : list nat) (j : nat) : nth j (data (zeros sh : tensor R)) zero = zero.
Proof.
  unfold zeros. cbn [data].
  destruct (Nat.lt_ge_cases j (numel sh)) as [Hj|Hj].
  - apply nth_repeat.
  - apply nth_overflow. rewrite repeat_length. exact Hj.
Qed.
End Support.

Section Pursuits.
Context {R : Type} `{Backend R}.

Lemma mp_sample_sparse (dictionary dictionary_norms y : tensor R) (n_basis k : nat) :
  count_nonzero
    (data (snd (iterate k (MP.step dictionary dictionary_norms) (y, zeros [1; n_basis]))))
  <= k.
Proof.
  apply (iterate_count (fun k yc => count_nonzero (data (snd yc)) <= k)).
  - cbn [snd]. unfold zeros. cbn [data]. rewrite count_nonzero_repeat. lia.
  - intros k' [y' c] Hc. unfold MP.step, index_put0. cbn [fst snd data zip zip_with
      fold_left] in *.
    pose proof (count_nonzero_insert (data c)
                  (argmax (data (tdiv (tabs (mm y' dictionary)) dictionary_norms)))
                  (get2 (mm y' dictionary) 0
                     (argmax (data (tdiv (tabs (mm y' dictionary)) dictionary_norms))))).
    lia.
Qed.

(** After [k] steps of [OMP] the chosen indices are [k], the row has its
    length, and its entries away from the chosen indices are zero. *)
Lemma omp_sample_support (dictionary dictionary_norms y : tensor R) (n_basis k : nat) :
  let st := iterate k (OMP.step dictionary dictionary_norms y)
              (OMP.init_state y n_basis) in
  length (OMP.indices st) = k
  /\ length (data (OMP.coeff st)) = n_basis
  /\ forall j, nth j (data (OMP.coeff st)) zero <> zero -> j ∈ OMP.indices st.
Proof.
  apply (iterate_count
           (fun k st => length (OMP.indices st) = k
                        /\ length (data (OMP.coeff st)) = n_basis
                        /\ forall j, nth j (data (OMP.coeff st)) zero <> zero ->
                                     j ∈ OMP.indices st)).
  - cbn [OMP.init_state OMP.indices OMP.coeff]. split; [reflexivity|].
    split; [unfold zeros; cbn [data numel fold_right]; rewrite repeat_length; lia|].
    intros j Hj. rewrite nth_zeros in Hj. contradiction.
  - intros k' st (Hlen & Hrow & Hsupp). unfold OMP.step.
    cbn [OMP.indices OMP.coeff]. unfold index_put0. cbn [data].
    split; [rewrite length_app; simpl; lia|].
    split; [rewrite length_index_put; exact Hrow|].
    intros j Hj.
    match goal with |- j ∈ ?l => destruct (decide (j ∈ l)) as [Hin|Hin] end;
      [exact Hin|].
    exfalso. apply Hj. rewrite nth_index_put_other.
    + destruct (decide (nth j (data (OMP.coeff st)) zero = zero)) as [Hz|Hz];
        [exact Hz|].
      exfalso. apply Hin, elem_of_app. left. apply Hsupp, Hz.
    + intros Hmem. apply Hin.
      apply list_elem_of_fmap in Hmem as ([j' v] & -> & Hmem).
      apply elem_of_zip_l in Hmem. exact Hmem.
Qed.
End Pursuits.

(** X11.  For every sparsity, [MP.infer] returns a matrix of shape
    [(batch, n_basis)] each row of which has at most as many entries that
    are not zero as the loop over [range(0, K)] has iterations. *)
Theorem mp_rows_sparse :
  forall (R : Type) (SR : Scalar R) (BR : Backend R) (samples dictionary : obj R)
         (w : world R rng_state (MP.t R)),
    exists r,
      MP.infer samples dictionary w = Ok (r, w)
      /\ shape r = [dim0 (value samples); dim1 (value dictionary)]
      /\ forall i, i < dim0 (value samples) ->
           count_nonzero (row r i)
           <= Z.to_nat (ceil (mul (MP.sparsity (w_self w))
                                  (of_nat (dim1 (value dictionary))))).
Proof.
  intros R SR BR samples dictionary w.
  eexists. split; [cbv [MP.infer bind get_self ret]; reflexivity|].
  set (nb := dim1 (value dictionary)). change (MP.K (w_self w) nb) with
    (ceil (mul (MP.sparsity (w_self w)) (of_nat nb))).
  set (K := ceil _). unfold MP.sample.
  destruct (fold_set_row_seq
              (fun i => snd (iterate (Z.to_nat K)
                          (MP.step (value dictionary) (norm_dim0 (value dictionary)))
                          (clone (slice_row (value samples) i), zeros [1; nb])))
              (dim0 (value samples)) nb) as [Hsh Hrows].
  split; [exact Hsh|]. intros i Hi. rewrite (Hrows i Hi).
  etransitivity; [apply count_nonzero_read|]. apply mp_sample_sparse.
Qed.

(** X12.  For every sparsity, [OMP.infer] returns a matrix of shape
    [(batch, n_basis)] each row of which has at most as many entries that
    are not zero as the loop over [range(0, K)] has iterations. *)
Theorem omp_rows_sparse :
  forall (R : Type) (SR : Scalar R) (BR : Backend R) (samples dictionary : obj R)
         (w : world R rng_state (OMP.t R)),
    exists r,
      OMP.infer samples dictionary w = Ok (r, w)
      /\ shape r = [dim0 (value samples); dim1 (value dictionary)]
      /\ forall i, i < dim0 (value samples) ->
           count_nonzero (row r i)
           <= Z.to_nat (ceil (mul (OMP.sparsity (w_self w))
                                  (of_nat (dim1 (value dictionary))))).
Proof.
  intros R SR BR samples dictionary w.
  eexists. split; [cbv [OMP.infer bind get_self ret]; reflexivity|].
  set (nb := dim1 (value dictionary)). change (OMP.K (w_self w) nb) with
    (ceil (mul (OMP.sparsity (w_self w)) (of_nat nb))).
  set (K := ceil _). unfold OMP.sample.
  destruct (fold_set_row_seq
              (fun i => OMP.coeff (iterate (Z.to_nat K)
                          (OMP.step (value dictionary) (norm_dim0 (value dictionary))
                             (clone (slice_row (value samples) i)))
                          (OMP.init_state (clone (slice_row (value samples) i)) nb)))
              (dim0 (value samples)) nb) as [Hsh Hrows].
  split; [exact Hsh|]. intros i Hi. rewrite (Hrows i Hi).
  etransitivity; [apply count_nonzero_read|].
  destruct (omp_sample_support (value dictionary) (norm_dim0 (value dictionary))
              (clone (slice_row (value samples) i)) nb (Z.to_nat K))
    as (Hlen & _ & Hsupp).
  rewrite <- Hlen at 2. apply count_nonzero_support. intros j _. apply Hsupp.
Qed.

(** ** Hard thresholding keeps the entries of greatest magnitude *)

Section Sorting.
Context {R : Type} `{Scalar R}.

Lemma length_tabulate2 (m n : nat) (f : nat -> nat -> R) :
  length (data (tabulate2 m n f)) = m * n.
Proof.
  unfold tabulate2. cbn [data].
  assert (forall s, length (flat_map (fun i => map (f i) (seq 0 n)) (seq s m)) = m * n)
    as Hs; [|apply Hs].
  induction m as [|m IH]; intros s; [reflexivity|].
  cbn [seq flat_map]. rewrite length_app, length_map, length_seq, IH. lia.
Qed.

Lemma lookup_nth (l : list R) (j : nat) :
  j < length l -> l !! j = Some (nth j l zero).
Proof.
  intros Hj. destruct (lookup_lt_is_Some_2 l j Hj) as [x Hx].
  rewrite Hx. f_equal. symmetry. apply nth_lookup_Some, Hx.
Qed.

Lemma insert_desc_perm (iv : nat * R) (l : list (nat * R)) :
  insert_desc iv l ≡ₚ iv :: l.
Proof.
  induction l as [|jw l IH]; [reflexivity|]. cbn [insert_desc].
  destruct (gt_or_nan (snd iv) (snd jw)); [reflexivity|].
  rewrite IH. apply Permutation_swap.
Qed.

Lemma sort_desc_perm (l : list (nat * R)) :
  fold_right insert_desc [] l ≡ₚ l.
Proof.
  induction l as [|iv l IH]; [reflexivity|]. cbn [fold_right].
  rewrite insert_desc_perm, IH. reflexivity.
Qed.

Lemma argsort_desc_perm (l : list R) :
  argsort_desc l ≡ₚ seq 0 (length l).
Proof.
  unfold argsort_desc.
  change (map fst (fold_right insert_desc [] (zip (seq 0 (length l)) l)))
    with (fst <$> fold_right insert_desc [] (zip (seq 0 (length l)) l)).
  rewrite sort_desc_perm, fst_zip by (rewrite length_seq; lia). reflexivity.
Qed.

Lemma argsort_desc_length (l : list R) : length (argsort_desc l) = length l.
Proof. rewrite argsort_desc_perm. apply length_seq. Qed.

Lemma argsort_desc_NoDup (l : list R) : NoDup (argsort_desc l).
Proof. rewrite argsort_desc_perm. apply NoDup_seq. Qed.

Lemma py_slice_to_take {A} (K : Z) (l : list A) :
  py_slice_to K l
  = take (if (K <? 0)%Z then length l - Z.to_nat (- K) else Z.to_nat K) l.
Proof. unfold py_slice_to. destruct (K <? 0)%Z; reflexivity. Qed.

(** Writes of [g i] at the indices [i]: what an index written holds. *)
Lemma nth_index_put_written (g : nat -> R) (j : nat) :
  forall (ivs : list (nat * R)) (l : list R),
    (forall iv, iv ∈ ivs -> snd iv = g (fst iv)) ->
    j < length l ->
    j ∈ map fst ivs \/ nth j l zero = g j ->
    nth j (fold_left (fun d iv => <[fst iv := snd iv]> d) ivs l) zero = g j.
Proof.
  induction ivs as [|iv ivs IH]; intros l Hg Hj Hcase; cbn [fold_left].
  - destruct Hcase as [Hin|Hl]; [inversion Hin | exact Hl].
  - apply IH.
    + intros iv' Hiv'. apply Hg. right. exact Hiv'.
    + rewrite length_insert. exact Hj.
    + destruct (decide (j ∈ map fst ivs)) as [Hin|Hin]; [left; exact Hin|].
      right. rewrite nth_lookup.
      destruct (decide (fst iv = j)) as [Heq|Hne].
      * subst j. rewrite list_lookup_insert_eq by exact Hj. cbn [default].
        apply Hg. left.
      * rewrite list_lookup_insert_ne by exact Hne. rewrite <- nth_lookup.
        destruct Hcase as [Hmem|Hl]; [|exact Hl].
        cbn [map] in Hmem. apply elem_of_cons in Hmem as [Hmem|Hmem];
          [congruence | contradiction].
Qed.

Lemma zip_gather (g : nat -> R) (idxs : list nat) (iv : nat * R) :
  iv ∈ zip idxs (map g idxs) -> snd iv = g (fst iv).
Proof.
  induction idxs as [|i idxs IH]; cbn [map zip zip_with]; intros Hin;
    [inversion Hin|].
  apply elem_of_cons in Hin as [->|Hin]; [reflexivity | exact (IH Hin)].
Qed.

Lemma fst_zip_gather (g : nat -> R) (idxs : list nat) :
  map fst (zip idxs (map g idxs)) = idxs.
Proof.
  change (fst <$> zip idxs (map g idxs) = idxs).
  apply fst_zip. rewrite length_map. lia.
Qed.

Context {WO : WeakOrder R}.

Lemma insert_desc_sorted (iv : nat * R) (l : list (nat * R)) :
  StronglySorted not_ahead l -> StronglySorted not_ahead (insert_desc iv l).
Proof.
  induction l as [|jw l IH]; intros Hs; cbn [insert_desc].
  - constructor; constructor.
  - apply StronglySorted_inv in Hs as [Hs Hall].
    destruct (gt_or_nan (snd iv) (snd jw)) eqn:Hgt.
    + constructor; [constructor; assumption|].
      constructor; [apply gt_asym, Hgt|].
      rewrite Forall_forall in Hall |- *. intros x Hx.
      specialize (Hall x Hx). unfold not_ahead in *.
      destruct (gt_or_nan (snd x) (snd iv)) eqn:Hx'; [|reflexivity].
      destruct (gt_cotrans _ (snd jw) _ Hx') as [Hc|Hc].
      * congruence.
      * apply gt_asym in Hgt. congruence.
    + constructor; [apply IH, Hs|].
      rewrite insert_desc_perm. constructor; [exact Hgt | exact Hall].
Qed.

Lemma sort_desc_sorted (l : list (nat * R)) :
  StronglySorted not_ahead (fold_right insert_desc [] l).
Proof.
  induction l as [|iv l IH]; [constructor|]. cbn [fold_right].
  apply insert_desc_sorted, IH.
Qed.

Lemma sorted_app_order (l1 l2 : list (nat * R)) :
  StronglySorted not_ahead (l1 ++ l2) ->
  forall a b, a ∈ l1 -> b ∈ l2 -> not_ahead a b.
Proof.
  induction l1 as [|x l1 IH]; intros Hs a b Ha Hb; [inversion Ha|].
  cbn [app] in Hs. apply StronglySorted_inv in Hs as [Hs Hall].
  apply elem_of_cons in Ha as [->|Ha].
  - rewrite Forall_forall in Hall. apply Hall, elem_of_app. right. exact Hb.
  - exact (IH Hs a b Ha Hb).
Qed.

(** In a descending sort, what comes among the first [m] is not smaller
    than what comes after them. *)
Lemma argsort_desc_order (l : list R) (m j j' : nat) (v v' : R) :
  j ∈ take m (argsort_desc l) ->
  j' ∈ drop m (argsort_desc l) ->
  l !! j = Some v -> l !! j' = Some v' ->
  gt_or_nan v' v = false.
Proof.
  unfold argsort_desc.
  set (sorted := fold_right insert_desc [] (zip (seq 0 (length l)) l)).
  change (map fst sorted) with (fst <$> sorted).
  rewrite <- fmap_take, <- fmap_drop.
  intros ([i x] & -> & Hin)%list_elem_of_fmap ([i' x'] & -> & Hin')%list_elem_of_fmap
         Hv Hv'.
  cbn [fst] in *.
  assert (forall k z, (k, z) ∈ sorted -> l !! k = Some z) as Hval.
  { intros k z Hk. unfold sorted in Hk. rewrite sort_desc_perm in Hk.
    apply list_elem_of_lookup in Hk as [p Hp].
    apply lookup_zip_with_Some in Hp as (k0 & z0 & [= <- <-] & Hk0 & Hz0).
    apply lookup_seq in Hk0 as [-> _]. exact Hz0. }
  pose proof (Hval i x (elem_of_sublist _ _ _ Hin (sublist_take _ _))) as Hx.
  pose proof (Hval i' x' (elem_of_sublist _ _ _ Hin' (sublist_drop _ _))) as Hx'.
  assert (x = v) as <- by congruence. assert (x' = v') as <- by congruence.
  apply (sorted_app_order (take m sorted) (drop m sorted)
           ltac:(rewrite take_drop; apply sort_desc_sorted) (i, x) (i', x') Hin Hin').
Qed.
End Sorting.

(** X13.  One iteration of [IHT] on a sample of one row, with a dictionary of
    [n_basis] atoms and a row of [n_basis] coefficients, where the order of
    the scalars is a weak order.  The indices kept, [indices[0, 0:K]] of the
    descending sort of the magnitudes (the first [K], or all but the last
    [-K] when [K] is negative), are distinct; the new row holds the updated
    value at the indices kept and zero elsewhere; and no entry dropped is
    greater in magnitude than an entry kept. *)
Theorem iht_step_keeps_largest :
  forall (R : Type) (SR : Scalar R) (BR : Backend R) (WO : WeakOrder R) (K : Z)
         (dictionary y coeff : tensor R) (n_basis : nat),
    let temp :=
      tadd coeff (mm (tsub y (transpose (mm dictionary (transpose coeff))))
                     dictionary) in
    let kept := py_slice_to K (argsort_desc (data (tabs temp))) in
    dim0 y = 1 ->
    dim1 dictionary = n_basis ->
    length (data coeff) = n_basis ->
    NoDup kept
    /\ length kept = (if (K <? 0)%Z then n_basis - Z.to_nat (- K)
                      else Nat.min (Z.to_nat K) n_basis)
    /\ (forall j, j < n_basis ->
          nth j (data (IHT.step K dictionary y n_basis coeff)) zero
          = if decide (j ∈ kept) then get2 temp 0 j else zero)
    /\ (forall j j', j ∈ kept -> j' < n_basis -> j' ∉ kept ->
          gt_or_nan (absR (get2 temp 0 j')) (absR (get2 temp 0 j)) = false).
Proof.
  intros R SR BR WO K dictionary y coeff n_basis temp kept Hy Hd Hc.
  assert (length (data temp) = n_basis) as Hlen.
  { unfold temp, tadd, tzip. cbn [data]. rewrite length_zip_with.
    unfold mm at 1. rewrite length_tabulate2.
    change (dim0 (tsub y (transpose (mm dictionary (transpose coeff)))))
      with (dim0 y).
    rewrite Hy, Hd, Hc. lia. }
  assert (length (data (tabs temp)) = n_basis) as Hlen'
    by (unfold tabs, tmap; cbn [data]; rewrite length_map; exact Hlen).
  assert (forall j, get2 temp 0 j = nth j (data temp) zero) as Hget
    by (intros j; reflexivity).
  subst kept. rewrite py_slice_to_take, argsort_desc_length, Hlen'.
  set (m := if (K <? 0)%Z then n_basis - Z.to_nat (- K) else Z.to_nat K).
  split; [|split; [|split]].
  - eapply sublist_NoDup; [apply argsort_desc_NoDup | apply sublist_take].
  - rewrite length_take, argsort_desc_length, Hlen'. unfold m.
    destruct (K <? 0)%Z; lia.
  - intros j Hj. unfold IHT.step, index_put0. cbn [data]. fold temp.
    rewrite py_slice_to_take, argsort_desc_length, Hlen'. fold m.
    set (top := take m (argsort_desc (data (tabs temp)))).
    destruct (decide (j ∈ top)) as [Hin|Hin].
    + apply nth_index_put_written.
      * intros iv. apply zip_gather.
      * unfold zeros. cbn [data numel fold_right]. rewrite repeat_length. lia.
      * left. unfold gather0. rewrite fst_zip_gather. exact Hin.
    + rewrite nth_index_put_other; [apply nth_zeros|].
      unfold gather0. rewrite fst_zip_gather. exact Hin.
  - intros j j' Hin Hj' Hout.
    assert (j' ∈ drop m (argsort_desc (data (tabs temp)))) as Hdrop.
    { assert (j' ∈ argsort_desc (data (tabs temp))) as Hall
        by (rewrite argsort_desc_perm, Hlen'; apply elem_of_seq; lia).
      rewrite <- (take_drop m) in Hall.
      apply elem_of_app in Hall as [Hl|Hr]; [contradiction | exact Hr]. }
    assert (j < n_basis) as Hj.
    { assert (j ∈ argsort_desc (data (tabs temp))) as Hall
        by (eapply elem_of_sublist; [exact Hin | apply sublist_take]).
      rewrite argsort_desc_perm, Hlen' in Hall. apply elem_of_seq in Hall. lia. }
    apply (argsort_desc_order (data (tabs temp)) m j j' _ _ Hin Hdrop).
    + unfold tabs, tmap. cbn [data].
      change (map absR (data temp)) with (absR <$> data temp).
      rewrite list_lookup_fmap, (lookup_nth (data temp) j) by lia. reflexivity.
    + unfold tabs, tmap. cbn [data].
      change (map absR (data temp)) with (absR <$> data temp).
      rewrite list_lookup_fmap, (lookup_nth (data temp) j') by lia. reflexivity.
Qed.

(** ** The order of the exact and of the extended rationals *)

#[global] Instance exact_weak_order : WeakOrder Qc.
Proof.
  split; unfold gt_or_nan; simpl.
  - intros x y Hxy. apply lt_bool_false_iff, Qclt_le_weak, lt_bool_iff, Hxy.
  - intros x y z Hxz. apply lt_bool_iff in Hxz.
    destruct (Qclt_le_dec y x) as [Hyx|Hxy].
    + left. apply lt_bool_iff, Hyx.
    + right. apply lt_bool_iff. eapply Qclt_le_trans; eassumption.
Qed.

#[global] Instance extended_weak_order : WeakOrder Extended.xq.
Proof.
  split; unfold gt_or_nan; simpl.
  - intros [p|[]|] [q|[]|]; simpl; try congruence.
    intros Hpq. apply lt_bool_false_iff, Qclt_le_weak, lt_bool_iff, Hpq.
  - intros [p|[]|] [q|[]|] [r|[]|]; simpl; try congruence; auto.
    intros Hrp. apply lt_bool_iff in Hrp.
    destruct (Qclt_le_dec q p) as [Hqp|Hpq].
    + left. apply lt_bool_iff, Hqp.
    + right. apply lt_bool_iff. eapply Qclt_le_trans; eassumption.
Qed.

(** Witness of [iht_step_keeps_largest]: the first iteration on the first
    sample, with [K = 2] of three atoms. *)
Lemma iht_step_keeps_largest_witness :
  let y := slice_row (value Demo.data22) 0 in
  let dictionary := value Demo.dict23 in
  let coeff : tensor Qc := zeros [1; 3] in
  let temp :=
    tadd coeff (mm (tsub y (transpose (mm dictionary (transpose coeff))))
                   dictionary) in
  let kept := py_slice_to 2 (argsort_desc (data (tabs temp))) in
  dim0 y = 1
  /\ dim1 dictionary = 3
  /\ length (data coeff) = 3
  /\ NoDup kept
  /\ length kept = 2
  /\ (forall j, j < 3 ->
        nth j (data (IHT.step 2 dictionary y 3 coeff)) zero
        = if decide (j ∈ kept) then get2 temp 0 j else zero)
  /\ (forall j j', j ∈ kept -> j' < 3 -> j' ∉ kept ->
        gt_or_nan (absR (get2 temp 0 j')) (absR (get2 temp 0 j)) = false).
Proof.
  intros y dictionary coeff temp kept.
  assert (dim0 y = 1) as H0 by reflexivity.
  assert (dim1 dictionary = 3) as H1 by reflexivity.
  assert (length (data coeff) = 3) as H2 by reflexivity.
  split; [exact H0|]. split; [exact H1|]. split; [exact H2|].
  exact (iht_step_keeps_largest Qc Exact.scalar Reference.backend exact_weak_order
           2%Z dictionary y coeff 3 H0 H1 H2).
Defined.

(** ** LSM: the final thresholding *)

Section LSMFacts.
Context {R : Type} `{Backend R}.

Lemma lsm_outer_no_inner (self : LSM.t R) (samples dictionary : tensor R)
    (b nb n : nat) :
  LSM.n_iter self = 0 ->
  LSM.outer self samples dictionary b nb n (zeros [b; nb]) = zeros [b; nb].
Proof.
  intros Hn. induction n as [|n IH]; [reflexivity|].
  cbn [LSM.outer]. rewrite Hn. cbn [LSM.inner]. exact IH.
Qed.

Lemma lsm_outer_flag sv n m be al si th (f1 f2 : bool)
    (samples dictionary : tensor R) (b nb k : nat) (c : tensor R) :
  LSM.outer (LSM.mk sv n m be al si th f1) samples dictionary b nb k c
  = LSM.outer (LSM.mk sv n m be al si th f2) samples dictionary b nb k c.
Proof.
  revert c. induction k as [|k IH]; intros c; [reflexivity|].
  cbn [LSM.outer LSM.alpha LSM.beta LSM.sigma LSM.n_iter]. apply IH.
Qed.

Lemma tmap_zeros (f : R -> R) (sh : list nat) :
  f zero = zero -> tmap f (zeros sh) = zeros sh.
Proof.
  intros Hf. unfold tmap, zeros. cbn [shape data]. f_equal.
  induction (numel sh) as [|n IH]; [reflexivity|].
  cbn [repeat map]. rewrite Hf, IH. reflexivity.
Qed.
End LSMFacts.

(** X14.  [LSM.infer] always returns and leaves the world as it was.  No
    entry of the result is smaller in magnitude than [sparse_threshold]
    unless it is zero, and when either loop has no iteration the result is
    the zero matrix of shape [(batch, n_basis)]. *)
Theorem lsm_output_thresholded :
  forall (R : Type) (SR : Scalar R) (BR : Backend R) (samples dictionary : obj R)
         (w : world R rng_state (LSM.t R)),
    exists r,
      LSM.infer samples dictionary w = Ok (r, w)
      /\ (forall x, In x (data r) ->
            x = zero \/ ltb (absR x) (LSM.sparse_threshold (w_self w)) = false)
      /\ (LSM.n_iter (w_self w) = 0 \/ LSM.n_iter_LSM (w_self w) = 0 ->
          r = zeros [dim0 (value samples); dim1 (value dictionary)]).
Proof.
  intros R SR BR samples dictionary w.
  eexists. split; [cbv [LSM.infer bind get_self ret]; reflexivity|].
  split.
  - intros x Hx. unfold tmap in Hx. cbn [data] in Hx.
    apply in_map_iff in Hx as (c & <- & _).
    destruct (ltb (absR c) (LSM.sparse_threshold (w_self w))) eqn:Hc; auto.
  - intros [Hn|Hn].
    + rewrite lsm_outer_no_inner by exact Hn. apply tmap_zeros.
      destruct (ltb _ _); reflexivity.
    + rewrite Hn. cbn [LSM.outer]. apply tmap_zeros.
      destruct (ltb _ _); reflexivity.
Qed.

(** ** An argument that is never read *)

(** X15.  [IHT], [MP], [OMP] and [LSM] take [return_all_coefficients] and
    never read it: a call returns what it returns with the flag off. *)
Theorem return_all_coefficients_ignored :
  forall (R : Type) (SR : Scalar R) (BR : Backend R) (samples dictionary : obj R)
         (h : gmap loc (obj R)) (g : rng_state) (flag : bool),
    (forall sv n sp,
        outcome (IHT.infer samples dictionary (mkWorld (IHT.mk sv n sp flag) h g))
        = outcome (IHT.infer samples dictionary (mkWorld (IHT.mk sv n sp false) h g)))
    /\ (forall sv sp,
          outcome (MP.infer samples dictionary (mkWorld (MP.mk sv sp flag) h g))
          = outcome (MP.infer samples dictionary (mkWorld (MP.mk sv sp false) h g)))
    /\ (forall sv sp,
          outcome (OMP.infer samples dictionary (mkWorld (OMP.mk sv sp flag) h g))
          = outcome (OMP.infer samples dictionary (mkWorld (OMP.mk sv sp false) h g)))
    /\ (forall sv n m be al si th,
          outcome (LSM.infer samples dictionary
                     (mkWorld (LSM.mk sv n m be al si th flag) h g))
          = outcome (LSM.infer samples dictionary
                       (mkWorld (LSM.mk sv n m be al si th false) h g))).
Proof.
  intros R SR BR samples dictionary h g flag.
  split; [|split; [|split]]; intros; try reflexivity.
  cbv [LSM.infer bind get_self ret outcome w_self].
  cbn [LSM.n_iter_LSM LSM.sparse_threshold].
  rewrite (lsm_outer_flag sv n m be al si th flag false). reflexivity.
Qed.

(** ** What a call leaves alone *)


(** ** Zero data: the zero code is a fixed point *)

Section ZeroFixedPoint.
Context {R : Type} `{Backend R} {ZA : ZeroArith R}.

Lemma get2_all_zero (t : tensor R) (i j : nat) : all_zero t -> get2 t i j = zero.
Proof.
  intros Ht. unfold get2. rewrite nth_lookup.
  destruct (data t !! (i * dim1 t + j)) as [x|] eqn:Hx; [|reflexivity].
  cbn [default]. apply (proj1 (Forall_forall _ _) Ht), list_elem_of_lookup. eauto.
Qed.

Lemma sum_list_zero (l : list R) : Forall (fun x => x = zero) l -> sum_list l = zero.
Proof.
  unfold sum_list. induction 1 as [|x l -> _ IH]; [reflexivity|].
  cbn [fold_left]. rewrite add_zero_zero. exact IH.
Qed.

Lemma all_zero_tabulate2 (m n : nat) (f : nat -> nat -> R) :
  (forall i j, f i j = zero) -> all_zero (tabulate2 m n f).
Proof.
  intros Hf. unfold all_zero, tabulate2. cbn [data].
  apply Forall_forall. intros x Hx.
  apply list_elem_of_In, in_flat_map in Hx as (i & _ & Hx).
  apply in_map_iff in Hx as (j & <- & _). apply Hf.
Qed.

Lemma all_zero_transpose (a : tensor R) : all_zero a -> all_zero (transpose a).
Proof. intros Ha. apply all_zero_tabulate2. intros i j. apply get2_all_zero, Ha. Qed.

Lemma all_zero_mm_l (a b : tensor R) : all_zero a -> all_zero (mm a b).
Proof.
  intros Ha. apply all_zero_tabulate2. intros i j. apply sum_list_zero.
  apply Forall_forall. intros x Hx.
  apply list_elem_of_In, in_map_iff in Hx as (k & <- & _).
  rewrite (get2_all_zero a) by exact Ha. apply mul_zero_left.
Qed.

Lemma all_zero_mm_r (a b : tensor R) : all_zero b -> all_zero (mm a b).
Proof.
  intros Hb. apply all_zero_tabulate2. intros i j. apply sum_list_zero.
  apply Forall_forall. intros x Hx.
  apply list_elem_of_In, in_map_iff in Hx as (k & <- & _).
  rewrite (get2_all_zero b) by exact Hb. apply mul_zero_right.
Qed.

Lemma all_zero_tzip (f : R -> R -> R) (a b : tensor R) :
  f zero zero = zero -> all_zero a -> all_zero b -> all_zero (tzip f a b).
Proof.
  intros Hf Ha Hb. unfold all_zero, tzip in *. cbn [data].
  apply Forall_forall. intros z Hz.
  apply elem_of_zip_with in Hz as (x & y & -> & Hx & Hy).
  rewrite (proj1 (Forall_forall _ _) Ha x Hx), (proj1 (Forall_forall _ _) Hb y Hy).
  exact Hf.
Qed.

Lemma all_zero_tmul_l (a b : tensor R) : all_zero a -> all_zero (tmul a b).
Proof.
  intros Ha. unfold all_zero, tmul, tzip in *. cbn [data].
  apply Forall_forall. intros z Hz.
  apply elem_of_zip_with in Hz as (x & y & -> & Hx & _).
  rewrite (proj1 (Forall_forall _ _) Ha x Hx). apply mul_zero_left.
Qed.

Lemma all_zero_tmap (f : R -> R) (a : tensor R) :
  f zero = zero -> all_zero a -> all_zero (tmap f a).
Proof.
  intros Hf Ha. unfold all_zero, tmap in *. cbn [data].
  apply Forall_fmap. eapply Forall_impl; [exact Ha|]. intros x ->. exact Hf.
Qed.

Lemma all_zero_zeros (sh : list nat) : all_zero (zeros sh : tensor R).
Proof.
  unfold all_zero, zeros. cbn [data]. apply Forall_forall.
  intros x Hx. apply list_elem_of_In, repeat_spec in Hx. exact Hx.
Qed.

Lemma all_zero_concat1 (a b : tensor R) :
  all_zero a -> all_zero b -> all_zero (concat1 a b).
Proof.
  intros Ha Hb. unfold all_zero, concat1 in *. cbn [data].
  apply Forall_forall. intros x Hx.
  apply list_elem_of_In, in_flat_map in Hx as (i & _ & Hx).
  apply in_app_or in Hx as [Hx|Hx]; apply list_elem_of_In in Hx.
  - apply (proj1 (Forall_forall _ _) Ha).
    eapply subseteq_drop, subseteq_take, Hx.
  - apply (proj1 (Forall_forall _ _) Hb).
    eapply subseteq_drop, subseteq_take, Hx.
Qed.

Lemma all_zero_unsqueeze1 (a : tensor R) : all_zero a -> all_zero (unsqueeze1 a).
Proof. intros Ha. exact Ha. Qed.

Lemma all_zero_no_nan (a : tensor R) (name : string) :
  all_zero a -> InferenceMethod.checknan a name = Ok tt.
Proof.
  intros Ha. unfold InferenceMethod.checknan, any_isnan.
  replace (existsb isnan (data a)) with false; [reflexivity|].
  symmetry. apply not_true_iff_false. intros (x & Hx & Hn)%existsb_exists.
  apply list_elem_of_In in Hx.
  rewrite (proj1 (Forall_forall _ _) Ha x Hx), isnan_zero in Hn. discriminate.
Qed.

Lemma all_zero_soft_threshold (th : R) (u : tensor R) :
  all_zero u -> all_zero (ISTA.soft_threshold th u).
Proof.
  intros Hu. unfold ISTA.soft_threshold. apply all_zero_tmul_l.
  apply all_zero_tmap; [apply sign_zero | exact Hu].
Qed.

Lemma all_zero_lca_threshold (self : LCA.t R) (u : tensor R) :
  all_zero u -> all_zero (LCA.threshold_nonlinearity self u).
Proof.
  intros Hu. unfold LCA.threshold_nonlinearity. apply all_zero_tmul_l.
  apply all_zero_tmap; [apply sign_zero | exact Hu].
Qed.

Lemma all_zero_step (lr : R) (u du : tensor R) :
  all_zero u -> all_zero du -> all_zero (tadd u (smul lr du)).
Proof.
  intros Hu Hdu. apply all_zero_tzip; [apply add_zero_zero | exact Hu |].
  apply all_zero_tmap; [apply mul_zero_right | exact Hdu].
Qed.

Lemma lca_loop_zero (self : LCA.t R) (b G : tensor R) (chk : bool) :
  all_zero b ->
  forall (n : nat) (u cs : tensor R),
    all_zero u -> all_zero cs ->
    exists u' cs', LCA.loop self b G chk n u cs = Ok (u', cs')
                   /\ all_zero u' /\ all_zero cs'.
Proof.
  intros Hb. induction n as [|n IH]; intros u cs Hu Hcs; cbn [LCA.loop].
  - eauto.
  - set (cs1 := if negb (LCA.mode_is self "none") then _ else cs).
    assert (all_zero cs1) as Hcs1.
    { unfold cs1. destruct (negb _); [|exact Hcs].
      destruct (LCA.mode_is self "active"); apply all_zero_concat1; try exact Hcs.
      - apply all_zero_lca_threshold, Hu.
      - exact Hu. }
    set (u1 := tadd u _).
    assert (all_zero u1) as Hu1.
    { apply all_zero_step; [exact Hu|]. unfold LCA.grad.
      apply all_zero_tzip; [apply sub_zero_zero | |].
      - apply all_zero_tzip; [apply sub_zero_zero | exact Hb | exact Hu].
      - apply all_zero_transpose, all_zero_mm_r, all_zero_transpose,
          all_zero_lca_threshold, Hu. }
    destruct (_ && _); [eauto|].
    replace (if chk then InferenceMethod.checknan u1 "coefficients" else Ok tt)
      with (@Ok unit tt)
      by (destruct chk; [symmetry; apply all_zero_no_nan, Hu1 | reflexivity]).
    apply IH; assumption.
Qed.

Lemma vanilla_loop_zero (self : Vanilla.t R) (samples dictionary : tensor R)
    (chk : bool) :
  all_zero samples ->
  forall (n : nat) (a residual cs : tensor R),
    all_zero a -> all_zero residual -> all_zero cs ->
    exists a' cs', Vanilla.loop self samples dictionary chk n a residual cs
                   = Ok (a', cs')
                   /\ all_zero a' /\ all_zero cs'.
Proof.
  intros Hx. induction n as [|n IH]; intros a residual cs Ha Hr Hcs;
    cbn [Vanilla.loop].
  - eauto.
  - set (cs1 := if Vanilla.return_all_coefficients self then _ else cs).
    assert (all_zero cs1) as Hcs1.
    { unfold cs1. destruct (Vanilla.return_all_coefficients self); [|exact Hcs].
      apply all_zero_concat1; [exact Hcs | exact Ha]. }
    set (a1 := tadd a _).
    assert (all_zero a1) as Ha1.
    { apply all_zero_step; [exact Ha|]. unfold Vanilla.grad.
      apply all_zero_tzip; [apply sub_zero_zero | |].
      - apply all_zero_transpose, all_zero_mm_r, all_zero_transpose, Hr.
      - apply all_zero_tmap; [apply mul_zero_right|].
        apply all_zero_tmap; [apply sign_zero | exact Ha]. }
    destruct (_ && _); [eauto|].
    replace (if chk then InferenceMethod.checknan a1 "coefficients" else Ok tt)
      with (@Ok unit tt)
      by (destruct chk; [symmetry; apply all_zero_no_nan, Ha1 | reflexivity]).
    apply IH; try assumption.
    unfold Vanilla.residual_of.
    apply all_zero_tzip; [apply sub_zero_zero | exact Hx |].
    apply all_zero_transpose, all_zero_mm_r, all_zero_transpose, Ha1.
Qed.

Lemma ista_loop_v_zero (ra se : bool) (eps th stepsize : R) (chk : bool) :
  forall (n : nat) (lk ad aD : bool)
         (samples dictionary u sc residual cs : tensor R),
    all_zero samples ->
    all_zero u -> all_zero sc -> all_zero residual -> all_zero cs ->
    (lk = true /\ n <> 0)
    \/ exists cs' sc',
         ista_loop_v ra se eps th stepsize chk n lk ad aD samples dictionary u sc
           residual cs = Ok (cs', sc')
         /\ all_zero cs' /\ all_zero sc'.
Proof.
  induction n as [|n IH];
    intros lk ad aD samples dictionary u sc residual cs Hx Hu Hsc Hr Hcs;
    cbn [ista_loop_v].
  - right. exists cs, sc. auto.
  - destruct lk; [left; split; [reflexivity | discriminate]|]. right.
    set (cs1 := if ra then _ else cs).
    assert (all_zero cs1) as Hcs1.
    { unfold cs1. destruct ra; [|exact Hcs].
      apply all_zero_concat1; [exact Hcs | apply all_zero_soft_threshold, Hu]. }
    set (u1 := tsub u (smul stepsize (mm residual dictionary))).
    assert (all_zero u1) as Hu1.
    { apply all_zero_tzip; [apply sub_zero_zero | exact Hu |].
      apply all_zero_tmap; [apply mul_zero_right|]. apply all_zero_mm_l, Hr. }
    pose proof (all_zero_soft_threshold th u1 Hu1) as Hsc1.
    assert (all_zero (if ad then u1 else samples)) as Hx1
      by (destruct ad; assumption).
    destruct (_ && _); [eauto|].
    replace (if chk then InferenceMethod.checknan (ISTA.soft_threshold th u1)
                           "coefficients" else Ok tt)
      with (@Ok unit tt)
      by (destruct chk; [symmetry; apply all_zero_no_nan, Hsc1 | reflexivity]).
    destruct (IH false false false (if ad then u1 else samples)
                (if aD then u1 else dictionary)
                (ISTA.soft_threshold th u1) (ISTA.soft_threshold th u1)
                (ISTA.residual_of (if ad then u1 else samples)
                   (if aD then u1 else dictionary) (ISTA.soft_threshold th u1))
                cs1) as [[Hf _]|Hok];
      try assumption; [|discriminate Hf].
    unfold ISTA.residual_of.
    apply all_zero_tzip; [apply sub_zero_zero | | exact Hx1].
    apply all_zero_transpose, all_zero_mm_r, all_zero_transpose, Hsc1.
Qed.
End ZeroFixedPoint.

#[global] Instance exact_zero_arith : ZeroArith Qc.
Proof.
  split; simpl; try reflexivity.
  - intros x. ring.
  - intros x. ring.
Qed.

(** X17.  In exact arithmetic, on data that is zero and from a start that
    is zero (no warm start, or a zero one), [LCA.infer] returns, with the
    NaN guard or without it, and every entry of what it returns is zero,
    the log included. *)
Theorem lca_zero_data_zero_code :
  forall (R : Type) (SR : Scalar R) (BR : Backend R) (ZA : ZeroArith R)
         (samples dictionary : obj R) (c0 : option loc) (chk : bool)
         (u0 : tensor R) (w : world R rng_state (LCA.t R)),
    warm_start (w_heap w) c0
      (zeros [dim0 (value samples); dim1 (value dictionary)]) u0 ->
    all_zero (value samples) ->
    all_zero u0 ->
    wp (LCA.infer samples dictionary c0 chk) (fun _ => False)
       (fun r _ => all_zero r) w.
Proof.
  intros R SR BR ZA samples dictionary c0 chk u0 w Hc0 Hx Hu0.
  assert (exists r, lca_infer_v (w_self w) (value samples) (value dictionary) u0 chk
                    = Ok r /\ all_zero r) as (r0 & Hr0 & Hz).
  { unfold lca_infer_v.
    destruct (lca_loop_zero (w_self w)
                (transpose (mm (transpose (value dictionary))
                              (transpose (value samples))))
                (tsub (mm (transpose (value dictionary)) (value dictionary))
                      (eye (dim1 (value dictionary))))
                chk
                ltac:(apply all_zero_transpose, all_zero_mm_r, all_zero_transpose, Hx)
                (LCA.n_iter (w_self w)) u0
                (zeros [dim0 (value samples); 0; dim1 (value dictionary)])
                Hu0 (all_zero_zeros _)) as (u' & cs' & -> & Hu' & Hcs').
    eexists. split; [reflexivity|]. cbn [fst snd]. unfold squeeze, all_zero.
    cbn [data].
    destruct (LCA.mode_is (w_self w) "membrane"); apply all_zero_concat1;
      try exact Hcs'; [exact Hu' | apply all_zero_lca_threshold, Hu']. }
  eapply wp_mono; [apply lca_infer_wp, Hc0 | |].
  - intros e He. congruence.
  - simpl. intros r w' (Hv & _). congruence.
Qed.

(** Witness of [lca_zero_data_zero_code]: one zero sample, no warm start. *)
Lemma lca_zero_data_zero_code_witness :
  let w := Demo.world0 Sample.lca_log in
  warm_start (w_heap w) None (zeros [1; 2]) (zeros [1; 2])
  /\ all_zero (value Sample.zero12)
  /\ all_zero (zeros [1; 2] : tensor Qc)
  /\ wp (LCA.infer Sample.zero12 Demo.eye2 None true) (fun _ => False)
        (fun r _ => all_zero r) w.
Proof.
  intros w.
  assert (warm_start (w_heap w) None (zeros [1; 2]) (zeros [1; 2] : tensor Qc)) as H0
    by reflexivity.
  assert (all_zero (value Sample.zero12)) as H1 by (repeat constructor).
  assert (all_zero (zeros [1; 2] : tensor Qc)) as H2 by (repeat constructor).
  split; [exact H0|]. split; [exact H1|]. split; [exact H2|].
  exact (lca_zero_data_zero_code Qc Exact.scalar Reference.backend exact_zero_arith
           Sample.zero12 Demo.eye2 None true (zeros [1; 2]) w H0 H1 H2).
Defined.

(** X18.  In exact arithmetic, on data that is zero and from a warm start
    that is zero, [Vanilla.infer] returns, with the NaN guard or without
    it, and every entry of what it returns is zero, the log included. *)
Theorem vanilla_zero_data_zero_code :
  forall (R : Type) (SR : Scalar R) (BR : Backend R) (ZA : ZeroArith R)
         (samples dictionary : obj R) (c : loc) (o : obj R) (chk : bool)
         (w : world R rng_state (Vanilla.t R)),
    w_heap w !! c = Some o ->
    all_zero (value samples) ->
    all_zero (value o) ->
    wp (Vanilla.infer samples dictionary (Some c) chk) (fun _ => False)
       (fun r _ => all_zero r) w.
Proof.
  intros R SR BR ZA samples dictionary c o chk w Hc Hx Ha0.
  assert (exists r, vanilla_infer_v (w_self w) (value samples) (value dictionary)
                      (value o) chk = Ok r /\ all_zero r) as (r0 & Hr0 & Hz).
  { unfold vanilla_infer_v.
    destruct (vanilla_loop_zero (w_self w) (value samples) (value dictionary) chk Hx
                (Vanilla.n_iter (w_self w)) (value o)
                (Vanilla.residual_of (value samples) (value dictionary) (value o))
                (zeros [dim0 (value samples); 0; dim1 (value dictionary)])
                Ha0
                ltac:(unfold Vanilla.residual_of;
                      apply all_zero_tzip; [apply sub_zero_zero | exact Hx |];
                      apply all_zero_transpose, all_zero_mm_r, all_zero_transpose, Ha0)
                (all_zero_zeros _)) as (a' & cs' & -> & Ha' & Hcs').
    eexists. split; [reflexivity|]. cbn [fst snd]. unfold squeeze, all_zero.
    cbn [data]. apply all_zero_concat1; [exact Hcs' | exact Ha']. }
  eapply wp_mono;
    [apply (vanilla_infer_wp samples dictionary (Some c) chk (value o));
     exists o; auto | |].
  - intros e He. congruence.
  - simpl. intros r w' (Hv & _). congruence.
Qed.

(** Witness of [vanilla_zero_data_zero_code]: one zero sample, a zero warm
    start. *)
Lemma vanilla_zero_data_zero_code_witness :
  let w := Demo.world1 Demo.vanilla_plain Sample.zero12 in
  w_heap w !! 0 = Some Sample.zero12
  /\ all_zero (value Sample.zero12)
  /\ wp (Vanilla.infer Sample.zero12 Demo.eye2 (Some 0) true) (fun _ => False)
        (fun r _ => all_zero r) w.
Proof.
  intros w.
  assert (w_heap w !! 0 = Some Sample.zero12) as H0 by reflexivity.
  assert (all_zero (value Sample.zero12)) as H1 by (repeat constructor).
  split; [exact H0|]. split; [exact H1|].
  exact (vanilla_zero_data_zero_code Qc Exact.scalar Reference.backend
           exact_zero_arith Sample.zero12 Demo.eye2 0 Sample.zero12 true w H0 H1 H1).
Defined.

(** X19.  In exact arithmetic, where the largest eigenvalue of
    [dictionary.T @ dictionary] is not zero (so that the step size
    [1 / lipschitz] is a number), on data that is zero and from a start that
    is zero (no warm start, or a zero one, which may be the data itself),
    [ISTA.infer] returns, with the NaN guard or without it, and every entry
    of what it returns is zero, the log included; unless there is an
    iteration and the warm start is a leaf that requires grad, on the device
    of the dictionary: then it raises [RuntimeError]. *)
Theorem ista_zero_data_zero_code :
  forall (R : Type) (SR : Scalar R) (BR : Backend R) (ZA : ZeroArith R)
         (ld lD : loc) (samples dictionary : obj R) (c0 : option loc) (chk : bool)
         (u0 : tensor R) (w : world R rng_state (ISTA.t R)) (lipschitz : R),
    w_heap w !! ld = Some samples ->
    w_heap w !! lD = Some dictionary ->
    ISTA.lipschitz_constant (value dictionary) = Ok lipschitz ->
    lipschitz <> zero ->
    warm_start (w_heap w) c0
      (zeros [dim0 (value samples); dim1 (value dictionary)]) u0 ->
    all_zero (value samples) ->
    all_zero u0 ->
    wp (ISTA.infer ld lD c0 chk)
       (fun e => e = RuntimeError
                 /\ ista_locked (w_heap w) c0 (device dictionary) = true
                 /\ ISTA.n_iter (w_self w) <> 0)
       (fun r _ => all_zero r) w.
Proof.
  intros R SR BR ZA ld lD samples dictionary c0 chk u0 w lipschitz
         Hld HlD HL Hnz Hc0 Hx Hu0.
  set (lk := ista_locked (w_heap w) c0 (device dictionary)).
  set (ad := ista_alias (w_heap w) c0 (device dictionary) ld).
  set (aD := ista_alias (w_heap w) c0 (device dictionary) lD).
  assert ((lk = true /\ ISTA.n_iter (w_self w) <> 0)
          \/ exists r, ista_infer_v (w_self w) (value samples) (value dictionary) u0
                         lk ad aD chk = Ok r /\ all_zero r) as Hv.
  { unfold ista_infer_v. rewrite HL.
    set (th := mul (ISTA.stepsize_of lipschitz) (ISTA.sparsity_penalty (w_self w))).
    pose proof (all_zero_soft_threshold th u0 Hu0) as Hsc.
    destruct (ista_loop_v_zero (ISTA.return_all_coefficients (w_self w))
                (ISTA.stop_early (w_self w)) (ISTA.epsilon (w_self w)) th
                (ISTA.stepsize_of lipschitz) chk
                (ISTA.n_iter (w_self w)) lk ad aD
                (value samples) (value dictionary) u0 (ISTA.soft_threshold th u0)
                (ISTA.residual_of (value samples) (value dictionary)
                   (ISTA.soft_threshold th u0))
                (zeros [dim0 (value samples); 0; dim1 (value dictionary)])
                Hx Hu0 Hsc
                ltac:(unfold ISTA.residual_of;
                      apply all_zero_tzip; [apply sub_zero_zero | | exact Hx];
                      apply all_zero_transpose, all_zero_mm_r, all_zero_transpose, Hsc)
                (all_zero_zeros _)) as [Hlk|(cs' & sc' & -> & Hcs' & Hsc')];
      [left; exact Hlk | right].
    eexists. split; [reflexivity|]. cbn [fst snd]. unfold squeeze, all_zero.
    cbn [data]. apply all_zero_concat1; [exact Hcs' | exact Hsc']. }
  eapply wp_mono; [apply ista_infer_wp; eassumption | |].
  - fold lk ad aD. intros e He.
    destruct Hv as [[Hlk Hn]|(r0 & Hr0 & _)]; [|congruence].
    apply ista_infer_v_raises in He as [[_ HL']|[(_ & _ & ->)|(Hf & _)]];
      [congruence | auto | congruence].
  - simpl. fold lk ad aD. intros r w' (Hr & _).
    destruct Hv as [[Hlk Hn]|(r0 & Hr0 & Hz)]; [|congruence].
    unfold ista_infer_v in Hr. rewrite HL, Hlk in Hr.
    destruct (ISTA.n_iter (w_self w)) as [|n]; [contradiction|].
    rewrite ista_loop_v_locked in Hr. discriminate Hr.
Qed.

(** Witness of [ista_zero_data_zero_code]: one zero sample, no warm start,
    the identity as the dictionary. *)
Lemma ista_zero_data_zero_code_witness :
  let w := Demo.world2 Demo.ista_plain Sample.zero12 Demo.eye2 in
  w_heap w !! 0 = Some Sample.zero12
  /\ w_heap w !! 1 = Some Demo.eye2
  /\ ISTA.lipschitz_constant (value Demo.eye2) = Ok (Demo.q 1 1)
  /\ Demo.q 1 1 <> zero
  /\ warm_start (w_heap w) None (zeros [1; 2]) (zeros [1; 2])
  /\ all_zero (value Sample.zero12)
  /\ all_zero (zeros [1; 2] : tensor Qc)
  /\ wp (@ISTA.infer Qc Exact.scalar Reference.backend 0 1 None true)
        (fun e => e = RuntimeError /\ false = true /\ 2 <> 0)
        (fun r _ => all_zero r) w.
Proof.
  intros w.
  assert (w_heap w !! 0 = Some Sample.zero12) as Hld by reflexivity.
  assert (w_heap w !! 1 = Some Demo.eye2) as HlD by reflexivity.
  assert (ISTA.lipschitz_constant (value Demo.eye2) = Ok (Demo.q 1 1)) as HL
    by (vm_compute; reflexivity).
  assert (Demo.q 1 1 <> zero) as Hnz by discriminate.
  assert (warm_start (w_heap w) None (zeros [1; 2]) (zeros [1; 2] : tensor Qc)) as H0
    by reflexivity.
  assert (all_zero (value Sample.zero12)) as H1 by (repeat constructor).
  assert (all_zero (zeros [1; 2] : tensor Qc)) as H2 by (repeat constructor).
  split; [exact Hld|]. split; [exact HlD|]. split; [exact HL|]. split; [exact Hnz|].
  split; [exact H0|]. split; [exact H1|]. split; [exact H2|].
  exact (ista_zero_data_zero_code Qc Exact.scalar Reference.backend exact_zero_arith
           0 1 Sample.zero12 Demo.eye2 None true (zeros [1; 2]) w (Demo.q 1 1)
           Hld HlD HL Hnz H0 H1 H2).
Defined.

(** ** The number of atoms kept, for a sparsity that is a fraction *)

Lemma ceil_fraction (sparsity : Qc) (n_basis : nat) :
  (0 <= sparsity)%Qc -> (sparsity <= 1)%Qc ->
  (0 <= ceil (mul sparsity (of_nat n_basis)) <= Z.of_nat n_basis)%Z.
Proof.
  intros H0 H1. simpl. unfold Exact.from_nat.
  unfold Qcle in H0, H1. simpl in H0, H1.
  assert (0 <= inject_Z (Z.of_nat n_basis))%Q as Hn
    by (rewrite <- (Zle_Qle 0); lia).
  assert (Qcmult sparsity (Q2Qc (inject_Z (Z.of_nat n_basis)))
          == sparsity * inject_Z (Z.of_nat n_basis))%Q as Heq.
  { unfold Qcmult, Q2Qc. simpl. rewrite !Qred_correct. reflexivity. }
  rewrite Heq. split.
  - change 0%Z with (Qceiling 0). apply Qceiling_resp_le.
    apply Qmult_le_0_compat; assumption.
  - rewrite <- (Qceiling_Z (Z.of_nat n_basis)) at 2. apply Qceiling_resp_le.
    rewrite <- (Qmult_1_l (inject_Z (Z.of_nat n_basis))) at 2.
    apply Qmult_le_compat_r; assumption.
Qed.

(** X20.  In exact arithmetic, for a sparsity between 0 and 1 the number
    [K = ceil(sparsity * n_basis)] that [IHT], [MP] and [OMP] compute lies
    between 0 and [n_basis]; it is [n_basis] for the sparsity 1 and 0 for the
    sparsity 0. *)
Theorem sparsity_fraction_bounds_K :
  forall (sparsity : Qc) (n_basis : nat) (sv : option string) (n : nat) (flag : bool),
    (0 <= sparsity)%Qc -> (sparsity <= 1)%Qc ->
    (0 <= IHT.K (IHT.mk sv n sparsity flag) n_basis <= Z.of_nat n_basis)%Z
    /\ (0 <= MP.K (MP.mk sv sparsity flag) n_basis <= Z.of_nat n_basis)%Z
    /\ (0 <= OMP.K (OMP.mk sv sparsity flag) n_basis <= Z.of_nat n_basis)%Z
    /\ (sparsity = 1%Qc -> IHT.K (IHT.mk sv n sparsity flag) n_basis = Z.of_nat n_basis)
    /\ (sparsity = 0%Qc -> IHT.K (IHT.mk sv n sparsity flag) n_basis = 0%Z).
Proof.
  intros sparsity n_basis sv n flag H0 H1.
  pose proof (ceil_fraction sparsity n_basis H0 H1) as HK.
  split; [exact HK|]. split; [exact HK|]. split; [exact HK|].
  unfold IHT.K. cbn [IHT.sparsity]. split; intros ->.
  - replace (mul 1%Qc (of_nat n_basis)) with (of_nat n_basis : Qc)
      by (simpl; ring).
    simpl. unfold Exact.from_nat. simpl. rewrite Qred_correct. apply Qceiling_Z.
  - replace (mul 0%Qc (of_nat n_basis)) with (0%Qc) by (simpl; ring).
    reflexivity.
Qed.

(** Witness of [sparsity_fraction_bounds_K]: the sparsity 1/2 on three
    atoms. *)
Lemma sparsity_fraction_bounds_K_witness :
  (0 <= Demo.q 1 2)%Qc
  /\ (Demo.q 1 2 <= 1)%Qc
  /\ (0 <= IHT.K Demo.iht_half 3 <= 3)%Z.
Proof.
  assert (0 <= Demo.q 1 2)%Qc as H0 by (vm_compute; discriminate).
  assert (Demo.q 1 2 <= 1)%Qc as H1 by (vm_compute; discriminate).
  split; [exact H0|]. split; [exact H1|].
  exact (proj1 (sparsity_fraction_bounds_K (Demo.q 1 2) 3 None 3 false H0 H1)).
Defined.
